(** * Rathee-Runner: the simulation core of [game.py]

    A shallow embedding of the entity model ([Player], [Enemy], [Box],
    [Potion]), of the per-frame simulation ([Game.update]) and of the
    application that drives it ([App]: screens, keys, high score),
    together with the properties of the written specification.

    Modelling conventions
    - Python numbers that may be floats (positions, velocities, speeds,
      elapsed time) are exact rationals [Q]; integer counters (health,
      score, milestones) are [Z].  An equation between such numbers is
      one of the exact values, which the code's binary floating point
      follows up to rounding; where a property turns on that difference
      (the subdivision of a gravity step) it is stated by inequalities
      with a margin.
    - Every [pygame.mixer.Sound.play()] is recorded, in order, in a list of
      [Sfx]; a sound that failed to load (the global is [None]) records
      nothing, as in [if player_hit_sfx: player_hit_sfx.play()].
    - The module-level generator of [random] is a value of [Random.t],
      threaded through the code that draws from it.
    - Entities are heap objects: [Obj] pairs an identity with the contents,
      and [list.remove] removes the first element with that identity.
    - Rectangles and their overlap test belong to pygame; they are the
      fields of a [Pygame] record the simulation is parameterised by. *)

From Stdlib Require Import ZArith QArith Qround Qminmax Lqa Lia List Bool String.
Import ListNotations.
Local Open Scope Z_scope.
Local Open Scope Q_scope.

(** ** Comparisons on rationals, as booleans *)

Definition Qltb (a b : Q) : bool := negb (Qle_bool b a).
Definition Qgeb (a b : Q) : bool := Qle_bool b a.
Definition Qgtb (a b : Q) : bool := Qltb b a.

(** ** CONFIG / DEFAULTS *)

Definition WIDTH : Q := 960.
Definition HEIGHT : Q := 540.
Definition GROUND_HEIGHT : Q := 70.
Definition GROUND_Y : Q := HEIGHT - GROUND_HEIGHT.

Definition GRAVITY : Q := 0.7.
Definition JUMP_FORCE : Q := -14.
Definition PLAYER_START_SPEED_BASE : Q := 4.0.
Definition SPEED_INCREASE_STEP : Q := 0.5.
Definition SCORE_STEP : Z := 10.
Definition PLAYER_MAX_HEALTH : Z := 3.

Definition MIN_SPAWN_DIST : Z := 600.
Definition MAX_SPAWN_DIST : Z := 1100.

Definition PLAYER_SIZE : Z * Z := (96, 128)%Z.
Definition ENEMY_SIZE : Z * Z := (96, 128)%Z.
Definition BOX_SIZE : Z * Z := (64, 64)%Z.
Definition POTION_SIZE : Z * Z := (40, 40)%Z.

Definition POTION_BASE_WEIGHT : Q := 0.05.

(** The reference frame duration every [dt] is divided by. *)
Definition REF_FRAME_MS : Q := 16.67.

(** [DIFFICULTY_MOD.get(name, 1.0)] *)
Definition DIFFICULTY_MOD (name : string) : Q :=
  if String.eqb name "Easy" then 0.85
  else if String.eqb name "Normal" then 1.0
  else if String.eqb name "Hard" then 1.25
  else 1.0.

(** [settings]: the two persisted fields; a missing key is [None]. *)
Record Settings := mkSettings {
  volume : option Q;
  difficulty : option string
}.

(** [settings.get("difficulty", "Normal")] *)
Definition get_difficulty (s : Settings) : string :=
  match difficulty s with Some d => d | None => "Normal"%string end.

(** ** GLOBAL ASSETS *)

Inductive Sfx := SfxJump | SfxHit | SfxHeal | SfxDeath | SfxEnemyAttack.

(** What [load_all] left in the globals: the number of frames that loaded
    for each animation, and whether each sound object exists. *)
Record Assets := mkAssets {
  player_run_frames : nat;
  player_idle_frames : nat;
  enemy_run_frames : nat;
  player_jump_sfx : bool;
  player_hit_sfx : bool;
  player_heal_sfx : bool;
  player_death_sfx : bool;
  enemy_attack_sfx : bool
}.

(** [if sfx: sfx.play()] *)
Definition play (loaded : bool) (s : Sfx) : list Sfx :=
  if loaded then [s] else [].

(** [frames or [fallback]]: the length of the list that is used. *)
Definition or_fallback (n : nat) : Z :=
  match n with O => 1%Z | _ => Z.of_nat n end.

(** [clamp(v, a, b) = max(a, min(b, v))] *)
Definition clamp (v a b : Q) : Q :=
  let m := if Qltb v b then v else b in
  if Qltb a m then m else a.

(** ** The generator of the [random] module *)

Module Random.

(** The generator: an unbounded supply of raw integers and the position
    of the next one.  Each library call consumes one raw integer and maps
    it into the range its documentation promises. *)
Record t := mk { source : nat -> Z; pos : nat }.

Definition next (r : t) : Z * t :=
  (source r (pos r), mk (source r) (S (pos r))).

(** [random.random()]: a number in [0, 1). *)
Definition random (r : t) : Q * t :=
  let (z, r') := next r in
  (inject_Z (z mod 1000000) / 1000000, r').

(** [random.randint(a, b)]: an integer in [a, b], both ends included. *)
Definition randint (a b : Z) (r : t) : Z * t :=
  let (z, r') := next r in
  ((a + z mod (b - a + 1))%Z, r').

(** [random.uniform(a, b) = a + (b - a) * random()] *)
Definition uniform (a b : Q) (r : t) : Q * t :=
  let (u, r') := random r in
  (a + (b - a) * u, r').

(** [random.choice(seq)] on a sequence [x :: l]. *)
Definition choice {X : Type} (x : X) (l : list X) (r : t) : X * t :=
  let (z, r') := next r in
  (nth (Z.to_nat (z mod Z.of_nat (S (List.length l)))) (x :: l) x, r').

(** [random.choices(population, weights)[0]] on three alternatives: the
    first alternative whose cumulative weight exceeds
    [random() * total]. *)
Definition choices3 {X : Type} (x1 x2 x3 : X) (w1 w2 w3 : Q) (r : t) : X * t :=
  let (u, r') := random r in
  let v := u * (w1 + w2 + w3) in
  (if Qltb v w1 then x1 else if Qltb v (w1 + w2) then x2 else x3, r').

End Random.

(** ** Player *)

Inductive PState := Idle | Run | Jump | Dead.

Definition PState_eqb (a b : PState) : bool :=
match a, b with
| Idle, Idle | Run, Run | Jump, Jump | Dead, Dead => true
| _, _ => false
end.

(** Which surface [self.image] refers to. *)
Inductive Sprite :=
| SprIdle (i : Z)
| SprRun (i : Z)
| SprJump
| SprDead
| SprEnemy (i : Z)
| SprBox
| SprPotion.

Module Player.

Record t := mk {
  world_x : Q;
  y : Q;
  vel_y : Q;
  state : PState;
  frame : Z;
  frame_timer : Q;
  alive : bool;
  health : Z;
  image : Sprite
}.

Definition frame_speed : Q := 100.

Definition set_world_x (v : Q) (p : t) : t :=
  mk v (y p) (vel_y p) (state p) (frame p) (frame_timer p) (alive p) (health p) (image p).
Definition set_y (v : Q) (p : t) : t :=
  mk (world_x p) v (vel_y p) (state p) (frame p) (frame_timer p) (alive p) (health p) (image p).
Definition set_vel_y (v : Q) (p : t) : t :=
  mk (world_x p) (y p) v (state p) (frame p) (frame_timer p) (alive p) (health p) (image p).
Definition set_state (v : PState) (p : t) : t :=
  mk (world_x p) (y p) (vel_y p) v (frame p) (frame_timer p) (alive p) (health p) (image p).
Definition set_frame (v : Z) (p : t) : t :=
  mk (world_x p) (y p) (vel_y p) (state p) v (frame_timer p) (alive p) (health p) (image p).
Definition set_frame_timer (v : Q) (p : t) : t :=
  mk (world_x p) (y p) (vel_y p) (state p) (frame p) v (alive p) (health p) (image p).
Definition set_alive (v : bool) (p : t) : t :=
  mk (world_x p) (y p) (vel_y p) (state p) (frame p) (frame_timer p) v (health p) (image p).
Definition set_health (v : Z) (p : t) : t :=
  mk (world_x p) (y p) (vel_y p) (state p) (frame p) (frame_timer p) (alive p) v (image p).
Definition set_image (v : Sprite) (p : t) : t :=
  mk (world_x p) (y p) (vel_y p) (state p) (frame p) (frame_timer p) (alive p) (health p) v.

(** [Player.__init__(world_x)] *)
Definition init (x : Q) : t :=
  mk x GROUND_Y 0 Idle 0 0 true PLAYER_MAX_HEALTH (SprIdle 0).

Definition on_ground (p : t) : bool := Qgeb (y p) GROUND_Y.

Section Methods.
Variable A : Assets.

Definition jump (p : t) : t * list Sfx :=
  if negb (alive p) then (p, [])
  else if on_ground p then
    (set_state Jump
       (set_world_x (world_x p + 10)
          (set_vel_y (JUMP_FORCE * 1.10) p)),
     play (player_jump_sfx A) SfxJump)
  else (p, []).

Definition apply_gravity (dt : Q) (p : t) : t :=
  let p1 := set_vel_y (vel_y p + GRAVITY * (dt / REF_FRAME_MS)) p in
  let p2 := set_y (y p1 + vel_y p1 * (dt / REF_FRAME_MS)) p1 in
  if Qgeb (y p2) GROUND_Y then
    let p3 := set_vel_y 0 (set_y GROUND_Y p2) in
    if PState_eqb (state p3) Jump then set_state Run p3 else p3
  else p2.

Definition die (p : t) : t * list Sfx :=
  if negb (alive p) then (p, [])
  else (set_state Dead (set_alive false p),
        play (player_death_sfx A) SfxDeath).

Definition take_damage (amt : Z) (p : t) : t * list Sfx :=
  if negb (alive p) then (p, [])
  else if (health p =? 1)%Z then
    (* silent final death *)
    (set_frame 0 (set_state Dead (set_alive false (set_health 0 p))), [])
  else
    let p1 := set_health (health p - amt) p in
    let s1 := play (player_hit_sfx A) SfxHit in
    if (health p1 <=? 0)%Z then
      let (p2, s2) := die p1 in (p2, s1 ++ s2)
    else (p1, s1).

Definition heal (amt : Z) (p : t) : t * list Sfx :=
  if negb (alive p) then (p, [])
  else (set_health (Z.min PLAYER_MAX_HEALTH (health p + amt)) p,
        play (player_heal_sfx A) SfxHeal).

(** [self.image = anim[self.frame]] is recorded as the animation and the
    index into it. *)
Definition update_animation (dt : Q) (p : t) : t :=
  match state p with
  | Dead => set_image SprDead p
  | Jump => set_image SprJump p
  | st =>
    let n := if PState_eqb st Run then or_fallback (player_run_frames A)
             else or_fallback (player_idle_frames A) in
    let p1 := set_frame_timer (frame_timer p + dt) p in
    let p2 := if Qgeb (frame_timer p1) frame_speed
              then set_frame ((frame p1 + 1) mod n) (set_frame_timer 0 p1)
              else p1 in
    set_image (if PState_eqb st Run then SprRun (frame p2)
               else SprIdle (frame p2)) p2
  end.

(** [Player.update(dt, game)]; of [game] only [game.speed] is read. *)
Definition update (dt : Q) (game_speed : Q) (p : t) : t :=
  let p1 := apply_gravity dt p in
  let p2 := if on_ground p1
               && negb (PState_eqb (state p1) Dead || PState_eqb (state p1) Jump)
            then set_state Run p1 else p1 in
  let p3 := update_animation dt p2 in
  (* auto-run scaled by difficulty modifier *)
  set_world_x (world_x p3 + game_speed * (dt / REF_FRAME_MS)) p3.

End Methods.

End Player.

(** ** Enemy *)

Module Enemy.

Record t := mk {
  world_x : Q;
  image : Sprite;
  frame : Z;
  frame_timer : Q;
  left : Q;
  right : Q;
  dir : Z;
  speed : Q
}.

Definition frame_speed : Q := 140.

(** [Enemy.__init__(world_x)]; [spd] is the result of
    [random.uniform(1.5, 2.5)]. *)
Definition init (x : Q) (spd : Q) : t :=
  mk x (SprEnemy 0) 0 0 (x - 120) (x + 120) (-1) spd.

Definition update (A : Assets) (dt : Q) (e : t) : t :=
  (* patrol *)
  let x1 := world_x e + inject_Z (dir e) * speed e * (dt / REF_FRAME_MS) in
  let '(x2, d2) :=
    if Qltb x1 (left e) then (left e, 1%Z)
    else if Qgtb x1 (right e) then (right e, (-1)%Z)
    else (x1, dir e) in
  (* animation *)
  let ft1 := frame_timer e + dt in
  let '(ft2, fr2) :=
    if Qgeb ft1 frame_speed
    then (0, ((frame e + 1) mod or_fallback (enemy_run_frames A))%Z)
    else (ft1, frame e) in
  mk x2 (SprEnemy fr2) fr2 ft2 (left e) (right e) d2 (speed e).

End Enemy.

(** ** Entities of the active set *)

Inductive Entity :=
| EBox (x : Q)
| EEnemy (e : Enemy.t)
| EPotion (x : Q).

Definition entity_world_x (e : Entity) : Q :=
  match e with
  | EBox x => x
  | EEnemy en => Enemy.world_x en
  | EPotion x => x
  end.

Definition is_enemy (e : Entity) : bool :=
  match e with EEnemy _ => true | _ => false end.

(** [e.update(dt, game)]: only [Enemy] overrides the empty method. *)
Definition entity_update (A : Assets) (dt : Q) (e : Entity) : Entity :=
  match e with
  | EEnemy en => EEnemy (Enemy.update A dt en)
  | other => other
  end.

(** An object of the heap: its identity and its contents. *)
Record Obj := mkObj { oid : nat; ent : Entity }.

Definition obj_world_x (o : Obj) : Q := entity_world_x (ent o).

(** [lst.remove(e)] inside [try: ... except: pass]: the first element that
    is the object [e] goes; a list without it stays as it is. *)
Fixpoint list_remove (e : Obj) (l : list Obj) : list Obj :=
  match l with
  | [] => []
  | x :: r => if Nat.eqb (oid x) (oid e) then r else x :: list_remove e r
  end.

(** [max(l)] on a list of numbers [x :: l]. *)
Definition py_max (x : Q) (l : list Q) : Q :=
  fold_left (fun m v => if Qltb m v then v else m) l x.

(** ** pygame rectangles *)

Record Pygame := mkPygame {
  Rect : Type;
  (** [Player.rect(camera_x)] *)
  player_rect : Player.t -> Q -> Rect;
  (** [e.rect(camera_x)] of an entity *)
  entity_rect : Entity -> Q -> Rect;
  (** [Rect.colliderect] *)
  colliderect : Rect -> Rect -> bool
}.

(** ** Game (camera, spawn, logic) *)

(** The strings ["box"], ["enemy"] and ["potion"]. *)
Inductive EntityType := TBox | TEnemy | TPotion.

Module Game.

Record t := mk {
  player : Player.t;
  camera_x : Q;
  settings : Settings;
  base_speed : Q;
  speed : Q;
  score : Z;
  last_milestone : Z;
  entities : list Obj;
  potion_weight : Q;
  (* state of the interpreter the methods read and write *)
  rng : Random.t;      (* the generator of [random] *)
  next_id : nat;       (* the identity the next new object gets *)
  played : list Sfx    (* every sound played so far, oldest first *)
}.

Definition set_player (v : Player.t) (g : t) : t :=
  mk v (camera_x g) (settings g) (base_speed g) (speed g) (score g)
     (last_milestone g) (entities g) (potion_weight g) (rng g) (next_id g) (played g).
Definition set_camera_x (v : Q) (g : t) : t :=
  mk (player g) v (settings g) (base_speed g) (speed g) (score g)
     (last_milestone g) (entities g) (potion_weight g) (rng g) (next_id g) (played g).
Definition set_speed (v : Q) (g : t) : t :=
  mk (player g) (camera_x g) (settings g) (base_speed g) v (score g)
     (last_milestone g) (entities g) (potion_weight g) (rng g) (next_id g) (played g).
Definition set_score (v : Z) (g : t) : t :=
  mk (player g) (camera_x g) (settings g) (base_speed g) (speed g) v
     (last_milestone g) (entities g) (potion_weight g) (rng g) (next_id g) (played g).
Definition set_last_milestone (v : Z) (g : t) : t :=
  mk (player g) (camera_x g) (settings g) (base_speed g) (speed g) (score g)
     v (entities g) (potion_weight g) (rng g) (next_id g) (played g).
Definition set_entities (v : list Obj) (g : t) : t :=
  mk (player g) (camera_x g) (settings g) (base_speed g) (speed g) (score g)
     (last_milestone g) v (potion_weight g) (rng g) (next_id g) (played g).
Definition set_potion_weight (v : Q) (g : t) : t :=
  mk (player g) (camera_x g) (settings g) (base_speed g) (speed g) (score g)
     (last_milestone g) (entities g) v (rng g) (next_id g) (played g).
Definition set_rng (v : Random.t) (g : t) : t :=
  mk (player g) (camera_x g) (settings g) (base_speed g) (speed g) (score g)
     (last_milestone g) (entities g) (potion_weight g) v (next_id g) (played g).
Definition set_next_id (v : nat) (g : t) : t :=
  mk (player g) (camera_x g) (settings g) (base_speed g) (speed g) (score g)
     (last_milestone g) (entities g) (potion_weight g) (rng g) v (played g).
Definition set_played (v : list Sfx) (g : t) : t :=
  mk (player g) (camera_x g) (settings g) (base_speed g) (speed g) (score g)
     (last_milestone g) (entities g) (potion_weight g) (rng g) (next_id g) v.

(** [Box(x)], [Enemy(x)] or [Potion(x)]; only [Enemy.__init__] draws. *)
Definition new_entity (typ : EntityType) (x : Q) (r : Random.t) : Entity * Random.t :=
  match typ with
  | TBox => (EBox x, r)
  | TEnemy => let (s, r') := Random.uniform 1.5 2.5 r in (EEnemy (Enemy.init x s), r')
  | TPotion => (EPotion x, r)
  end.

(** [self.entities.append(Cls(x))] for the class named by [typ]. *)
Definition append_new (typ : EntityType) (x : Q) (g : t) : t :=
  let (e, r') := new_entity typ x (rng g) in
  set_rng r'
    (set_next_id (S (next_id g))
       (set_entities (entities g ++ [mkObj (next_id g) e]) g)).

(** The body of [for i in range(n)] in [_seed_initial_world], with the
    local [x]. *)
Fixpoint seed_loop (n : nat) (x : Z) (g : t) : t :=
  match n with
  | O => g
  | S k =>
    let (typ, r1) := Random.choice TBox [TEnemy; TPotion] (rng g) in
    let g1 := append_new typ (inject_Z x) (set_rng r1 g) in
    let (d, r2) := Random.randint 300 500 (rng g1) in
    seed_loop k (x + d)%Z (set_rng r2 g1)
  end.

Definition _seed_initial_world (g : t) : t := seed_loop 5 600%Z g.

(** [Game.__init__(screen, settings_local)]; [r] is the generator's state
    at the call. *)
Definition init (s : Settings) (r : Random.t) : t :=
  let base := PLAYER_START_SPEED_BASE * DIFFICULTY_MOD (get_difficulty s) in
  (* [potion_weight] does not exist before the last assignment; nothing
     reads the 0 that stands for it until then *)
  let g := mk (Player.init 100) 0 s base base 0 (-1) [] 0 r O [] in
  let g := _seed_initial_world g in
  (* adjust potion weight by difficulty (hard = fewer potions) *)
  set_potion_weight
    (POTION_BASE_WEIGHT *
     (if String.eqb (get_difficulty s) "Normal" then 1.0
      else if String.eqb (get_difficulty s) "Easy" then 0.8 else 0.6)) g.

(** [max([e.world_x for e in self.entities] + [self.player.world_x])] *)
Definition furthest (g : t) : Q :=
  match map obj_world_x (entities g) ++ [Player.world_x (player g)] with
  | [] => Player.world_x (player g)
  | x :: l => py_max x l
  end.

(** The x the spawner fills the world up to. *)
Definition spawn_horizon (g : t) : Q :=
  camera_x g + WIDTH + inject_Z MIN_SPAWN_DIST.

(** The [while] loop of [spawn_if_needed] with its local [furthest]; [None]
    when [fuel] iterations did not end it. *)
Fixpoint spawn_loop (fuel : nat) (furthest : Q) (g : t) : option t :=
  if Qltb furthest (spawn_horizon g) then
    match fuel with
    | O => None
    | S k =>
      let (d, r1) := Random.randint MIN_SPAWN_DIST MAX_SPAWN_DIST (rng g) in
      let x := furthest + inject_Z d in
      (* probabilities, potions rarer, affected by difficulty param *)
      let (typ, r2) :=
        Random.choices3 TBox TEnemy TPotion
          0.60 0.35 (clamp (potion_weight g) 0.02 0.15) r1 in
      spawn_loop k x (append_new typ x (set_rng r2 g))
    end
  else Some g.

(** Iterations granted to the loop: every iteration moves [furthest] at
    least one unit closer to the horizon. *)
Definition spawn_fuel (g : t) : nat :=
  Z.to_nat (Qceiling (spawn_horizon g - furthest g)).

Definition spawn_if_needed (g : t) : option t :=
  spawn_loop (spawn_fuel g) (furthest g) g.

Section Simulation.
Variable A : Assets.
Variable G : Pygame.

(** One turn of [for e in list(self.entities)] in the collision block:
    the player, the active set and the sounds played in the pass. *)
Definition collide (p_rect : Rect G) (cam : Q)
    (st : Player.t * list Obj * list Sfx) (e : Obj)
  : Player.t * list Obj * list Sfx :=
  let '(p, ents, snd) := st in
  if colliderect G p_rect (entity_rect G (ent e) cam) then
    match ent e with
    | EEnemy _ =>
      let s0 := if (Player.health p =? 1)%Z
                then play (enemy_attack_sfx A) SfxEnemyAttack else [] in
      let (p', s1) := Player.take_damage A 1 p in
      (p', list_remove e ents, snd ++ s0 ++ s1)
    | EBox _ =>
      (* box does not damage and does not disappear on touch *)
      st
    | EPotion _ =>
      let (p', s1) := Player.heal A 1 p in
      (p', list_remove e ents, snd ++ s1)
    end
  else st.

(** The collision block of [update]. *)
Definition collisions (g : t) : t :=
  let p_rect := player_rect G (player g) (camera_x g) in
  let '(p, ents, snd) :=
    fold_left (collide p_rect (camera_x g)) (entities g)
              (player g, entities g, []) in
  set_played (played g ++ snd) (set_entities ents (set_player p g)).

(** One turn of the loop that removes passed entities. *)
Definition cull (px : Q) (st : Z * list Obj) (e : Obj) : Z * list Obj :=
  let (sc, ents) := st in
  if Qltb (obj_world_x e) (px - 220) then
    (* grant score if player passed *)
    ((if Qgtb px (obj_world_x e) then sc + 1 else sc)%Z, list_remove e ents)
  else st.

(** The block [# remove passed entities (score)] of [update]. *)
Definition remove_passed (g : t) : t :=
  let (sc, ents) :=
    fold_left (cull (Player.world_x (player g))) (entities g)
              (score g, entities g) in
  set_entities ents (set_score sc g).

(** The block [# speed increase by score] of [update]. *)
Definition speed_increase (g : t) : t :=
  let milestone := (score g / SCORE_STEP)%Z in
  if (milestone >? last_milestone g)%Z then
    let g1 := set_last_milestone milestone g in
    let g2 := set_speed (speed g1 + SPEED_INCREASE_STEP) g1 in
    if Qgtb (speed g2) 18 then set_speed 18 g2 else g2
  else g.

(** The first blocks of [update]: the player, the camera, the entities. *)
Definition advance (dt : Q) (g : t) : t :=
  (* update player *)
  let g1 := set_player (Player.update A dt (speed g) (player g)) g in
  (* camera follow: keep player at 35% screen *)
  let g2 := set_camera_x (Player.world_x (player g1) - WIDTH * 0.35) g1 in
  (* update entities *)
  set_entities
    (map (fun o => mkObj (oid o) (entity_update A dt (ent o))) (entities g2)) g2.

(** [Game.update(dt)] *)
Definition update (dt : Q) (g : t) : option t :=
  if negb (Player.alive (player g)) then Some g
  else spawn_if_needed
         (speed_increase (remove_passed (collisions (advance dt g)))).

(** [App.run] on a key press of the jump keys while playing. *)
Definition on_jump_pressed (g : t) : t :=
  if Player.alive (player g) then
    let (p, snd) := Player.jump A (player g) in
    set_played (played g ++ snd) (set_player p g)
  else g.

(** What one turn of the main loop feeds the session: a jump key, or the
    frame update with the elapsed milliseconds. *)
Inductive Input := KeyJump | Tick (dt : Q).

Definition step (i : Input) (g : t) : option t :=
  match i with
  | KeyJump => Some (on_jump_pressed g)
  | Tick dt => update dt g
  end.

(** A session from a given state: the inputs of successive turns. *)
Fixpoint run (inputs : list Input) (g : t) : option t :=
  match inputs with
  | [] => Some g
  | i :: rest =>
    match step i g with
    | Some g' => run rest g'
    | None => None
    end
  end.

End Simulation.

End Game.

(** ** A pygame instance: integer rectangles of the scaled sprites *)

(** [int(x)] of a float: truncation towards zero. *)
Definition py_int (x : Q) : Z :=
  if Qltb x 0 then Qceiling x else Qfloor x.

(** [(left, top, width, height)] *)
Definition IRect : Type := Z * Z * Z * Z.

(** [surface.get_rect(midbottom=(x, y))] for a surface of the given size.
    pygame makes the coordinates integers; the instance is used at whole
    coordinates only, where truncating and rounding agree. *)
Definition get_rect_midbottom (size : Z * Z) (x y : Q) : IRect :=
  let (w, h) := size in
  ((py_int x - w / 2)%Z, (py_int y - h)%Z, w, h).

Definition irect_collide (a b : IRect) : bool :=
  let '(ax, ay, aw, ah) := a in
  let '(bx, by_, bw, bh) := b in
  ((ax <? bx + bw) && (ay <? by_ + bh) && (bx <? ax + aw) && (by_ <? ay + ah))%Z.

Definition world_to_screen_x (world_x camera_x : Q) : Q := world_x - camera_x.

Definition pygame_sprites : Pygame :=
  mkPygame IRect
    (fun p cam =>
       get_rect_midbottom PLAYER_SIZE
         (world_to_screen_x (Player.world_x p) cam) (Player.y p))
    (fun e cam =>
       match e with
       | EBox x => get_rect_midbottom BOX_SIZE (world_to_screen_x x cam) GROUND_Y
       | EEnemy en =>
         get_rect_midbottom ENEMY_SIZE
           (world_to_screen_x (Enemy.world_x en) cam) GROUND_Y
       | EPotion x =>
         get_rect_midbottom POTION_SIZE (world_to_screen_x x cam) (GROUND_Y - 10)
       end)
    irect_collide.

(** ** Main App that orchestrates menu, settings, game *)

(** [settings.get("volume", DEFAULT_SETTINGS["volume"])] *)
Definition get_volume (s : Settings) : Q :=
  match volume s with Some v => v | None => 0.6 end.

(** [rect.collidepoint(x, y)]: the right and bottom edges are outside. *)
Definition collidepoint (r : IRect) (x y : Z) : bool :=
  let '(rx, ry, rw, rh) := r in
  ((rx <=? x) && (x <? rx + rw) && (ry <=? y) && (y <? ry + rh))%Z.

Module App.

(** The strings ["menu"], ["settings"] and ["playing"]. *)
Inductive Screen := Menu | SettingsScreen | Playing.

Inductive Key := K_SPACE | K_w | K_UP | K_r | K_ESCAPE | K_other.

(** The events [run] tells apart; any other event is [OTHER]. *)
Inductive Event :=
| QUIT
| MOUSEMOTION (mx my : Z)
| MOUSEBUTTONDOWN (button mx my : Z)
| KEYDOWN (key : Key)
| OTHER.

(** [pygame.mouse.get_pos()] and [pygame.mouse.get_pressed()[0]] *)
Record Mouse := mkMouse { mouse_x : Z; mouse_y : Z; mouse_left : bool }.

Record t := mk {
  state : Screen;
  game : option Game.t;
  high_score : Z;
  volume : Q;
  difficulty : string;
  (* [hovered] of the three buttons *)
  start_hovered : bool;
  settings_hovered : bool;
  quit_hovered : bool;
  (* module globals and the world outside *)
  settings : Settings;             (* the dict [settings] *)
  sound_volume : Q;                (* what [apply_volume_to_all] last got *)
  settings_file : list Settings;   (* every [save_json(SETTINGS_FILE, ..)], oldest first *)
  save_file : list Z;              (* every [save_json(SAVE_FILE, {"high_score": ..})] *)
  rng : Random.t                   (* the generator of [random] while no game runs *)
}.

Definition set_state (v : Screen) (a : t) : t :=
  mk v (game a) (high_score a) (volume a) (difficulty a) (start_hovered a)
     (settings_hovered a) (quit_hovered a) (settings a) (sound_volume a)
     (settings_file a) (save_file a) (rng a).
Definition set_game (v : option Game.t) (a : t) : t :=
  mk (state a) v (high_score a) (volume a) (difficulty a) (start_hovered a)
     (settings_hovered a) (quit_hovered a) (settings a) (sound_volume a)
     (settings_file a) (save_file a) (rng a).
Definition set_high_score (v : Z) (a : t) : t :=
  mk (state a) (game a) v (volume a) (difficulty a) (start_hovered a)
     (settings_hovered a) (quit_hovered a) (settings a) (sound_volume a)
     (settings_file a) (save_file a) (rng a).
Definition set_volume (v : Q) (a : t) : t :=
  mk (state a) (game a) (high_score a) v (difficulty a) (start_hovered a)
     (settings_hovered a) (quit_hovered a) (settings a) (sound_volume a)
     (settings_file a) (save_file a) (rng a).
Definition set_difficulty (v : string) (a : t) : t :=
  mk (state a) (game a) (high_score a) (volume a) v (start_hovered a)
     (settings_hovered a) (quit_hovered a) (settings a) (sound_volume a)
     (settings_file a) (save_file a) (rng a).
Definition set_hovered (v1 v2 v3 : bool) (a : t) : t :=
  mk (state a) (game a) (high_score a) (volume a) (difficulty a) v1 v2 v3
     (settings a) (sound_volume a) (settings_file a) (save_file a) (rng a).
Definition set_settings (v : Settings) (a : t) : t :=
  mk (state a) (game a) (high_score a) (volume a) (difficulty a) (start_hovered a)
     (settings_hovered a) (quit_hovered a) v (sound_volume a)
     (settings_file a) (save_file a) (rng a).
Definition set_sound_volume (v : Q) (a : t) : t :=
  mk (state a) (game a) (high_score a) (volume a) (difficulty a) (start_hovered a)
     (settings_hovered a) (quit_hovered a) (settings a) v
     (settings_file a) (save_file a) (rng a).
Definition set_settings_file (v : list Settings) (a : t) : t :=
  mk (state a) (game a) (high_score a) (volume a) (difficulty a) (start_hovered a)
     (settings_hovered a) (quit_hovered a) (settings a) (sound_volume a)
     v (save_file a) (rng a).
Definition set_save_file (v : list Z) (a : t) : t :=
  mk (state a) (game a) (high_score a) (volume a) (difficulty a) (start_hovered a)
     (settings_hovered a) (quit_hovered a) (settings a) (sound_volume a)
     (settings_file a) v (rng a).
Definition set_rng (v : Random.t) (a : t) : t :=
  mk (state a) (game a) (high_score a) (volume a) (difficulty a) (start_hovered a)
     (settings_hovered a) (quit_hovered a) (settings a) (sound_volume a)
     (settings_file a) (save_file a) v.

(** The rectangles of the three menu buttons: [btn_w, btn_h = 300, 64],
    [cx = WIDTH//2 - btn_w//2]. *)
Definition btn_rect (top : Z) : IRect := ((960 / 2 - 300 / 2)%Z, top, 300%Z, 64%Z).
Definition btn_start : IRect := btn_rect 220.
Definition btn_settings : IRect := btn_rect 300.
Definition btn_quit : IRect := btn_rect 380.

(** The rectangles of the settings screen. *)
Definition slider_rect : IRect := (320, 150, 420, 36)%Z.
Definition diff_rect (bx : Z) : IRect := (bx, 240, 140, 42)%Z.
Definition back_rect : IRect := ((960 / 2 - 72)%Z, (540 - 100)%Z, 144%Z, 44%Z).

(** [App.__init__], with what [load_json] returned for the two files and
    the generator as it stands: [save_high] is the high score of the save
    file when it has one. *)
Definition init (s : Settings) (save_high : option Z) (r : Random.t) : t :=
  mk Menu None (match save_high with Some h => h | None => 0%Z end)
     (get_volume s) (get_difficulty s) false false false
     s (get_volume s) [] [] r.

(** The generator of [random]: the running game threads it. *)
Definition generator (a : t) : Random.t :=
  match game a with Some g => Game.rng g | None => rng a end.

(** The dict [settings] once [volume] and [difficulty] are written to it. *)
Definition current_settings (a : t) : Settings :=
  mkSettings (Some (volume a)) (Some (difficulty a)).

(** [App.start_game()] *)
Definition start_game (a : t) : t :=
  (* apply settings to sound volume *)
  let a1 := set_settings (current_settings a) a in
  let a2 := set_sound_volume (volume a1) a1 in
  let a3 := set_settings_file (settings_file a2 ++ [settings a2]) a2 in
  (* create Game instance *)
  let g := Game.init (settings a3) (generator a3) in
  (* sync speed base to difficulty modifier immediate *)
  let g := Game.set_speed (Game.base_speed g) g in
  set_state Playing (set_game (Some g) a3).

(** The block [if self.game.score > self.high_score: ...], shared by
    [end_game] and [update_game]. *)
Definition record_high_score (g : Game.t) (a : t) : t :=
  if (Game.score g >? high_score a)%Z then
    let a1 := set_high_score (Game.score g) a in
    set_save_file (save_file a1 ++ [high_score a1]) a1
  else a.

(** [App.end_game()] *)
Definition end_game (a : t) : t :=
  (* when leaving game (back to menu) update high score *)
  let a1 := match game a with
            | Some g => record_high_score g a
            | None => a
            end in
  set_state Menu (set_game None (set_rng (generator a1) a1)).

(** [App.save_settings_and_back()] *)
Definition save_settings_and_back (a : t) : t :=
  let a1 := set_settings (current_settings a) a in
  let a2 := set_settings_file (settings_file a1 ++ [settings a1]) a1 in
  let a3 := set_sound_volume (volume a2) a2 in
  set_state Menu a3.

(** The interactions at the end of [App.draw_settings()]; the drawing
    itself changes nothing. *)
Definition draw_settings (m : Mouse) (a : t) : t :=
  let mx := mouse_x m in
  let my := mouse_y m in
  (* if clicked on slider area adjust volume *)
  let a1 :=
    if mouse_left m && collidepoint slider_rect mx my then
      let rel := clamp (inject_Z (mx - 320) / inject_Z 420) 0 1 in
      let a' := set_volume rel a in
      set_sound_volume (volume a') a'
    else a in
  (* check difficulty clicks *)
  let a2 :=
    fold_left
      (fun acc (d : string * Z) =>
         if mouse_left m && collidepoint (diff_rect (snd d)) mx my
         then set_difficulty (fst d) acc else acc)
      [("Easy"%string, 320%Z); ("Normal"%string, 480%Z); ("Hard"%string, 640%Z)]
      a1 in
  (* check back click *)
  if mouse_left m && collidepoint back_rect mx my
  then save_settings_and_back a2 else a2.

Section Loop.

Variable A : Assets.
Variable G : Pygame.

(** [App.update_game(dt)] *)
Definition update_game (dt : Q) (a : t) : option t :=
  match game a with
  | None => Some (set_state Menu a)
  | Some g =>
    match Game.update A G dt g with
    | None => None
    | Some g' =>
      let a1 := set_game (Some g') a in
      (* when game over update high score *)
      Some (if negb (Player.alive (Game.player g')) then record_high_score g' a1
            else a1)
    end
  end.

(** One event of the [for ev in pygame.event.get()] loop of [run], on the
    local [running] and the app. *)
Definition on_event (ev : Event) (st : bool * t) : bool * t :=
  let (running, a) := st in
  match ev with
  | QUIT => (false, a)
  | MOUSEMOTION mx my =>
    (running, set_hovered (collidepoint btn_start mx my)
                          (collidepoint btn_settings mx my)
                          (collidepoint btn_quit mx my) a)
  | MOUSEBUTTONDOWN button mx my =>
    if (button =? 1)%Z then
      match state a with
      | Menu =>
        if collidepoint btn_start mx my then (running, start_game a)
        else if collidepoint btn_settings mx my then (running, set_state SettingsScreen a)
        else if collidepoint btn_quit mx my then (false, a)
        else (running, a)
      | SettingsScreen => (running, a)
      | Playing => (running, a)
      end
    else (running, a)
  | KEYDOWN key =>
    match state a with
    | Playing =>
      match key with
      | K_SPACE | K_w | K_UP =>
        match game a with
        | Some g => (running, set_game (Some (Game.on_jump_pressed A g)) a)
        | None => (running, a)
        end
      | K_r => (running, start_game a)        (* restart *)
      | K_ESCAPE => (running, end_game a)     (* quit to menu *)
      | K_other => (running, a)
      end
    | SettingsScreen =>
      match key with
      | K_ESCAPE => (running, save_settings_and_back a)
      | _ => (running, a)
      end
    | Menu => (running, a)
    end
  | OTHER => (running, a)
  end.

(** What one turn of the [while running] loop reads: the milliseconds of
    [clock.tick(FPS)], the pending events, and the mouse as the settings
    screen polls it. *)
Record Frame := mkFrame { dt : Z; events : list Event; mouse : Mouse }.

(** One turn of the loop: the events, then update and draw per state. *)
Definition turn (f : Frame) (a : t) : option (bool * t) :=
  let (running, a1) := fold_left (fun st ev => on_event ev st) (events f) (true, a) in
  match state a1 with
  | Menu => Some (running, a1)
  | SettingsScreen => Some (running, draw_settings (mouse f) a1)
  | Playing =>
    match update_game (inject_Z (dt f)) a1 with
    | Some a2 => Some (running, a2)
    | None => None
    end
  end.

(** [# exit save settings and high score] *)
Definition exit_save (a : t) : t :=
  let a1 := set_settings_file (settings_file a ++ [current_settings a]) a in
  set_save_file (save_file a1 ++ [high_score a1]) a1.

(** [App.run()] on the turns the frames give.  The result says whether the
    loop was left (and the files saved) or the frames ran out first. *)
Fixpoint run (frames : list Frame) (a : t) : option (bool * t) :=
  match frames with
  | [] => Some (true, a)
  | f :: rest =>
    match turn f a with
    | None => None
    | Some (true, a') => run rest a'
    | Some (false, a') => Some (false, exit_save a')
    end
  end.

End Loop.

End App.

(** ** Vocabulary of the specification *)

(** Health stays in range, and the player is alive exactly while some
    health is left. *)
Definition health_ok (p : Player.t) : Prop :=
  (0 <= Player.health p <= PLAYER_MAX_HEALTH)%Z /\
  (Player.alive p = true <-> (0 < Player.health p)%Z).

(** The calls the program makes on its player; damage and healing are
    always called with the default amount. *)
Inductive PlayerCall :=
| CallJump
| CallTakeDamage
| CallHeal
| CallUpdate (dt game_speed : Q).

Definition player_call (A : Assets) (c : PlayerCall) (p : Player.t)
  : Player.t * list Sfx :=
  match c with
  | CallJump => Player.jump A p
  | CallTakeDamage => Player.take_damage A 1 p
  | CallHeal => Player.heal A 1 p
  | CallUpdate dt s => (Player.update A dt s p, [])
  end.

Fixpoint player_calls (A : Assets) (cs : list PlayerCall) (p : Player.t)
  : Player.t * list Sfx :=
  match cs with
  | [] => (p, [])
  | c :: rest =>
    let (p1, s1) := player_call A c p in
    let (p2, s2) := player_calls A rest p1 in
    (p2, s1 ++ s2)
  end.

(** [n] calls of [take_damage()] in a row. *)
Definition take_damage_n (A : Assets) (n : nat) (p : Player.t)
  : Player.t * list Sfx :=
  player_calls A (repeat CallTakeDamage n) p.

(** The objects of [l] whose identity is not among [ids]. *)
Definition remove_ids (ids : list nat) (l : list Obj) : list Obj :=
  filter (fun o => negb (existsb (Nat.eqb (oid o)) ids)) l.

(** Every object of the active set has an identity of its own, handed out
    before [next_id]. *)
Definition ids_ok (g : Game.t) : Prop :=
  NoDup (map oid (Game.entities g)) /\
  Forall (fun i => (i < Game.next_id g)%nat) (map oid (Game.entities g)).

(** The states a session passes through: a new game, then any inputs. *)
Definition reachable (A : Assets) (G : Pygame) (g : Game.t) : Prop :=
  exists s r inputs, Game.run A G inputs (Game.init s r) = Some g.

(** An entity the cull pass removes: more than 220 behind the player. *)
Definition behind (px : Q) (o : Obj) : bool := Qltb (obj_world_x o) (px - 220).

(** The player has passed the entity. *)
Definition passed (px : Q) (o : Obj) : bool := Qgtb px (obj_world_x o).

(** An entity the collision pass removes: an enemy or a potion whose
    rectangle meets the player's. *)
Definition touched (G : Pygame) (p_rect : Rect G) (cam : Q) (o : Obj) : bool :=
  colliderect G p_rect (entity_rect G (ent o) cam)
  && match ent o with EBox _ => false | _ => true end.

(** What a constructor called with [x] returns: a box or a potion at [x],
    or an enemy that patrols around [x] at a speed drawn between 1.5 and
    2.5. *)
Definition fresh_entity (x : Q) (e : Entity) : Prop :=
  e = EBox x \/ e = EPotion x \/
  exists s, 1.5 <= s <= 2.5 /\ e = EEnemy (Enemy.init x s).

(** Entities spawned one after the other from [f]: each one between
    [MIN_SPAWN_DIST] and [MAX_SPAWN_DIST] beyond the one before, and each
    spawned because the one before was short of the [horizon]. *)
Fixpoint spawn_chain (horizon f : Q) (news : list Obj) : Prop :=
  match news with
  | [] => True
  | o :: rest =>
    f < horizon /\
    (exists d : Z, (MIN_SPAWN_DIST <= d <= MAX_SPAWN_DIST)%Z /\
                   obj_world_x o = f + inject_Z d /\
                   fresh_entity (f + inject_Z d) (ent o)) /\
    spawn_chain horizon (obj_world_x o) rest
  end.

(** Successive enemy updates, one per elapsed time. *)
Definition enemy_run (A : Assets) (dts : list Q) (e : Enemy.t) : Enemy.t :=
  fold_left (fun e dt => Enemy.update A dt e) dts e.

(** The player after the silent final death. *)
Definition silent_death (p : Player.t) : Player.t :=
  Player.set_frame 0
    (Player.set_state Dead (Player.set_alive false (Player.set_health 0 p))).

(** What spawning leaves alone: everything but the active set, the
    generator and the identity counter. *)
Definition same_session (g g' : Game.t) : Prop :=
  Game.player g' = Game.player g /\
  Game.camera_x g' = Game.camera_x g /\
  Game.settings g' = Game.settings g /\
  Game.base_speed g' = Game.base_speed g /\
  Game.speed g' = Game.speed g /\
  Game.score g' = Game.score g /\
  Game.last_milestone g' = Game.last_milestone g /\
  Game.potion_weight g' = Game.potion_weight g /\
  Game.played g' = Game.played g.

(** Where a chain of spawned entities ends: at the last one, or at its
    start when nothing was spawned. *)
Definition chain_end (f : Q) (news : list Obj) : Q :=
  fold_left (fun _ o => obj_world_x o) news f.

(** What holds of every state of a session. *)
Definition session_inv (g : Game.t) : Prop :=
  ids_ok g /\
  health_ok (Game.player g) /\
  ~ In SfxDeath (Game.played g) /\
  (0 <= Game.score g)%Z /\
  Game.speed g <= 18 /\
  Game.spawn_horizon g <= Game.furthest g.

(** Entities seeded one after the other from [x]: each one at the running
    [x], which then grows by a draw between 300 and 500. *)
Fixpoint seed_chain (x : Z) (news : list Obj) : Prop :=
  match news with
  | [] => True
  | o :: rest =>
    obj_world_x o = inject_Z x /\
    fresh_entity (inject_Z x) (ent o) /\
    exists d : Z, (300 <= d <= 500)%Z /\ seed_chain (x + d) rest
  end.

(** What the cull pass adds to the score for the entities it removes: one
    for each entity the player has passed, nothing for the others. *)
Definition score_gain (px : Q) (culled : list Obj) : Z :=
  fold_right (fun o acc => ((if passed px o then 1 else 0) + acc)%Z) 0%Z culled.

(** An enemy on patrol around [x] at speed [spd]. *)
Definition patrol_ok (x spd : Q) (e : Enemy.t) : Prop :=
  Enemy.left e = x - 120 /\
  Enemy.right e = x + 120 /\
  Enemy.speed e = spd /\
  Enemy.left e <= Enemy.world_x e <= Enemy.right e /\
  (Enemy.dir e = 1 \/ Enemy.dir e = -1)%Z.

(** An entity that, if it is an enemy, is on patrol around some point. *)
Definition on_patrol (e : Entity) : Prop :=
  match e with
  | EEnemy en => exists x spd, patrol_ok x spd en
  | _ => True
  end.

(** [n] frames of [Player.update], each with the elapsed time [dt] and
    the session speed [s]. *)
Fixpoint player_frames (A : Assets) (n : nat) (dt s : Q) (p : Player.t) : Player.t :=
  match n with
  | O => p
  | S k => player_frames A k dt s (Player.update A dt s p)
  end.

(** The player's [frame] is an index of [run_frames], [image] is a surface
    that exists, and a player who is still idle stands still on the
    ground. *)
Definition player_sprite_ok (A : Assets) (p : Player.t) : Prop :=
  (0 <= Player.frame p < or_fallback (player_run_frames A))%Z /\
  match Player.image p with
  | SprRun i => (0 <= i < or_fallback (player_run_frames A))%Z
  | SprIdle i => i = 0%Z
  | SprJump | SprDead => True
  | _ => False
  end /\
  (Player.state p = Idle -> Player.y p = GROUND_Y /\ Player.vel_y p = 0).

(** The state [Dead] and the flag [alive] agree. *)
Definition dead_ok (p : Player.t) : Prop :=
  Player.state p = Dead <-> Player.alive p = false.

(** An enemy's [frame] is an index of its frame list and [image] is the
    frame of that index. *)
Definition enemy_sprite_ok (A : Assets) (e : Entity) : Prop :=
  match e with
  | EEnemy en =>
    (0 <= Enemy.frame en < or_fallback (enemy_run_frames A))%Z /\
    Enemy.image en = SprEnemy (Enemy.frame en)
  | _ => True
  end.

(** The enemies, and the potions, of [l] that meet the player's
    rectangle. *)
Definition touched_enemies (G : Pygame) (p_rect : Rect G) (cam : Q) (l : list Obj)
  : list Obj :=
  filter (fun o => touched G p_rect cam o && is_enemy (ent o)) l.

Definition touched_potions (G : Pygame) (p_rect : Rect G) (cam : Q) (l : list Obj)
  : list Obj :=
  filter (fun o => touched G p_rect cam o
                   && match ent o with EPotion _ => true | _ => false end) l.

(** A session before its first frame with the player alive: no milestone
    recorded, nothing scored, the speed the base speed. *)
Definition fresh_session (g : Game.t) : Prop :=
  Game.last_milestone g = (-1)%Z /\ Game.score g = 0%Z /\
  Game.speed g = Game.base_speed g.

(** The recorded milestone is the one of the score, and the speed is the
    base speed plus at least one step and at most one step for each
    milestone from 0 to the recorded one. *)
Definition milestone_ok (g : Game.t) : Prop :=
  Game.last_milestone g = (Game.score g / SCORE_STEP)%Z /\
  Game.base_speed g + SPEED_INCREASE_STEP <= Game.speed g /\
  Game.speed g
  <= Game.base_speed g + SPEED_INCREASE_STEP * inject_Z (Game.last_milestone g + 1).

(** What the milestone bookkeeping keeps of every state of a session. *)
Definition milestone_inv (g : Game.t) : Prop :=
  (0 <= Game.score g)%Z /\ Game.base_speed g <= 5 /\
  (fresh_session g \/ milestone_ok g).

(** What holds of the app between the events and turns of its loop: the
    sounds play at the volume of the settings screen; a game is held
    exactly on the playing screen, it is a state of a session, and once
    its player is dead its score is within the high score. *)
Definition app_ok (A : Assets) (G : Pygame) (a : App.t) : Prop :=
  App.sound_volume a = App.volume a /\
  match App.game a with
  | Some g =>
    App.state a = App.Playing /\ reachable A G g /\
    (Player.alive (Game.player g) = false -> (Game.score g <= App.high_score a)%Z)
  | None => App.state a <> App.Playing
  end.

(** The save file agrees with the high score: either nothing was written
    and the high score is still the loaded one [h0], or the last write is
    the high score; and nothing written is below [h0] or above it. *)
Definition save_file_ok (h0 : Z) (a : App.t) : Prop :=
  (h0 <= App.high_score a)%Z /\
  (App.save_file a = [] /\ App.high_score a = h0 \/
   exists l, App.save_file a = l ++ [App.high_score a]) /\
  Forall (fun v => (h0 <= v <= App.high_score a)%Z) (App.save_file a).

(** What the events and turns of the app keep: [app_ok], the agreement of
    the save file, and a high score that does not go down. *)
Definition app_keeps (A : Assets) (G : Pygame) (h0 : Z) (a a' : App.t) : Prop :=
  app_ok A G a' /\ save_file_ok h0 a' /\ (App.high_score a <= App.high_score a')%Z.


(** The point an entity was created at: its position for a box or a
    potion, the middle of the patrol for an enemy. *)
Definition anchor (e : Entity) : Q :=
  match e with
  | EBox x => x
  | EEnemy en => Enemy.left en + 120
  | EPotion x => x
  end.

(** Entities in the order of their creation points, each at least 300
    beyond all the ones before. *)
Fixpoint spaced (l : list Obj) : Prop :=
  match l with
  | [] => True
  | o :: rest =>
    Forall (fun o' => anchor (ent o) + 300 <= anchor (ent o')) rest /\ spaced rest
  end.

(** The active set is spaced and holds at most 9 entities. *)
Definition crowd_ok (g : Game.t) : Prop :=
  spaced (Game.entities g) /\ (List.length (Game.entities g) <= 9)%nat.

(** The speed as the milestones recorded so far give it: the base speed
    plus one step for each milestone from 0 to the recorded one, or 18
    where that sum reaches 18. *)
Definition ramp_ok (g : Game.t) : Prop :=
  let full := Game.base_speed g
              + SPEED_INCREASE_STEP * inject_Z (Game.last_milestone g + 1) in
  (full <= 18 -> Game.speed g == full) /\
  (18 <= full -> Game.speed g == 18).

(** A generator whose raw integers are all zero, whatever its position. *)
Definition zero_source (r : Random.t) : Prop :=
  forall n, Random.source r n = 0%Z.

(** What the spawner adds when every draw is the least one: boxes 600
    apart from [f] on, as long as the running position is short of [h]. *)
Fixpoint zero_chain (h f : Q) (news : list Obj) : Prop :=
  match news with
  | [] => h <= f
  | o :: rest =>
    f < h /\ ent o = EBox (f + inject_Z 600) /\
    zero_chain h (f + inject_Z 600) rest
  end.

(** [n] frames of 100 seconds each. *)
Definition long_frames (n : nat) : list Game.Input := repeat (Game.Tick 100000) n.

(** A session at the base speed of "Normal" whose generator only draws
    zeros and whose active set holds boxes only, none of them 2600 or more
    ahead of the living player. *)
Definition cruising (A : Assets) (G : Pygame) (g : Game.t) : Prop :=
  reachable A G g /\
  Player.alive (Game.player g) = true /\
  zero_source (Game.rng g) /\
  Forall (fun o => exists x, ent o = EBox x /\
                             x < Player.world_x (Game.player g) + 2600)
         (Game.entities g) /\
  Game.base_speed g == 4.

(** ** Sample inputs *)

(** Every asset loaded. *)
Definition all_assets : Assets := mkAssets 6 4 4 true true true true true.

(** A generator whose raw integers are all zero. *)
Definition zero_rng : Random.t := Random.mk (fun _ => 0%Z) 0.

Definition DEFAULT_SETTINGS : Settings :=
  mkSettings (Some 0.6) (Some "Normal"%string).

Definition new_game : Game.t := Game.init DEFAULT_SETTINGS zero_rng.



(** A game at the speed cap, one point short of score 280, with the
    player past the first seeded entity. *)
Definition capped_game : Game.t :=
  Game.set_player (Player.set_world_x 1000 (Game.player new_game))
    (Game.set_speed 18
       (Game.set_last_milestone 27 (Game.set_score 279 new_game))).

(** A player at the top of a jump, 170 above the ground. *)
Definition airborne_player : Player.t :=
  Player.mk 100 300 0 Jump 0 0 true 3 SprJump.



(** The app on the playing screen with a game one point short of score
    280, and no high score yet. *)
Definition playing_app : App.t :=
  App.set_state App.Playing
    (App.set_game (Some capped_game) (App.init DEFAULT_SETTINGS None zero_rng)).

(** The left button held on the last pixel of the volume slider. *)
Definition slider_end : App.Mouse := App.mkMouse 739 160 true.

(** ** Boolean comparisons reflect the order of [Q] *)

Lemma Qltb_lt (a b : Q) : Qltb a b = true <-> a < b.
Proof.
  unfold Qltb. rewrite negb_true_iff, <- not_true_iff_false, Qle_bool_iff.
  split; [apply Qnot_le_lt | apply Qlt_not_le].
Qed.

Lemma Qltb_ge (a b : Q) : Qltb a b = false <-> b <= a.
Proof.
  unfold Qltb. rewrite negb_false_iff. apply Qle_bool_iff.
Qed.

Lemma Qgeb_ge (a b : Q) : Qgeb a b = true <-> b <= a.
Proof. apply Qle_bool_iff. Qed.

Lemma Qgeb_lt (a b : Q) : Qgeb a b = false <-> a < b.
Proof.
  unfold Qgeb. rewrite <- not_true_iff_false, Qle_bool_iff.
  split; [apply Qnot_le_lt | apply Qlt_not_le].
Qed.

Lemma Qgtb_gt (a b : Q) : Qgtb a b = true <-> b < a.
Proof. apply Qltb_lt. Qed.

Lemma Qgtb_le (a b : Q) : Qgtb a b = false <-> a <= b.
Proof. apply Qltb_ge. Qed.

(** Case analysis on a comparison, with the fact it decides. *)
Ltac case_Qltb a b :=
  let H := fresh "Hcmp" in
  destruct (Qltb a b) eqn:H;
  [apply Qltb_lt in H | apply Qltb_ge in H].

Ltac case_Qgeb a b :=
  let H := fresh "Hcmp" in
  destruct (Qgeb a b) eqn:H;
  [apply Qgeb_ge in H | apply Qgeb_lt in H].

(** ** Player: health and death *)

Section PlayerFacts.
Variable A : Assets.

Lemma take_damage_dead (amt : Z) (p : Player.t) :
  Player.alive p = false -> Player.take_damage A amt p = (p, []).
Proof. intros H. unfold Player.take_damage. now rewrite H. Qed.

Lemma heal_dead (amt : Z) (p : Player.t) :
  Player.alive p = false -> Player.heal A amt p = (p, []).
Proof. intros H. unfold Player.heal. now rewrite H. Qed.

Lemma jump_dead (p : Player.t) :
  Player.alive p = false -> Player.jump A p = (p, []).
Proof. intros H. unfold Player.jump. now rewrite H. Qed.

Lemma heal_le_max (amt : Z) (p : Player.t) :
  (Player.health p <= PLAYER_MAX_HEALTH)%Z ->
  (Player.health (fst (Player.heal A amt p)) <= PLAYER_MAX_HEALTH)%Z.
Proof.
  intros H. unfold Player.heal.
  destruct (Player.alive p); simpl; [apply Z.le_min_l | exact H].
Qed.

Lemma apply_gravity_keeps (dt : Q) (p : Player.t) :
  Player.alive (Player.apply_gravity dt p) = Player.alive p /\
  Player.health (Player.apply_gravity dt p) = Player.health p /\
  Player.world_x (Player.apply_gravity dt p) = Player.world_x p.
Proof.
  unfold Player.apply_gravity.
  destruct (Qgeb _ _); [destruct (PState_eqb _ _) |]; simpl; auto.
Qed.

Lemma update_animation_keeps (dt : Q) (p : Player.t) :
  Player.alive (Player.update_animation A dt p) = Player.alive p /\
  Player.health (Player.update_animation A dt p) = Player.health p /\
  Player.world_x (Player.update_animation A dt p) = Player.world_x p.
Proof.
  unfold Player.update_animation.
  destruct (Player.state p); simpl; auto;
    destruct (Qgeb _ _); simpl; auto.
Qed.

Lemma update_keeps (dt s : Q) (p : Player.t) :
  Player.alive (Player.update A dt s p) = Player.alive p /\
  Player.health (Player.update A dt s p) = Player.health p.
Proof.
  unfold Player.update. simpl.
  match goal with |- context [Player.update_animation A dt ?q] =>
    destruct (update_animation_keeps dt q) as (Ha & Hh & _); rewrite Ha, Hh
  end.
  destruct (apply_gravity_keeps dt p) as (Ha' & Hh' & _).
  destruct (_ && _); simpl; rewrite ?Ha', ?Hh'; auto.
Qed.

Lemma update_world_x (dt s : Q) (p : Player.t) :
  Player.world_x (Player.update A dt s p)
  = Player.world_x p + s * (dt / REF_FRAME_MS).
Proof.
  unfold Player.update. simpl.
  match goal with |- context [Player.update_animation A dt ?q] =>
    destruct (update_animation_keeps dt q) as (_ & _ & Hx); rewrite Hx
  end.
  destruct (apply_gravity_keeps dt p) as (_ & _ & Hx').
  destruct (_ && _); simpl; rewrite ?Hx'; auto.
Qed.

Lemma take_damage_health_ok (p : Player.t) :
  health_ok p -> health_ok (fst (Player.take_damage A 1 p)).
Proof.
  unfold health_ok, PLAYER_MAX_HEALTH, Player.take_damage, Player.die.
  intros [Hr Ha].
  destruct (Player.alive p) eqn:Hal; simpl; [| rewrite Hal; auto].
  destruct (Player.health p =? 1)%Z eqn:H1; simpl.
  - split; [lia | split; [discriminate | lia]].
  - apply Z.eqb_neq in H1. assert (0 < Player.health p)%Z by (apply Ha; auto).
    destruct (Player.health p - 1 <=? 0)%Z eqn:H0; simpl.
    + apply Z.leb_le in H0. exfalso. lia.
    + apply Z.leb_gt in H0. rewrite Hal. split; [lia | tauto].
Qed.

Lemma heal_health_ok (p : Player.t) :
  health_ok p -> health_ok (fst (Player.heal A 1 p)).
Proof.
  unfold health_ok, Player.heal, PLAYER_MAX_HEALTH.
  intros [Hr Ha].
  destruct (Player.alive p) eqn:Hal; cbn [fst negb]; [| rewrite Hal; auto].
  assert (0 < Player.health p)%Z by (apply Ha; auto).
  cbn [Player.set_health Player.health Player.alive].
  rewrite Hal. split; [lia | split; [lia | auto]].
Qed.

Lemma jump_keeps (p : Player.t) :
  Player.alive (fst (Player.jump A p)) = Player.alive p /\
  Player.health (fst (Player.jump A p)) = Player.health p.
Proof.
  unfold Player.jump.
  destruct (Player.alive p) eqn:Ha; simpl; auto.
  destruct (Player.on_ground p); simpl; auto.
Qed.

Lemma player_call_health_ok (c : PlayerCall) (p : Player.t) :
  health_ok p -> health_ok (fst (player_call A c p)).
Proof.
  intros H. destruct c; cbn [player_call fst].
  - destruct (jump_keeps p) as [Ha Hh]. unfold health_ok. now rewrite Ha, Hh.
  - now apply take_damage_health_ok.
  - now apply heal_health_ok.
  - destruct (update_keeps dt game_speed p) as [Ha Hh].
    unfold health_ok. now rewrite Ha, Hh.
Qed.

Lemma player_calls_health_ok (cs : list PlayerCall) (p : Player.t) :
  health_ok p -> health_ok (fst (player_calls A cs p)).
Proof.
  revert p. induction cs as [| c cs IH]; intros p H; simpl; auto.
  pose proof (player_call_health_ok c p H) as Hc.
  destruct (player_call A c p) as [p1 s1]. simpl in Hc.
  specialize (IH p1 Hc). destruct (player_calls A cs p1); auto.
Qed.

Lemma init_health_ok (x : Q) : health_ok (Player.init x).
Proof.
  unfold health_ok, Player.init, PLAYER_MAX_HEALTH. simpl.
  split; [lia | split; [lia | auto]].
Qed.

Lemma player_call_dead (c : PlayerCall) (p : Player.t) :
  Player.alive p = false -> Player.alive (fst (player_call A c p)) = false.
Proof.
  intros H. destruct c; cbn [player_call fst].
  - now rewrite jump_dead.
  - now rewrite take_damage_dead.
  - now rewrite heal_dead.
  - destruct (update_keeps dt game_speed p) as [Ha _]. congruence.
Qed.

Lemma player_calls_dead (cs : list PlayerCall) (p : Player.t) :
  Player.alive p = false -> Player.alive (fst (player_calls A cs p)) = false.
Proof.
  revert p. induction cs as [| c cs IH]; intros p H; simpl; auto.
  pose proof (player_call_dead c p H) as Hc.
  destruct (player_call A c p) as [p1 s1]. simpl in Hc.
  specialize (IH p1 Hc). destruct (player_calls A cs p1); auto.
Qed.

Lemma take_damage_n_dead (n : nat) (p : Player.t) :
  Player.alive p = false -> take_damage_n A n p = (p, []).
Proof.
  unfold take_damage_n. induction n as [| n IH]; intros H; simpl; auto.
  rewrite take_damage_dead by exact H. now rewrite IH.
Qed.

Lemma take_damage_n_S (n : nat) (p : Player.t) :
  take_damage_n A (S n) p =
  (fst (take_damage_n A n (fst (Player.take_damage A 1 p))),
   snd (Player.take_damage A 1 p)
   ++ snd (take_damage_n A n (fst (Player.take_damage A 1 p)))).
Proof.
  unfold take_damage_n. simpl.
  destruct (Player.take_damage A 1 p) as [p1 s1]. simpl.
  now destruct (player_calls A (repeat CallTakeDamage n) p1).
Qed.

End PlayerFacts.

(** ** Lists of objects: removal by identity *)

Lemma filter_all {X : Type} (f : X -> bool) (l : list X) :
  (forall x, In x l -> f x = true) -> filter f l = l.
Proof.
  induction l as [| a l IH]; intros H; simpl; auto.
  rewrite (H a) by now left. f_equal. apply IH. intros x Hx. apply H. now right.
Qed.

Lemma list_remove_filter (e : Obj) (l : list Obj) :
  NoDup (map oid l) ->
  list_remove e l = filter (fun o => negb (Nat.eqb (oid o) (oid e))) l.
Proof.
  induction l as [| a l IH]; intros Hnd; simpl; auto.
  inversion Hnd as [| ? ? Hnotin Hnd']; subst.
  destruct (Nat.eqb (oid a) (oid e)) eqn:Heq; simpl.
  - apply Nat.eqb_eq in Heq. symmetry. apply filter_all.
    intros x Hx. apply negb_true_iff, Nat.eqb_neq. intros Hxe.
    apply Hnotin. rewrite Heq, <- Hxe. now apply in_map.
  - f_equal. now apply IH.
Qed.

Lemma list_remove_ids (e : Obj) (l : list Obj) :
  NoDup (map oid l) -> list_remove e l = remove_ids [oid e] l.
Proof.
  intros H. rewrite list_remove_filter by exact H. unfold remove_ids.
  apply filter_ext. intros o. simpl. now rewrite orb_false_r.
Qed.

Lemma NoDup_map_filter (f : Obj -> bool) (l : list Obj) :
  NoDup (map oid l) -> NoDup (map oid (filter f l)).
Proof.
  induction l as [| a l IH]; intros Hnd; simpl; auto.
  inversion Hnd as [| ? ? Hnotin Hnd']; subst.
  destruct (f a); simpl; auto.
  constructor; auto. intros Hin. apply Hnotin.
  apply in_map_iff in Hin as (x & Hx & Hxin).
  apply filter_In in Hxin as [Hxin _]. rewrite <- Hx. now apply in_map.
Qed.

Lemma remove_ids_app (ids1 ids2 : list nat) (l : list Obj) :
  remove_ids ids2 (remove_ids ids1 l) = remove_ids (ids1 ++ ids2) l.
Proof.
  unfold remove_ids. induction l as [| a l IH]; simpl; auto.
  rewrite existsb_app.
  destruct (existsb (Nat.eqb (oid a)) ids1) eqn:H1; simpl; auto.
  destruct (existsb (Nat.eqb (oid a)) ids2); simpl; now rewrite IH.
Qed.

Lemma remove_ids_nil (l : list Obj) : remove_ids [] l = l.
Proof. unfold remove_ids. apply filter_all. auto. Qed.

Lemma same_id_same_obj (l : list Obj) (a b : Obj) :
  NoDup (map oid l) -> In a l -> In b l -> oid a = oid b -> a = b.
Proof.
  induction l as [| x l IH]; intros Hnd Ha Hb Hab; [contradiction |].
  inversion Hnd as [| ? ? Hnotin Hnd']; subst.
  destruct Ha as [Ha | Ha], Hb as [Hb | Hb]; subst; auto.
  - exfalso. apply Hnotin. rewrite Hab. now apply in_map.
  - exfalso. apply Hnotin. rewrite <- Hab. now apply in_map.
Qed.

(** Removing the identities of the objects of [l] that satisfy [f] is
    filtering [l] by the negation of [f]. *)
Lemma remove_ids_of_filter (f : Obj -> bool) (l : list Obj) :
  NoDup (map oid l) ->
  remove_ids (map oid (filter f l)) l = filter (fun o => negb (f o)) l.
Proof.
  intros Hnd. unfold remove_ids. apply filter_ext_in. intros o Ho. f_equal.
  destruct (f o) eqn:Hf.
  - apply existsb_exists. exists (oid o). split; [| apply Nat.eqb_refl].
    apply in_map. apply filter_In. auto.
  - apply not_true_iff_false. intros Hex.
    apply existsb_exists in Hex as (i & Hi & Heq).
    apply Nat.eqb_eq in Heq. apply in_map_iff in Hi as (x & Hx & Hxin).
    apply filter_In in Hxin as [Hxin Hfx].
    assert (x = o) by (apply (same_id_same_obj l); auto; congruence).
    subst. congruence.
Qed.

(** ** Unit damage *)

Section UnitDamage.
Variable A : Assets.

Lemma take_damage_at_one (amt : Z) (p : Player.t) :
  Player.alive p = true -> Player.health p = 1%Z ->
  Player.take_damage A amt p = (silent_death p, []).
Proof.
  intros Ha Hh. unfold Player.take_damage. rewrite Ha, Hh. reflexivity.
Qed.

Lemma take_damage_above_one (p : Player.t) :
  Player.alive p = true -> (1 < Player.health p)%Z ->
  Player.take_damage A 1 p
  = (Player.set_health (Player.health p - 1) p, play (player_hit_sfx A) SfxHit).
Proof.
  intros Ha Hh. unfold Player.take_damage. rewrite Ha. simpl.
  destruct (Player.health p =? 1)%Z eqn:H1; [apply Z.eqb_eq in H1; lia |].
  destruct (Player.health p - 1 <=? 0)%Z eqn:H0; [apply Z.leb_le in H0; lia |].
  reflexivity.
Qed.

Lemma play_not_other (b : bool) (s s' : Sfx) : s <> s' -> ~ In s' (play b s).
Proof. intros Hne. destruct b; simpl; intuition. Qed.

(** With some health left, one point of damage never plays the death
    sound. *)
Lemma take_damage_unit_no_death (p : Player.t) :
  (Player.alive p = true -> (0 < Player.health p)%Z) ->
  ~ In SfxDeath (snd (Player.take_damage A 1 p)).
Proof.
  intros Hinv. destruct (Player.alive p) eqn:Ha.
  - specialize (Hinv eq_refl).
    destruct (Z.eq_dec (Player.health p) 1) as [H1 | H1].
    + rewrite take_damage_at_one by assumption. simpl. tauto.
    + rewrite take_damage_above_one by (auto; lia). simpl.
      apply play_not_other. discriminate.
  - rewrite take_damage_dead by assumption. simpl. tauto.
Qed.

Lemma heal_no_death (amt : Z) (p : Player.t) :
  ~ In SfxDeath (snd (Player.heal A amt p)).
Proof.
  unfold Player.heal. destruct (negb _); simpl; [tauto |].
  apply play_not_other. discriminate.
Qed.

Lemma jump_no_death (p : Player.t) : ~ In SfxDeath (snd (Player.jump A p)).
Proof.
  unfold Player.jump. destruct (negb _); simpl; [tauto |].
  destruct (Player.on_ground p); simpl; [| tauto].
  apply play_not_other. discriminate.
Qed.

(** The death sound needs two points of damage at once, on a player with
    two points of health at least. *)
Lemma take_damage_death_sound (amt : Z) (p : Player.t) :
  (Player.alive p = true -> (0 < Player.health p)%Z) ->
  In SfxDeath (snd (Player.take_damage A amt p)) ->
  (2 <= amt)%Z /\ (2 <= Player.health p)%Z /\ (Player.health p <= amt)%Z.
Proof.
  intros Hinv. unfold Player.take_damage, Player.die.
  destruct (Player.alive p) eqn:Ha; simpl; [| tauto].
  specialize (Hinv eq_refl).
  destruct (Player.health p =? 1)%Z eqn:H1; simpl; [tauto |].
  apply Z.eqb_neq in H1.
  destruct (Player.health p - amt <=? 0)%Z eqn:H0; simpl.
  - apply Z.leb_le in H0. intros _. lia.
  - intros Hin. exfalso. revert Hin. apply play_not_other. discriminate.
Qed.

Lemma take_damage_n_no_death (n : nat) (p : Player.t) :
  health_ok p -> ~ In SfxDeath (snd (take_damage_n A n p)).
Proof.
  revert p. induction n as [| n IH]; intros p Hok; [simpl; tauto |].
  rewrite take_damage_n_S. simpl. intros Hin. apply in_app_or in Hin as [Hin | Hin].
  - revert Hin. apply take_damage_unit_no_death. apply Hok.
  - revert Hin. apply IH. now apply take_damage_health_ok.
Qed.

End UnitDamage.

(** ** The collision pass *)

Section CollisionFacts.
Variable A : Assets.
Variable G : Pygame.
Variable p_rect : Rect G.
Variable cam : Q.

Lemma collide_entities (p : Player.t) (ents : list Obj) (snd0 : list Sfx) (e : Obj) :
  snd (fst (Game.collide A G p_rect cam (p, ents, snd0) e))
  = if touched G p_rect cam e then list_remove e ents else ents.
Proof.
  unfold Game.collide, touched.
  destruct (colliderect G p_rect _); simpl; auto.
  destruct (ent e); simpl; auto.
  - now destruct (Player.take_damage A 1 p).
  - now destruct (Player.heal A 1 p).
Qed.

Lemma collide_fold_entities (l : list Obj) :
  forall (p : Player.t) (ents : list Obj) (snd0 : list Sfx),
  NoDup (map oid ents) ->
  snd (fst (fold_left (Game.collide A G p_rect cam) l (p, ents, snd0)))
  = remove_ids (map oid (filter (touched G p_rect cam) l)) ents.
Proof.
  induction l as [| e l IH]; intros p ents snd0 Hnd; cbn [fold_left filter].
  - cbn [map]. now rewrite remove_ids_nil.
  - pose proof (collide_entities p ents snd0 e) as He.
    destruct (Game.collide A G p_rect cam (p, ents, snd0) e) as [[p1 ents1] snd1].
    cbn [fst snd] in He. subst ents1.
    destruct (touched G p_rect cam e); cbn [map].
    + rewrite list_remove_ids by exact Hnd.
      rewrite IH by (now apply NoDup_map_filter).
      apply remove_ids_app.
    + now apply IH.
Qed.

(** Health stays in range through the pass and no death sound is played
    in it. *)
Lemma collide_fold_player (l : list Obj) :
  forall (p : Player.t) (ents : list Obj) (snd0 : list Sfx),
  health_ok p -> ~ In SfxDeath snd0 ->
  let '(p', _, snd') := fold_left (Game.collide A G p_rect cam) l (p, ents, snd0) in
  health_ok p' /\ ~ In SfxDeath snd' /\ Player.world_x p' = Player.world_x p.
Proof.
  induction l as [| e l IH]; intros p ents snd0 Hok Hs; cbn [fold_left]; auto.
  assert (Hstep : let '(p1, _, snd1) := Game.collide A G p_rect cam (p, ents, snd0) e in
                  health_ok p1 /\ ~ In SfxDeath snd1 /\ Player.world_x p1 = Player.world_x p).
  { unfold Game.collide.
    destruct (colliderect G p_rect _); auto.
    destruct (ent e); auto.
    - pose proof (take_damage_health_ok A p Hok) as H1.
      pose proof (take_damage_unit_no_death A p) as H2.
      assert (Hx : Player.world_x (fst (Player.take_damage A 1 p)) = Player.world_x p).
      { unfold Player.take_damage, Player.die.
        destruct (negb _); auto. destruct (_ =? _)%Z; auto.
        simpl. destruct (_ <=? _)%Z; simpl; auto. }
      destruct (Player.take_damage A 1 p) as [p1 s1]. simpl in *.
      split; [exact H1 | split; [| exact Hx]].
      intros Hin. apply in_app_or in Hin as [Hin | Hin]; [tauto |].
      apply in_app_or in Hin as [Hin | Hin].
      + destruct (_ =? _)%Z; [| contradiction].
        revert Hin. apply play_not_other. discriminate.
      + apply H2; auto. intros Ha. now apply Hok.
    - pose proof (heal_health_ok A p Hok) as H1.
      pose proof (heal_no_death A 1 p) as H2.
      assert (Hx : Player.world_x (fst (Player.heal A 1 p)) = Player.world_x p).
      { unfold Player.heal. destruct (negb _); auto. }
      destruct (Player.heal A 1 p) as [p1 s1]. simpl in *.
      split; [exact H1 | split; [| exact Hx]].
      intros Hin. apply in_app_or in Hin as [Hin | Hin]; tauto. }
  destruct (Game.collide A G p_rect cam (p, ents, snd0) e) as [[p1 ents1] snd1].
  destruct Hstep as (H1 & H2 & H3).
  specialize (IH p1 ents1 snd1 H1 H2).
  destruct (fold_left _ l _) as [[p' ents'] snd'].
  rewrite <- H3. exact IH.
Qed.

End CollisionFacts.

(** ** The cull pass *)

Lemma behind_passed (px : Q) (o : Obj) : behind px o = true -> passed px o = true.
Proof.
  unfold behind, passed. rewrite Qltb_lt, Qgtb_gt. intros H. lra.
Qed.

Lemma cull_fold (px : Q) (l : list Obj) :
  forall (sc : Z) (ents : list Obj),
  NoDup (map oid ents) ->
  fold_left (Game.cull px) l (sc, ents)
  = ((sc + Z.of_nat (List.length (filter (fun o => behind px o && passed px o) l)))%Z,
     remove_ids (map oid (filter (behind px) l)) ents).
Proof.
  induction l as [| e l IH]; intros sc ents Hnd; cbn [fold_left filter].
  - cbn [map List.length]. now rewrite remove_ids_nil, Z.add_0_r.
  - unfold Game.cull at 2. fold (behind px e). fold (passed px e).
    destruct (behind px e) eqn:Hb; cbn [andb map].
    + rewrite list_remove_ids by exact Hnd.
      rewrite IH by (now apply NoDup_map_filter).
      rewrite remove_ids_app. cbn [app]. f_equal.
      destruct (passed px e); cbn [List.length]; lia.
    + now apply IH.
Qed.

(** ** The furthest entity *)

Lemma py_max_bounds (l : list Q) :
  forall x, x <= py_max x l /\ (forall v, In v l -> v <= py_max x l).
Proof.
  unfold py_max. induction l as [| a l IH]; intros x; simpl.
  - split; [apply Qle_refl | tauto].
  - case_Qltb x a.
    + destruct (IH a) as [H1 H2]. split; [lra |].
      intros v [Hv | Hv]; [subst; exact H1 | now apply H2].
    + destruct (IH x) as [H1 H2]. split; [exact H1 |].
      intros v [Hv | Hv]; [subst; lra | now apply H2].
Qed.

Lemma py_max_in (l : list Q) :
  forall x, py_max x l = x \/ In (py_max x l) l.
Proof.
  unfold py_max. induction l as [| a l IH]; intros x; simpl; auto.
  destruct (Qltb x a).
  - destruct (IH a) as [H | H]; [rewrite H |]; auto.
  - destruct (IH x) as [H | H]; auto.
Qed.

Lemma furthest_ge (g : Game.t) (v : Q) :
  In v (map obj_world_x (Game.entities g) ++ [Player.world_x (Game.player g)]) ->
  v <= Game.furthest g.
Proof.
  unfold Game.furthest.
  destruct (map obj_world_x (Game.entities g) ++ [Player.world_x (Game.player g)])
    as [| x l]; [contradiction |].
  destruct (py_max_bounds l x) as [H1 H2].
  intros [Hv | Hv]; [subst; exact H1 | now apply H2].
Qed.

Lemma furthest_in (g : Game.t) :
  In (Game.furthest g)
     (map obj_world_x (Game.entities g) ++ [Player.world_x (Game.player g)]).
Proof.
  unfold Game.furthest.
  destruct (map obj_world_x (Game.entities g) ++ [Player.world_x (Game.player g)])
    as [| x l] eqn:E.
  - destruct (map obj_world_x (Game.entities g)); discriminate.
  - destruct (py_max_in l x) as [H | H]; [rewrite H; now left | now right].
Qed.

Lemma furthest_ge_entity (g : Game.t) (o : Obj) :
  In o (Game.entities g) -> obj_world_x o <= Game.furthest g.
Proof.
  intros H. apply furthest_ge, in_or_app. left. now apply in_map.
Qed.

Lemma furthest_ge_player (g : Game.t) :
  Player.world_x (Game.player g) <= Game.furthest g.
Proof. apply furthest_ge, in_or_app. right. now left. Qed.

(** ** The generator's ranges *)

Lemma randint_range (a b : Z) (r : Random.t) :
  (a <= b)%Z -> (a <= fst (Random.randint a b r) <= b)%Z.
Proof.
  intros H. unfold Random.randint, Random.next. simpl.
  pose proof (Z.mod_pos_bound (Random.source r (Random.pos r)) (b - a + 1)).
  lia.
Qed.

Lemma random_range (r : Random.t) :
  0 <= fst (Random.random r) /\ fst (Random.random r) < 1.
Proof.
  unfold Random.random, Random.next. simpl.
  pose proof (Z.mod_pos_bound (Random.source r (Random.pos r)) 1000000 eq_refl) as H.
  set (z := (Random.source r (Random.pos r) mod 1000000)%Z) in *.
  assert (H0 : inject_Z 0 <= inject_Z z) by (rewrite <- Zle_Qle; lia).
  assert (H1 : inject_Z z < inject_Z 1000000) by (rewrite <- Zlt_Qlt; lia).
  change (inject_Z 0) with 0 in H0. change (inject_Z 1000000) with 1000000 in H1.
  split.
  - apply Qle_shift_div_l; lra.
  - apply Qlt_shift_div_r; lra.
Qed.

Lemma uniform_range (a b : Q) (r : Random.t) :
  a <= b -> a <= fst (Random.uniform a b r) <= b.
Proof.
  intros H. unfold Random.uniform.
  pose proof (random_range r) as [H0 H1].
  destruct (Random.random r) as [u r']. simpl in *. nra.
Qed.

(** ** Spawning *)

Lemma new_entity_world_x (typ : EntityType) (x : Q) (r : Random.t) :
  entity_world_x (fst (Game.new_entity typ x r)) = x.
Proof.
  destruct typ; simpl; auto.
Qed.

Lemma new_entity_fresh (typ : EntityType) (x : Q) (r : Random.t) :
  fresh_entity x (fst (Game.new_entity typ x r)).
Proof.
  unfold fresh_entity. destruct typ; cbn [Game.new_entity fst]; auto.
  pose proof (uniform_range 1.5 2.5 r ltac:(lra)) as H.
  destruct (Random.uniform 1.5 2.5 r) as [s r']. cbn [fst] in *.
  right. right. exists s. split; [exact H | reflexivity].
Qed.

Lemma append_new_spec (typ : EntityType) (x : Q) (g : Game.t) :
  exists o,
    Game.entities (Game.append_new typ x g) = Game.entities g ++ [o] /\
    oid o = Game.next_id g /\ obj_world_x o = x /\
    Game.next_id (Game.append_new typ x g) = S (Game.next_id g) /\
    fresh_entity x (ent o) /\
    same_session g (Game.append_new typ x g).
Proof.
  unfold Game.append_new.
  pose proof (new_entity_world_x typ x (Game.rng g)) as Hx.
  pose proof (new_entity_fresh typ x (Game.rng g)) as Hf.
  destruct (Game.new_entity typ x (Game.rng g)) as [e r']. cbn [fst] in Hx, Hf.
  exists (mkObj (Game.next_id g) e). unfold same_session.
  cbn -[fresh_entity]. tauto.
Qed.

Lemma same_session_refl (g : Game.t) : same_session g g.
Proof. unfold same_session. tauto. Qed.

Lemma same_session_trans (g1 g2 g3 : Game.t) :
  same_session g1 g2 -> same_session g2 g3 -> same_session g1 g3.
Proof.
  unfold same_session. intros H1 H2.
  decompose [and] H1. decompose [and] H2. repeat split; congruence.
Qed.

Lemma set_rng_same_session (r : Random.t) (g : Game.t) :
  same_session g (Game.set_rng r g).
Proof. unfold same_session. simpl. tauto. Qed.

Lemma Qceiling_pos (x : Q) : 0 < x -> (1 <= Qceiling x)%Z.
Proof.
  intros H. pose proof (Qle_ceiling x) as Hc.
  assert (H0 : inject_Z 0 < inject_Z (Qceiling x)) by (change (inject_Z 0) with 0; lra).
  rewrite <- Zlt_Qlt in H0. lia.
Qed.

Lemma Qceiling_sub_le (x : Q) (d : Z) (y : Q) :
  y <= x - inject_Z d -> (Qceiling y <= Qceiling x - d)%Z.
Proof.
  intros H. rewrite <- (Qceiling_Z (Qceiling x - d)).
  apply Qceiling_resp_le. unfold Z.sub. rewrite inject_Z_plus, inject_Z_opp.
  pose proof (Qle_ceiling x). lra.
Qed.

Lemma chain_end_in (news : list Obj) :
  forall f, (news = [] /\ chain_end f news = f) \/
            (exists o, In o news /\ chain_end f news = obj_world_x o).
Proof.
  unfold chain_end. induction news as [| a news IH]; intros f; simpl; auto.
  right. destruct (IH (obj_world_x a)) as [[Hn He] | (o & Ho & He)].
  - exists a. split; [now left | subst; exact He].
  - exists o. split; [now right | exact He].
Qed.

Lemma same_session_horizon (g g' : Game.t) :
  same_session g g' -> Game.spawn_horizon g' = Game.spawn_horizon g.
Proof.
  intros H. unfold Game.spawn_horizon. destruct H as (_ & Hc & _). now rewrite Hc.
Qed.

(** The loop of [spawn_if_needed] ends within the fuel it is given, and
    this is what it has done by then. *)
Lemma spawn_loop_spec (fuel : nat) :
  forall (f : Q) (g : Game.t),
  (Z.to_nat (Qceiling (Game.spawn_horizon g - f)) <= fuel)%nat ->
  exists g' news,
    Game.spawn_loop fuel f g = Some g' /\
    Game.entities g' = Game.entities g ++ news /\
    map oid news = seq (Game.next_id g) (List.length news) /\
    Game.next_id g' = (Game.next_id g + List.length news)%nat /\
    spawn_chain (Game.spawn_horizon g) f news /\
    Game.spawn_horizon g <= chain_end f news /\
    same_session g g'.
Proof.
  induction fuel as [| k IH]; intros f g Hfuel; cbn [Game.spawn_loop];
    case_Qltb f (Game.spawn_horizon g).
  - exfalso.
    assert (1 <= Qceiling (Game.spawn_horizon g - f))%Z by (apply Qceiling_pos; lra).
    lia.
  - exists g, []. simpl. rewrite app_nil_r, Nat.add_0_r.
    repeat split; auto.
  - pose proof (randint_range MIN_SPAWN_DIST MAX_SPAWN_DIST (Game.rng g)) as Hd.
    destruct (Random.randint MIN_SPAWN_DIST MAX_SPAWN_DIST (Game.rng g)) as [d r1].
    cbn [fst] in Hd. specialize (Hd ltac:(unfold MIN_SPAWN_DIST, MAX_SPAWN_DIST; lia)).
    destruct (Random.choices3 _ _ _ _ _ _ r1) as [typ r2].
    set (x := f + inject_Z d).
    destruct (append_new_spec typ x (Game.set_rng r2 g))
      as (o & Hents & Hoid & Hox & Hnext & Hfresh & Hsame).
    set (g1 := Game.append_new typ x (Game.set_rng r2 g)) in *.
    assert (Hs1 : same_session g g1)
      by (eapply same_session_trans; [apply set_rng_same_session | exact Hsame]).
    pose proof (same_session_horizon _ _ Hs1) as Hh.
    destruct (IH x g1) as (g' & news & Hrun & He & Hids & Hn & Hch & Hend & Hs').
    { rewrite Hh.
      assert (Qceiling (Game.spawn_horizon g - x)
              <= Qceiling (Game.spawn_horizon g - f) - d)%Z.
      { apply Qceiling_sub_le. unfold x. lra. }
      assert (1 <= Qceiling (Game.spawn_horizon g - f))%Z by (apply Qceiling_pos; lra).
      unfold MIN_SPAWN_DIST in Hd. lia. }
    exists g', (o :: news). rewrite Hrun.
    split; [reflexivity |].
    split; [rewrite He, Hents; simpl; now rewrite <- app_assoc |].
    split; [simpl; rewrite Hoid; f_equal; rewrite Hids, Hnext; reflexivity |].
    split; [rewrite Hn, Hnext; simpl; lia |].
    split.
    { simpl. split; [exact Hcmp |]. split.
      - exists d. split; [exact Hd | split; [exact Hox | exact Hfresh]].
      - rewrite Hox. rewrite <- Hh. exact Hch. }
    split.
    { unfold chain_end in *. simpl. rewrite Hox. rewrite <- Hh. exact Hend. }
    eapply same_session_trans; eassumption.
  - exists g, []. simpl. rewrite app_nil_r, Nat.add_0_r.
    repeat split; auto.
Qed.

(** [spawn_if_needed] always returns, having filled the world up to the
    horizon. *)
Lemma spawn_if_needed_spec (g : Game.t) :
  exists g' news,
    Game.spawn_if_needed g = Some g' /\
    Game.entities g' = Game.entities g ++ news /\
    map oid news = seq (Game.next_id g) (List.length news) /\
    Game.next_id g' = (Game.next_id g + List.length news)%nat /\
    spawn_chain (Game.spawn_horizon g) (Game.furthest g) news /\
    Game.spawn_horizon g' <= Game.furthest g' /\
    same_session g g'.
Proof.
  destruct (spawn_loop_spec (Game.spawn_fuel g) (Game.furthest g) g (Nat.le_refl _))
    as (g' & news & Hrun & He & Hids & Hn & Hch & Hend & Hs).
  exists g', news. repeat split; auto; try apply Hs.
  rewrite (same_session_horizon _ _ Hs).
  destruct (chain_end_in news (Game.furthest g)) as [[Hnil Hce] | (o & Ho & Hce)].
  - subst news. rewrite app_nil_r in He. rewrite Hce in Hend.
    assert (Game.furthest g' = Game.furthest g) as ->; [| exact Hend].
    unfold Game.furthest. destruct Hs as (Hp & _). now rewrite He, Hp.
  - rewrite Hce in Hend. eapply Qle_trans; [exact Hend |].
    apply furthest_ge_entity. rewrite He. apply in_or_app. now right.
Qed.

(** ** The blocks of [update] *)

Section Blocks.
Variable A : Assets.
Variable G : Pygame.

Lemma advance_fields (dt : Q) (g : Game.t) :
  Game.player (Game.advance A dt g) = Player.update A dt (Game.speed g) (Game.player g) /\
  Game.camera_x (Game.advance A dt g)
  = Player.world_x (Player.update A dt (Game.speed g) (Game.player g)) - WIDTH * 0.35 /\
  map oid (Game.entities (Game.advance A dt g)) = map oid (Game.entities g) /\
  List.length (Game.entities (Game.advance A dt g)) = List.length (Game.entities g) /\
  Game.speed (Game.advance A dt g) = Game.speed g /\
  Game.base_speed (Game.advance A dt g) = Game.base_speed g /\
  Game.score (Game.advance A dt g) = Game.score g /\
  Game.last_milestone (Game.advance A dt g) = Game.last_milestone g /\
  Game.next_id (Game.advance A dt g) = Game.next_id g /\
  Game.played (Game.advance A dt g) = Game.played g.
Proof.
  unfold Game.advance. cbn -[Player.update Qminus Qmult].
  repeat split; auto.
  - rewrite map_map. reflexivity.
  - apply length_map.
Qed.

Lemma collisions_fields (g : Game.t) :
  Game.camera_x (Game.collisions A G g) = Game.camera_x g /\
  Game.speed (Game.collisions A G g) = Game.speed g /\
  Game.base_speed (Game.collisions A G g) = Game.base_speed g /\
  Game.score (Game.collisions A G g) = Game.score g /\
  Game.last_milestone (Game.collisions A G g) = Game.last_milestone g /\
  Game.next_id (Game.collisions A G g) = Game.next_id g.
Proof.
  unfold Game.collisions. destruct (fold_left _ _ _) as [[p ents] snd0].
  simpl. tauto.
Qed.

Lemma collisions_entities (g : Game.t) :
  NoDup (map oid (Game.entities g)) ->
  Game.entities (Game.collisions A G g)
  = filter (fun o => negb (touched G (player_rect G (Game.player g) (Game.camera_x g))
                                   (Game.camera_x g) o))
           (Game.entities g).
Proof.
  intros Hnd. rewrite <- remove_ids_of_filter by exact Hnd.
  rewrite <- (collide_fold_entities A G _ _ _ (Game.player g) _ [] Hnd).
  unfold Game.collisions. now destruct (fold_left _ _ _) as [[p ents] snd0].
Qed.

Lemma collisions_player (g : Game.t) :
  health_ok (Game.player g) -> ~ In SfxDeath (Game.played g) ->
  health_ok (Game.player (Game.collisions A G g)) /\
  ~ In SfxDeath (Game.played (Game.collisions A G g)) /\
  Player.world_x (Game.player (Game.collisions A G g))
  = Player.world_x (Game.player g).
Proof.
  intros Hok Hs.
  pose proof (collide_fold_player A G (player_rect G (Game.player g) (Game.camera_x g))
                (Game.camera_x g) (Game.entities g) (Game.player g) (Game.entities g) []
                Hok (fun H => H)) as H.
  unfold Game.collisions. destruct (fold_left _ _ _) as [[p ents] snd0].
  cbn [Game.player Game.played Game.set_played Game.set_entities Game.set_player].
  destruct H as (H1 & H2 & H3). split; [exact H1 | split; [| exact H3]].
  intros Hin. apply in_app_or in Hin. tauto.
Qed.

Lemma remove_passed_fields (g : Game.t) :
  Game.player (Game.remove_passed g) = Game.player g /\
  Game.camera_x (Game.remove_passed g) = Game.camera_x g /\
  Game.speed (Game.remove_passed g) = Game.speed g /\
  Game.base_speed (Game.remove_passed g) = Game.base_speed g /\
  Game.last_milestone (Game.remove_passed g) = Game.last_milestone g /\
  Game.next_id (Game.remove_passed g) = Game.next_id g /\
  Game.played (Game.remove_passed g) = Game.played g.
Proof.
  unfold Game.remove_passed. destruct (fold_left _ _ _) as [sc ents].
  simpl. tauto.
Qed.

(** The cull pass removes exactly the entities behind the player, and
    scores one for each of them the player has passed. *)
Lemma remove_passed_spec (g : Game.t) :
  NoDup (map oid (Game.entities g)) ->
  let px := Player.world_x (Game.player g) in
  Game.entities (Game.remove_passed g)
  = filter (fun o => negb (behind px o)) (Game.entities g) /\
  Game.score (Game.remove_passed g)
  = (Game.score g
     + Z.of_nat (List.length (filter (fun o => behind px o && passed px o)
                                     (Game.entities g))))%Z.
Proof.
  intros Hnd px. unfold Game.remove_passed. fold px.
  rewrite (cull_fold px (Game.entities g) (Game.score g) (Game.entities g) Hnd).
  simpl. split; [now apply remove_ids_of_filter | reflexivity].
Qed.

Lemma cull_fold_score (px : Q) (l : list Obj) :
  forall (sc : Z) (ents : list Obj),
  (sc <= fst (fold_left (Game.cull px) l (sc, ents))
      <= sc + Z.of_nat (List.length l))%Z.
Proof.
  induction l as [| e l IH]; intros sc ents; cbn [fold_left List.length]; [simpl; lia |].
  unfold Game.cull at 2 4. destruct (Qltb _ _).
  - destruct (Qgtb _ _).
    + specialize (IH (sc + 1)%Z (list_remove e ents)). lia.
    + specialize (IH sc (list_remove e ents)). lia.
  - specialize (IH sc ents). lia.
Qed.

Lemma remove_passed_score (g : Game.t) :
  (Game.score g <= Game.score (Game.remove_passed g)
   <= Game.score g + Z.of_nat (List.length (Game.entities g)))%Z.
Proof.
  pose proof (cull_fold_score (Player.world_x (Game.player g)) (Game.entities g)
                (Game.score g) (Game.entities g)) as H.
  unfold Game.remove_passed. destruct (fold_left _ _ _) as [sc ents].
  simpl in *. exact H.
Qed.

Lemma speed_increase_fields (g : Game.t) :
  Game.player (Game.speed_increase g) = Game.player g /\
  Game.camera_x (Game.speed_increase g) = Game.camera_x g /\
  Game.entities (Game.speed_increase g) = Game.entities g /\
  Game.base_speed (Game.speed_increase g) = Game.base_speed g /\
  Game.score (Game.speed_increase g) = Game.score g /\
  Game.next_id (Game.speed_increase g) = Game.next_id g /\
  Game.played (Game.speed_increase g) = Game.played g.
Proof.
  unfold Game.speed_increase.
  destruct (_ >? _)%Z; [destruct (Qgtb _ _) |]; simpl; tauto.
Qed.

(** The speed block: nothing without a new milestone; with one, the
    milestone is recorded and the speed grows by one step, up to 18. *)
Lemma speed_increase_spec (g : Game.t) :
  let milestone := (Game.score g / SCORE_STEP)%Z in
  ((milestone <= Game.last_milestone g)%Z -> Game.speed_increase g = g) /\
  ((Game.last_milestone g < milestone)%Z ->
   Game.last_milestone (Game.speed_increase g) = milestone /\
   (Game.speed g + SPEED_INCREASE_STEP <= 18 ->
    Game.speed (Game.speed_increase g) = Game.speed g + SPEED_INCREASE_STEP) /\
   (18 < Game.speed g + SPEED_INCREASE_STEP ->
    Game.speed (Game.speed_increase g) = 18)).
Proof.
  intros milestone. unfold Game.speed_increase. fold milestone.
  destruct (milestone >? Game.last_milestone g)%Z eqn:Hm.
  - apply Z.gtb_lt in Hm. split; [lia |]. intros _.
    cbn [Game.speed Game.set_speed Game.set_last_milestone].
    case_Qltb 18 (Game.speed g + SPEED_INCREASE_STEP);
      unfold Qgtb; rewrite ?(proj2 (Qltb_lt _ _) Hcmp), ?(proj2 (Qltb_ge _ _) Hcmp);
      simpl; repeat split; auto; intros; lra.
  - rewrite Z.gtb_ltb in Hm. apply Z.ltb_ge in Hm. split; [auto | lia].
Qed.

Lemma speed_increase_bounds (g : Game.t) :
  Game.speed g <= 18 ->
  Game.speed g <= Game.speed (Game.speed_increase g) /\
  Game.speed (Game.speed_increase g) <= 18.
Proof.
  intros H. unfold Game.speed_increase.
  destruct (_ >? _)%Z; [| split; [apply Qle_refl | exact H]].
  cbn [Game.speed Game.set_speed Game.set_last_milestone].
  case_Qltb 18 (Game.speed g + SPEED_INCREASE_STEP);
    unfold Qgtb; rewrite ?(proj2 (Qltb_lt _ _) Hcmp), ?(proj2 (Qltb_ge _ _) Hcmp);
    simpl; unfold SPEED_INCREASE_STEP in *; split; lra.
Qed.

Lemma update_dead (dt : Q) (g : Game.t) :
  Player.alive (Game.player g) = false -> Game.update A G dt g = Some g.
Proof. intros H. unfold Game.update. now rewrite H. Qed.

Lemma update_alive (dt : Q) (g : Game.t) :
  Player.alive (Game.player g) = true ->
  Game.update A G dt g
  = Game.spawn_if_needed
      (Game.speed_increase
         (Game.remove_passed (Game.collisions A G (Game.advance A dt g)))).
Proof. intros H. unfold Game.update. now rewrite H. Qed.

(** [update] always returns. *)
Lemma update_total (dt : Q) (g : Game.t) :
  exists g', Game.update A G dt g = Some g'.
Proof.
  destruct (Player.alive (Game.player g)) eqn:Ha.
  - rewrite update_alive by exact Ha.
    destruct (spawn_if_needed_spec
                (Game.speed_increase
                   (Game.remove_passed (Game.collisions A G (Game.advance A dt g)))))
      as (g' & _ & H & _).
    now exists g'.
  - exists g. now apply update_dead.
Qed.

Lemma step_total (i : Game.Input) (g : Game.t) :
  exists g', Game.step A G i g = Some g'.
Proof.
  destruct i; simpl; [now eexists | apply update_total].
Qed.

Lemma run_total (inputs : list Game.Input) :
  forall g, exists g', Game.run A G inputs g = Some g'.
Proof.
  induction inputs as [| i inputs IH]; intros g; simpl; [now eexists |].
  destruct (step_total i g) as [g1 H1]. rewrite H1. apply IH.
Qed.

Lemma run_app (i1 i2 : list Game.Input) :
  forall g, Game.run A G (i1 ++ i2) g
            = match Game.run A G i1 g with
              | Some g1 => Game.run A G i2 g1
              | None => None
              end.
Proof.
  induction i1 as [| i i1 IH]; intros g; simpl; auto.
  destruct (Game.step A G i g); auto.
Qed.

(** A property of the new game that every step keeps holds all along
    every session. *)
Lemma run_invariant (P : Game.t -> Prop) :
  (forall i g g', P g -> Game.step A G i g = Some g' -> P g') ->
  forall inputs g g', P g -> Game.run A G inputs g = Some g' -> P g'.
Proof.
  intros Hstep. induction inputs as [| i inputs IH]; intros g g' HP Hrun; simpl in Hrun.
  - now inversion Hrun; subst.
  - destruct (Game.step A G i g) as [g1 |] eqn:H1; [| discriminate].
    apply (IH g1 g'); auto. exact (Hstep i g g1 HP H1).
Qed.

End Blocks.

(** ** Identities *)

Lemma Forall_map_filter (P : nat -> Prop) (f : Obj -> bool) (l : list Obj) :
  Forall P (map oid l) -> Forall P (map oid (filter f l)).
Proof.
  induction l as [| a l IH]; intros H; simpl; auto.
  inversion H; subst. destruct (f a); simpl; auto.
Qed.

Lemma NoDup_app_seq (l : list nat) (n k : nat) :
  NoDup l -> Forall (fun i => (i < n)%nat) l -> NoDup (l ++ seq n k).
Proof.
  induction l as [| a l IH]; intros Hnd Hlt; simpl.
  - apply seq_NoDup.
  - inversion Hnd; subst. inversion Hlt; subst.
    constructor; [| now apply IH].
    intros Hin. apply in_app_or in Hin as [Hin | Hin]; [contradiction |].
    apply in_seq in Hin. lia.
Qed.

Lemma ids_ok_filter (f : Obj -> bool) (l : list Obj) (n : nat) :
  NoDup (map oid l) /\ Forall (fun i => (i < n)%nat) (map oid l) ->
  NoDup (map oid (filter f l)) /\
  Forall (fun i => (i < n)%nat) (map oid (filter f l)).
Proof.
  intros [H1 H2]. split; [now apply NoDup_map_filter | now apply Forall_map_filter].
Qed.

Lemma ids_ok_append (l news : list Obj) (n : nat) :
  NoDup (map oid l) /\ Forall (fun i => (i < n)%nat) (map oid l) ->
  map oid news = seq n (List.length news) ->
  NoDup (map oid (l ++ news)) /\
  Forall (fun i => (i < n + List.length news)%nat) (map oid (l ++ news)).
Proof.
  intros [H1 H2] Hids. rewrite map_app, Hids. split.
  - now apply NoDup_app_seq.
  - apply Forall_app. split.
    + eapply Forall_impl; [| exact H2]. simpl. intros; lia.
    + apply Forall_forall. intros i Hi. apply in_seq in Hi. lia.
Qed.

(** ** Seeding *)

Lemma seed_loop_spec (n : nat) :
  forall (x : Z) (g : Game.t),
  exists news,
    Game.entities (Game.seed_loop n x g) = Game.entities g ++ news /\
    List.length news = n /\
    map oid news = seq (Game.next_id g) n /\
    Game.next_id (Game.seed_loop n x g) = (Game.next_id g + n)%nat /\
    seed_chain x news /\
    same_session g (Game.seed_loop n x g).
Proof.
  induction n as [| n IH]; intros x g; cbn [Game.seed_loop].
  - exists []. simpl. rewrite app_nil_r, Nat.add_0_r. repeat split; auto.
  - destruct (Random.choice TBox [TEnemy; TPotion] (Game.rng g)) as [typ r1].
    destruct (append_new_spec typ (inject_Z x) (Game.set_rng r1 g))
      as (o & Hents & Hoid & Hox & Hnext & Hfresh & Hsame).
    set (g1 := Game.append_new typ (inject_Z x) (Game.set_rng r1 g)) in *.
    pose proof (randint_range 300 500 (Game.rng g1) ltac:(lia)) as Hd.
    destruct (Random.randint 300 500 (Game.rng g1)) as [d r2]. cbn [fst] in Hd.
    destruct (IH (x + d)%Z (Game.set_rng r2 g1))
      as (news & He & Hlen & Hids & Hn & Hch & Hs).
    exists (o :: news). cbn [Game.entities Game.set_rng Game.next_id] in *.
    split; [rewrite He, Hents; now rewrite <- app_assoc |].
    split; [simpl; now rewrite Hlen |].
    split; [simpl; rewrite Hoid; f_equal; rewrite Hids, Hnext; reflexivity |].
    split; [rewrite Hn, Hnext; lia |].
    split; [simpl; split; [exact Hox | split; [exact Hfresh | exists d; auto]] |].
    eapply same_session_trans; [| exact Hs].
    eapply same_session_trans; [| apply set_rng_same_session].
    eapply same_session_trans; [apply set_rng_same_session | exact Hsame].
Qed.

(** The [i]-th seeded entity lies between [300 * i] and [500 * i] beyond
    the first. *)
Lemma seed_chain_nth (news : list Obj) :
  forall (x : Z) (i : nat) (o : Obj),
  seed_chain x news -> nth_error news i = Some o ->
  exists k : Z, obj_world_x o = inject_Z k /\
                (x + 300 * Z.of_nat i <= k <= x + 500 * Z.of_nat i)%Z.
Proof.
  induction news as [| a news IH]; intros x i o Hch Hnth.
  - destruct i; discriminate.
  - destruct Hch as (Hx & _ & d & Hd & Hrest). destruct i as [| i]; simpl in Hnth.
    + inversion Hnth; subst. exists x. split; [exact Hx | lia].
    + destruct (IH (x + d)%Z i o Hrest Hnth) as (k & Hk & Hr).
      exists k. split; [exact Hk | lia].
Qed.


Lemma init_entities (s : Settings) (r : Random.t) :
  exists news,
    Game.entities (Game.init s r) = news /\
    List.length news = 5%nat /\
    map oid news = seq 0 5 /\
    Game.next_id (Game.init s r) = 5%nat /\
    seed_chain 600 news.
Proof.
  unfold Game.init, Game._seed_initial_world.
  match goal with |- context [Game.seed_loop 5 600 ?g0] =>
    destruct (seed_loop_spec 5 600 g0) as (news & He & Hlen & Hids & Hn & Hch & _);
    revert He Hn; generalize (Game.seed_loop 5 600 g0)
  end.
  intros gs He Hn. exists news.
  cbn [Game.entities Game.set_potion_weight Game.next_id app Nat.add] in *.
  repeat split; auto.
Qed.

Lemma init_fields (s : Settings) (r : Random.t) :
  Game.player (Game.init s r) = Player.init 100 /\
  Game.camera_x (Game.init s r) = 0 /\
  Game.base_speed (Game.init s r)
  = PLAYER_START_SPEED_BASE * DIFFICULTY_MOD (get_difficulty s) /\
  Game.speed (Game.init s r) = Game.base_speed (Game.init s r) /\
  Game.score (Game.init s r) = 0%Z /\
  Game.last_milestone (Game.init s r) = (-1)%Z /\
  Game.played (Game.init s r) = [].
Proof.
  unfold Game.init, Game._seed_initial_world.
  match goal with |- context [Game.seed_loop 5 600 ?g0] =>
    destruct (seed_loop_spec 5 600 g0) as (news & _ & _ & _ & _ & _ & Hs);
    revert Hs; generalize (Game.seed_loop 5 600 g0)
  end.
  intros gs Hs. unfold same_session in Hs.
  cbn [Game.player Game.camera_x Game.base_speed Game.speed Game.score
       Game.last_milestone Game.played Game.set_potion_weight Game.settings
       Game.potion_weight] in *.
  decompose [and] Hs. repeat split; congruence.
Qed.

Lemma DIFFICULTY_MOD_cases (name : string) :
  DIFFICULTY_MOD name = 0.85 \/ DIFFICULTY_MOD name = 1.0 \/ DIFFICULTY_MOD name = 1.25.
Proof.
  unfold DIFFICULTY_MOD.
  destruct (String.eqb name "Easy"); auto.
  destruct (String.eqb name "Normal"); auto.
  destruct (String.eqb name "Hard"); auto.
Qed.

Lemma base_speed_range (s : Settings) (r : Random.t) :
  3 <= Game.base_speed (Game.init s r) <= 5.
Proof.
  destruct (init_fields s r) as (_ & _ & Hb & _). rewrite Hb.
  unfold PLAYER_START_SPEED_BASE.
  destruct (DIFFICULTY_MOD_cases (get_difficulty s)) as [H | [H | H]];
    rewrite H; split; lra.
Qed.

(** ** The invariant of a session *)

Lemma furthest_mono (g g' : Game.t) :
  Game.entities g' = Game.entities g ->
  Player.world_x (Game.player g) <= Player.world_x (Game.player g') ->
  Game.furthest g <= Game.furthest g'.
Proof.
  intros He Hp. pose proof (furthest_in g) as Hin.
  apply in_app_or in Hin as [Hin | Hin].
  - apply furthest_ge, in_or_app. left. now rewrite He.
  - destruct Hin as [Hin | []]. rewrite <- Hin.
    eapply Qle_trans; [exact Hp | apply furthest_ge_player].
Qed.

Lemma jump_world_x (A : Assets) (p : Player.t) :
  Player.world_x p <= Player.world_x (fst (Player.jump A p)).
Proof.
  unfold Player.jump. destruct (negb _); simpl; [apply Qle_refl |].
  destruct (Player.on_ground p); simpl; lra.
Qed.

Lemma init_inv (s : Settings) (r : Random.t) : session_inv (Game.init s r).
Proof.
  destruct (init_entities s r) as (news & He & Hlen & Hids & Hn & Hch).
  destruct (init_fields s r) as (Hp & Hc & Hb & Hsp & Hsc & Hlm & Hpl).
  unfold session_inv, ids_ok. rewrite He, Hids, Hn, Hp, Hpl, Hsc, Hsp.
  split; [split; [apply seq_NoDup | apply Forall_forall; intros i Hi; apply in_seq in Hi; lia] |].
  split; [apply init_health_ok |].
  split; [simpl; tauto |].
  split; [lia |].
  split; [pose proof (base_speed_range s r); lra |].
  destruct (nth_error news 4) as [o |] eqn:Hnth;
    [| apply nth_error_None in Hnth; lia].
  destruct (seed_chain_nth news 600 4 o Hch Hnth) as (k & Hk & Hr).
  eapply Qle_trans; [| apply furthest_ge_entity; rewrite He; eapply nth_error_In; exact Hnth].
  rewrite Hk. unfold Game.spawn_horizon. rewrite Hc.
  unfold WIDTH, MIN_SPAWN_DIST.
  assert (inject_Z 1800 <= inject_Z k) by (rewrite <- Zle_Qle; lia).
  change (inject_Z 1800) with 1800 in H. change (inject_Z 600) with 600. lra.
Qed.

Section Invariant.
Variable A : Assets.
Variable G : Pygame.

Lemma on_jump_pressed_inv (g : Game.t) :
  session_inv g -> session_inv (Game.on_jump_pressed A g).
Proof.
  intros (Hids & Hok & Hs & Hsc & Hsp & Hf). unfold Game.on_jump_pressed.
  destruct (Player.alive (Game.player g)); [| repeat split; auto; apply Hids || apply Hok].
  pose proof (jump_keeps A (Game.player g)) as [Ha Hh].
  pose proof (jump_no_death A (Game.player g)) as Hnd.
  pose proof (jump_world_x A (Game.player g)) as Hx.
  destruct (Player.jump A (Game.player g)) as [p snd0]. cbn [fst snd] in *.
  unfold session_inv, ids_ok.
  cbn [Game.entities Game.next_id Game.player Game.played Game.score Game.speed
       Game.set_played Game.set_player].
  split; [exact Hids |].
  split; [unfold health_ok in *; now rewrite Ha, Hh |].
  split; [intros Hin; apply in_app_or in Hin; tauto |].
  split; [exact Hsc |]. split; [exact Hsp |].
  eapply Qle_trans; [exact Hf |]. apply furthest_mono; auto.
Qed.

Lemma update_inv (dt : Q) (g g' : Game.t) :
  session_inv g -> Game.update A G dt g = Some g' -> session_inv g'.
Proof.
  intros Hinv Hup. destruct (Player.alive (Game.player g)) eqn:Halive;
    [| rewrite update_dead in Hup by exact Halive; now inversion Hup; subst].
  rewrite update_alive in Hup by exact Halive.
  destruct Hinv as ((Hnd & Hlt) & Hok & Hs & Hsc & Hsp & _).
  set (g1 := Game.advance A dt g) in *.
  set (g2 := Game.collisions A G g1) in *.
  set (g3 := Game.remove_passed g2) in *.
  set (g4 := Game.speed_increase g3) in *.
  destruct (advance_fields A dt g)
    as (Hp1 & _ & Hid1 & _ & Hsp1 & _ & Hsc1 & _ & Hn1 & Hpl1).
  fold g1 in Hp1, Hid1, Hsp1, Hsc1, Hn1, Hpl1.
  destruct (update_keeps A dt (Game.speed g) (Game.player g)) as [Hal1 Hh1].
  assert (Hok1 : health_ok (Game.player g1))
    by (rewrite Hp1; unfold health_ok in *; now rewrite Hal1, Hh1).
  assert (Hids1 : NoDup (map oid (Game.entities g1)) /\
                  Forall (fun i => (i < Game.next_id g)%nat) (map oid (Game.entities g1)))
    by (rewrite Hid1; auto).
  destruct (collisions_fields A G g1) as (_ & Hsp2 & _ & Hsc2 & _ & Hn2).
  fold g2 in Hsp2, Hsc2, Hn2.
  destruct (collisions_player A G g1 Hok1) as (Hok2 & Hs2 & _);
    [now rewrite Hpl1 |]. fold g2 in Hok2, Hs2.
  pose proof (collisions_entities A G g1 (proj1 Hids1)) as He2. fold g2 in He2.
  assert (Hids2 : NoDup (map oid (Game.entities g2)) /\
                  Forall (fun i => (i < Game.next_id g)%nat) (map oid (Game.entities g2)))
    by (rewrite He2; now apply ids_ok_filter).
  destruct (remove_passed_fields g2) as (Hp3 & _ & Hsp3 & _ & _ & Hn3 & Hpl3).
  fold g3 in Hp3, Hsp3, Hn3, Hpl3.
  destruct (remove_passed_spec g2 (proj1 Hids2)) as (He3 & _). fold g3 in He3.
  pose proof (remove_passed_score g2) as Hsc3. fold g3 in Hsc3.
  assert (Hids3 : NoDup (map oid (Game.entities g3)) /\
                  Forall (fun i => (i < Game.next_id g)%nat) (map oid (Game.entities g3)))
    by (rewrite He3; now apply ids_ok_filter).
  destruct (speed_increase_fields g3) as (Hp4 & _ & He4 & _ & Hsc4 & Hn4 & Hpl4).
  fold g4 in Hp4, He4, Hsc4, Hn4, Hpl4.
  destruct (speed_increase_bounds g3) as [_ Hsp4]; [rewrite Hsp3, Hsp2, Hsp1; exact Hsp |].
  fold g4 in Hsp4.
  destruct (spawn_if_needed_spec g4)
    as (g5 & news & Hrun & He5 & Hid5 & Hn5 & _ & Hfar & Hsame).
  rewrite Hrun in Hup. inversion Hup; subst g5. clear Hup.
  destruct Hsame as (Hp5 & _ & _ & _ & Hsp5 & Hsc5 & _ & _ & Hpl5).
  unfold session_inv, ids_ok.
  rewrite Hp5, Hpl5, Hsc5, Hsp5, He5, Hn5.
  split.
  { apply ids_ok_append; [| exact Hid5].
    rewrite He4, Hn4, Hn3, Hn2, Hn1. exact Hids3. }
  split; [rewrite Hp4, Hp3; exact Hok2 |].
  split; [rewrite Hpl4, Hpl3; exact Hs2 |].
  split; [rewrite Hsc4; rewrite Hsc2, Hsc1 in Hsc3; lia |].
  split; [exact Hsp4 | exact Hfar].
Qed.

Lemma step_inv (i : Game.Input) (g g' : Game.t) :
  session_inv g -> Game.step A G i g = Some g' -> session_inv g'.
Proof.
  destruct i; simpl; intros Hinv H.
  - inversion H; subst. now apply on_jump_pressed_inv.
  - eapply update_inv; eassumption.
Qed.

(** Every state of every session satisfies the invariant. *)
Lemma reachable_inv (g : Game.t) : reachable A G g -> session_inv g.
Proof.
  intros (s & r & inputs & Hrun).
  eapply (run_invariant A G session_inv); [| apply (init_inv s r) | exact Hrun].
  intros i g0 g1. apply step_inv.
Qed.

Lemma reachable_init (s : Settings) (r : Random.t) : reachable A G (Game.init s r).
Proof. now exists s, r, []. Qed.

Lemma reachable_step (i : Game.Input) (g g' : Game.t) :
  reachable A G g -> Game.step A G i g = Some g' -> reachable A G g'.
Proof.
  intros (s & r & inputs & Hrun) Hstep. exists s, r, (inputs ++ [i]).
  rewrite run_app, Hrun. simpl. now rewrite Hstep.
Qed.

End Invariant.

(** * The claims of the specification *)

(** ** C1: contact with an enemy *)



(** ** C2: the range of health *)

Lemma take_damage_n_init (A : Assets) (x : Q) (n : nat) :
  let p := fst (take_damage_n A n (Player.init x)) in
  Player.health p = Z.max 0 (PLAYER_MAX_HEALTH - Z.of_nat n) /\
  Player.alive p = (Z.of_nat n <? PLAYER_MAX_HEALTH)%Z.
Proof.
  unfold PLAYER_MAX_HEALTH.
  destruct n as [| [| [| n]]]; try (split; reflexivity).
  cbv zeta. rewrite !take_damage_n_S. cbn [fst].
  rewrite take_damage_n_dead by reflexivity.
  split.
  - transitivity 0%Z; [reflexivity | lia].
  - transitivity false; [reflexivity | symmetry; apply Z.ltb_ge; lia].
Qed.

(** C2.  Health is within [0, PLAYER_MAX_HEALTH] after any sequence of the
    calls the program makes on a new player, and so in every state of
    every session; [heal] never pushes it above the maximum, whatever the
    amount.  After [n] calls of [take_damage()] on a new player health is
    [max 0 (3 - n)]: it goes down by one with each of the first three
    calls, the third of which is the only one that ends the player's life.
    From then on the player stays dead, and [take_damage] and [heal] change
    nothing and play nothing. *)
Theorem C2_health_range (A : Assets) :
  (forall x cs, health_ok (fst (player_calls A cs (Player.init x)))) /\
  (forall G g, reachable A G g -> health_ok (Game.player g)) /\
  (forall amt p,
      (Player.health (fst (Player.heal A amt p))
       <= Z.max PLAYER_MAX_HEALTH (Player.health p))%Z) /\
  (forall x n,
      let p := fst (take_damage_n A n (Player.init x)) in
      Player.health p = Z.max 0 (PLAYER_MAX_HEALTH - Z.of_nat n) /\
      Player.alive p = (Z.of_nat n <? PLAYER_MAX_HEALTH)%Z) /\
  (forall p, Player.alive p = false ->
      forall amt cs,
        Player.take_damage A amt p = (p, []) /\
        Player.heal A amt p = (p, []) /\
        Player.alive (fst (player_calls A cs p)) = false).
Proof.
  split; [intros x cs; apply player_calls_health_ok, init_health_ok |].
  split; [intros G g Hr; apply (reachable_inv A G g Hr) |].
  split.
  { intros amt p. unfold Player.heal.
    destruct (negb (Player.alive p)); cbn [fst Player.health Player.set_health]; lia. }
  split; [intros x n; apply take_damage_n_init |].
  intros p Hdead amt cs.
  split; [now apply take_damage_dead |].
  split; [now apply heal_dead | now apply player_calls_dead].
Qed.

(** ** C3: the cull pass and the score *)

Lemma score_gain_count (px : Q) (l : list Obj) :
  Z.of_nat (List.length (filter (fun o => behind px o && passed px o) l))
  = score_gain px (filter (behind px) l).
Proof.
  induction l as [| a l IH]; simpl; auto.
  destruct (behind px a); simpl; auto.
  destruct (passed px a); simpl List.length; rewrite <- IH; lia.
Qed.

Lemma score_gain_culled (px : Q) (l : list Obj) :
  score_gain px (filter (behind px) l)
  = Z.of_nat (List.length (filter (behind px) l)).
Proof.
  induction l as [| a l IH]; simpl; auto.
  destruct (behind px a) eqn:Hb; simpl; auto.
  rewrite (behind_passed px a Hb), IH. lia.
Qed.

Lemma update_score_mono (A : Assets) (G : Pygame) (dt : Q) (g g' : Game.t) :
  Game.update A G dt g = Some g' -> (Game.score g <= Game.score g')%Z.
Proof.
  intros Hup. destruct (Player.alive (Game.player g)) eqn:Ha;
    [| rewrite update_dead in Hup by exact Ha; inversion Hup; lia].
  rewrite update_alive in Hup by exact Ha.
  match type of Hup with Game.spawn_if_needed ?g4 = _ =>
    destruct (spawn_if_needed_spec g4) as (g5 & news & Hrun & _ & _ & _ & _ & _ & Hs)
  end.
  rewrite Hrun in Hup. inversion Hup; subst g5.
  destruct Hs as (_ & _ & _ & _ & _ & Hsc & _). rewrite Hsc.
  match goal with |- context [Game.speed_increase ?g3] =>
    destruct (speed_increase_fields g3) as (_ & _ & _ & _ & Hsc4 & _); rewrite Hsc4
  end.
  match goal with |- context [Game.remove_passed ?g2] =>
    pose proof (remove_passed_score g2) as Hsc3;
    destruct (collisions_fields A G (Game.advance A dt g)) as (_ & _ & _ & Hsc2 & _)
  end.
  destruct (advance_fields A dt g) as (_ & _ & _ & _ & _ & _ & Hsc1 & _).
  rewrite Hsc2, Hsc1 in Hsc3. lia.
Qed.

Lemma run_score_mono (A : Assets) (G : Pygame) (inputs : list Game.Input) :
  forall g, exists g', Game.run A G inputs g = Some g' /\
                       (Game.score g <= Game.score g')%Z.
Proof.
  induction inputs as [| i inputs IH]; intros g; simpl.
  - exists g. split; [reflexivity | lia].
  - destruct (step_total A G i g) as [g1 H1]. rewrite H1.
    destruct (IH g1) as (g' & Hrun & Hle). exists g'. split; [exact Hrun |].
    assert (Game.score g <= Game.score g1)%Z; [| lia].
    destruct i; simpl in H1.
    + inversion H1; subst. unfold Game.on_jump_pressed.
      destruct (Player.alive _); [destruct (Player.jump _ _) |]; simpl; lia.
    + eapply update_score_mono; eassumption.
Qed.

(** C3.  In a frame of a session with the player alive, let [g2] be the
    game when the cull pass starts.  The pass keeps exactly the entities
    that are not more than 220 behind the player; the frame ends with
    these followed by what the spawner adds; the score grows by one for
    each removed entity the player has passed and by nothing for the
    others (every removed entity has been passed, so by their number).
    The score is never negative and never decreases, over any further
    inputs. *)
Theorem C3_cull_and_score (A : Assets) (G : Pygame) (g : Game.t) (dt : Q) :
  reachable A G g ->
  Player.alive (Game.player g) = true ->
  let g2 := Game.collisions A G (Game.advance A dt g) in
  let px := Player.world_x (Game.player g2) in
  let culled := filter (behind px) (Game.entities g2) in
  (exists g' news,
     Game.update A G dt g = Some g' /\
     Game.entities (Game.remove_passed g2)
     = filter (fun o => negb (Qltb (obj_world_x o) (px - 220))) (Game.entities g2) /\
     Game.entities g' = Game.entities (Game.remove_passed g2) ++ news /\
     Game.score g' = (Game.score g + score_gain px culled)%Z /\
     score_gain px culled = Z.of_nat (List.length culled)) /\
  (0 <= Game.score g)%Z /\
  (forall inputs, exists g', Game.run A G inputs g = Some g' /\
                             (Game.score g <= Game.score g')%Z).
Proof.
  intros Hr Ha g2 px culled.
  pose proof (reachable_inv A G g Hr) as ((Hnd & _) & _ & _ & Hsc & _).
  split; [| split; [exact Hsc | intros inputs; apply run_score_mono]].
  rewrite update_alive by exact Ha. fold g2.
  destruct (advance_fields A dt g) as (_ & _ & Hid1 & _ & _ & _ & Hsc1 & _).
  assert (Hnd1 : NoDup (map oid (Game.entities (Game.advance A dt g))))
    by (now rewrite Hid1).
  pose proof (collisions_entities A G _ Hnd1) as He2. fold g2 in He2.
  assert (Hnd2 : NoDup (map oid (Game.entities g2)))
    by (rewrite He2; now apply NoDup_map_filter).
  destruct (collisions_fields A G (Game.advance A dt g)) as (_ & _ & _ & Hsc2 & _).
  fold g2 in Hsc2.
  destruct (remove_passed_spec g2 Hnd2) as (He3 & Hsc3). fold px in He3, Hsc3.
  destruct (speed_increase_fields (Game.remove_passed g2))
    as (_ & _ & He4 & _ & Hsc4 & _).
  destruct (spawn_if_needed_spec (Game.speed_increase (Game.remove_passed g2)))
    as (g' & news & Hrun & He5 & _ & _ & _ & _ & Hs).
  exists g', news. split; [exact Hrun |].
  split; [exact He3 |].
  split; [now rewrite He5, He4 |].
  split; [| apply score_gain_culled].
  destruct Hs as (_ & _ & _ & _ & _ & Hsc5 & _).
  rewrite Hsc5, Hsc4, Hsc3, Hsc2, Hsc1. f_equal. apply score_gain_count.
Qed.

(** The claim on the first frame of a new game. *)
Lemma C3_witness :
  reachable all_assets pygame_sprites new_game /\
  Player.alive (Game.player new_game) = true /\
  (0 <= Game.score new_game)%Z /\
  exists g', Game.update all_assets pygame_sprites 16.67 new_game = Some g'.
Proof.
  assert (Hr : reachable all_assets pygame_sprites new_game)
    by apply reachable_init.
  assert (Ha : Player.alive (Game.player new_game) = true)
    by (vm_compute; reflexivity).
  split; [exact Hr | split; [exact Ha |]].
  destruct (C3_cull_and_score all_assets pygame_sprites new_game 16.67 Hr Ha)
    as ((g' & news & Hup & _) & H0 & _).
  split; [exact H0 | exists g'; exact Hup].
Defined.

(** ** Speed over frames and inputs *)

(** What a frame with the player alive does to speed and milestone, from
    the score [sc] the cull pass leaves. *)
Lemma update_alive_speed (A : Assets) (G : Pygame) (dt : Q) (g : Game.t) :
  Player.alive (Game.player g) = true ->
  let g3 := Game.remove_passed (Game.collisions A G (Game.advance A dt g)) in
  exists g',
    Game.update A G dt g = Some g' /\
    Game.speed g3 = Game.speed g /\
    Game.last_milestone g3 = Game.last_milestone g /\
    Game.base_speed g' = Game.base_speed g /\
    Game.score g' = Game.score g3 /\
    Game.speed g' = Game.speed (Game.speed_increase g3) /\
    Game.last_milestone g' = Game.last_milestone (Game.speed_increase g3).
Proof.
  intros Ha g3. rewrite update_alive by exact Ha. fold g3.
  destruct (spawn_if_needed_spec (Game.speed_increase g3))
    as (g' & news & Hrun & _ & _ & _ & _ & _ & Hs).
  destruct Hs as (_ & _ & _ & Hb & Hsp & Hsc & Hlm & _).
  destruct (advance_fields A dt g) as (_ & _ & _ & _ & Hsp1 & Hb1 & _ & Hlm1 & _).
  destruct (collisions_fields A G (Game.advance A dt g)) as (_ & Hsp2 & Hb2 & _ & Hlm2 & _).
  destruct (remove_passed_fields (Game.collisions A G (Game.advance A dt g)))
    as (_ & _ & Hsp3 & Hb3 & Hlm3 & _).
  destruct (speed_increase_fields g3) as (_ & _ & _ & Hb4 & Hsc4 & _).
  exists g'. split; [exact Hrun |].
  split; [unfold g3; congruence |].
  split; [unfold g3; congruence |].
  split; [rewrite Hb, Hb4; unfold g3; congruence |].
  split; [congruence |]. split; assumption.
Qed.

Lemma update_speed (A : Assets) (G : Pygame) (dt : Q) (g g' : Game.t) :
  Game.speed g <= 18 -> Game.update A G dt g = Some g' ->
  Game.speed g <= Game.speed g' /\ Game.speed g' <= 18 /\
  Game.base_speed g' = Game.base_speed g.
Proof.
  intros Hle Hup. destruct (Player.alive (Game.player g)) eqn:Ha;
    [| rewrite update_dead in Hup by exact Ha; inversion Hup; subst;
       repeat split; auto; apply Qle_refl].
  destruct (update_alive_speed A G dt g Ha)
    as (g1 & Hup' & Hsp3 & _ & Hb & _ & Hsp & _).
  rewrite Hup' in Hup. inversion Hup; subst g1.
  destruct (speed_increase_bounds
              (Game.remove_passed (Game.collisions A G (Game.advance A dt g))))
    as [H1 H2]; [now rewrite Hsp3 |].
  rewrite Hsp3 in H1. rewrite Hsp. auto.
Qed.

Lemma run_speed (A : Assets) (G : Pygame) (inputs : list Game.Input) :
  forall g, Game.speed g <= 18 ->
  exists g', Game.run A G inputs g = Some g' /\
             Game.speed g <= Game.speed g' /\ Game.speed g' <= 18 /\
             Game.base_speed g' = Game.base_speed g.
Proof.
  induction inputs as [| i inputs IH]; intros g Hle; cbn [Game.run].
  - exists g. repeat split; auto. apply Qle_refl.
  - destruct (step_total A G i g) as [g1 H1]. rewrite H1.
    assert (Hstep : Game.speed g <= Game.speed g1 /\ Game.speed g1 <= 18 /\
                    Game.base_speed g1 = Game.base_speed g).
    { destruct i; cbn [Game.step] in H1.
      - inversion H1; subst. unfold Game.on_jump_pressed.
        destruct (Player.alive _); [destruct (Player.jump _ _) |];
          cbn [Game.speed Game.base_speed Game.set_played Game.set_player];
          repeat split; auto; apply Qle_refl.
      - eapply update_speed; eassumption. }
    destruct Hstep as (Ha & Hb & Hc).
    destruct (IH g1 Hb) as (g' & Hrun & Hd & He & Hf).
    exists g'. split; [exact Hrun |].
    split; [eapply Qle_trans; eassumption |]. split; [exact He | congruence].
Qed.

(** ** C5: the spawner's horizon *)




(** ** C6: enemies stay on patrol *)

Lemma enemy_update_spec (A : Assets) (dt : Q) (e : Enemy.t) :
  let moved := Enemy.world_x e
               + inject_Z (Enemy.dir e) * Enemy.speed e * (dt / REF_FRAME_MS) in
  let e' := Enemy.update A dt e in
  Enemy.left e' = Enemy.left e /\
  Enemy.right e' = Enemy.right e /\
  Enemy.speed e' = Enemy.speed e /\
  (moved < Enemy.left e ->
   Enemy.world_x e' = Enemy.left e /\ Enemy.dir e' = 1%Z) /\
  (Enemy.left e <= moved -> Enemy.right e < moved ->
   Enemy.world_x e' = Enemy.right e /\ Enemy.dir e' = (-1)%Z) /\
  (Enemy.left e <= moved <= Enemy.right e ->
   Enemy.world_x e' = moved /\ Enemy.dir e' = Enemy.dir e).
Proof.
  intros moved e'. subst e'. unfold Enemy.update. fold moved.
  case_Qltb moved (Enemy.left e).
  - destruct (Qgeb _ _); cbn; repeat split; auto; intros; lra.
  - unfold Qgtb. case_Qltb (Enemy.right e) moved;
      destruct (Qgeb _ _); cbn; repeat split; auto; intros; lra.
Qed.

Lemma enemy_update_patrol (A : Assets) (x spd dt : Q) (e : Enemy.t) :
  patrol_ok x spd e -> patrol_ok x spd (Enemy.update A dt e).
Proof.
  intros (Hl & Hr & Hs & Hb & Hd).
  destruct (enemy_update_spec A dt e) as (Hl' & Hr' & Hs' & H1 & H2 & H3).
  set (moved := Enemy.world_x e
                + inject_Z (Enemy.dir e) * Enemy.speed e * (dt / REF_FRAME_MS)) in *.
  unfold patrol_ok. rewrite Hl', Hr', Hs'.
  split; [exact Hl |]. split; [exact Hr |]. split; [exact Hs |].
  destruct (Qlt_le_dec moved (Enemy.left e)) as [Hlt | Hge].
  - destruct (H1 Hlt) as [Hx Hdir]. rewrite Hx, Hdir. split; [lra | auto].
  - destruct (Qlt_le_dec (Enemy.right e) moved) as [Hgt | Hle].
    + destruct (H2 Hge Hgt) as [Hx Hdir]. rewrite Hx, Hdir. split; [lra | auto].
    + destruct (H3 (conj Hge Hle)) as [Hx Hdir]. rewrite Hx, Hdir. split; [lra | auto].
Qed.

Lemma enemy_run_patrol (A : Assets) (x spd : Q) (dts : list Q) :
  forall e, patrol_ok x spd e -> patrol_ok x spd (enemy_run A dts e).
Proof.
  unfold enemy_run. induction dts as [| dt dts IH]; intros e H; simpl; auto.
  apply IH. now apply enemy_update_patrol.
Qed.

Lemma enemy_init_patrol (x spd : Q) : patrol_ok x spd (Enemy.init x spd).
Proof.
  unfold patrol_ok. simpl. repeat split; auto; lra.
Qed.

Lemma fresh_on_patrol (x : Q) (e : Entity) : fresh_entity x e -> on_patrol e.
Proof.
  intros [H | [H | (s & _ & H)]]; subst; simpl; auto.
  exists x, s. apply enemy_init_patrol.
Qed.

Lemma entity_update_on_patrol (A : Assets) (dt : Q) (e : Entity) :
  on_patrol e -> on_patrol (entity_update A dt e).
Proof.
  destruct e as [x | en | x]; simpl; auto.
  intros (x & spd & H). exists x, spd. now apply enemy_update_patrol.
Qed.

Lemma seed_chain_on_patrol (news : list Obj) :
  forall x, seed_chain x news -> Forall (fun o => on_patrol (ent o)) news.
Proof.
  induction news as [| a news IH]; intros x Hch; constructor.
  - destruct Hch as (_ & Hf & _). eapply fresh_on_patrol; eassumption.
  - destruct Hch as (_ & _ & d & _ & Hrest). eapply IH; eassumption.
Qed.

Lemma spawn_chain_on_patrol (news : list Obj) :
  forall h f, spawn_chain h f news -> Forall (fun o => on_patrol (ent o)) news.
Proof.
  induction news as [| a news IH]; intros h f Hch; constructor.
  - destruct Hch as (_ & (d & _ & _ & Hf) & _). eapply fresh_on_patrol; eassumption.
  - destruct Hch as (_ & _ & Hrest). eapply IH; eassumption.
Qed.

Lemma Forall_filter_keeps {X : Type} (P : X -> Prop) (f : X -> bool) (l : list X) :
  Forall P l -> Forall P (filter f l).
Proof.
  rewrite !Forall_forall. intros H x Hx. apply filter_In in Hx as [Hx _]. auto.
Qed.

(** In every state of a session every enemy is on patrol. *)
Lemma reachable_on_patrol (A : Assets) (G : Pygame) (g : Game.t) :
  reachable A G g -> Forall (fun o => on_patrol (ent o)) (Game.entities g).
Proof.
  intros Hr. pose proof Hr as (s & r & inputs & Hrun).
  assert (H : session_inv g /\ Forall (fun o => on_patrol (ent o)) (Game.entities g));
    [| apply H].
  eapply (run_invariant A G
            (fun g => session_inv g /\
                      Forall (fun o => on_patrol (ent o)) (Game.entities g)));
    [| | exact Hrun].
  - intros i g0 g1 [Hinv Hp] Hstep.
    split; [eapply step_inv; eassumption |].
    destruct i as [| dt]; cbn [Game.step] in Hstep.
    + inversion Hstep; subst. unfold Game.on_jump_pressed.
      destruct (Player.alive _); [destruct (Player.jump _ _) |]; exact Hp.
    + destruct (Player.alive (Game.player g0)) eqn:Ha;
        [| rewrite update_dead in Hstep by exact Ha; now inversion Hstep; subst].
      rewrite update_alive in Hstep by exact Ha.
      destruct Hinv as ((Hnd & _) & _).
      destruct (advance_fields A dt g0) as (_ & _ & Hid1 & _).
      assert (Hnd1 : NoDup (map oid (Game.entities (Game.advance A dt g0))))
        by (now rewrite Hid1).
      pose proof (collisions_entities A G _ Hnd1) as He2.
      set (g2 := Game.collisions A G (Game.advance A dt g0)) in *.
      assert (Hnd2 : NoDup (map oid (Game.entities g2)))
        by (rewrite He2; now apply NoDup_map_filter).
      destruct (remove_passed_spec g2 Hnd2) as (He3 & _).
      destruct (speed_increase_fields (Game.remove_passed g2)) as (_ & _ & He4 & _).
      destruct (spawn_if_needed_spec (Game.speed_increase (Game.remove_passed g2)))
        as (g5 & news & Hsp & He5 & _ & _ & Hch & _).
      rewrite Hsp in Hstep. inversion Hstep; subst g5.
      rewrite He5, He4, He3, He2. apply Forall_app. split.
      * apply Forall_filter_keeps, Forall_filter_keeps.
        unfold Game.advance. cbn [Game.entities Game.set_entities Game.set_camera_x
                                  Game.set_player].
        apply Forall_forall. intros o Ho. apply in_map_iff in Ho as (o0 & Ho & Hin).
        subst o. cbn [ent]. apply entity_update_on_patrol.
        revert o0 Hin. apply Forall_forall. exact Hp.
      * eapply spawn_chain_on_patrol; eassumption.
  - split; [apply init_inv |].
    destruct (init_entities s r) as (news & He & _ & _ & _ & Hch).
    rewrite He. eapply seed_chain_on_patrol; eassumption.
Qed.

(** C6, as the code has it.  An enemy created at [x], after any sequence
    of updates with any elapsed times, has its patrol bounds at [x - 120]
    and [x + 120], its position within them and a direction of 1 or -1; so
    every enemy of every state of a session is within its bounds, which
    are 240 apart.  An update whose move would carry the enemy strictly
    past the left bound puts it on that bound heading right, one that
    would carry it strictly past the right bound puts it on that bound
    heading left (with a speed and an elapsed time that are not negative
    the enemy was heading the other way, so the direction is reversed).
    Any other update, also one whose move ends exactly on a bound, moves
    the enemy by [dir * speed * (dt / 16.67)] and keeps its direction: an
    enemy that lands exactly on a bound turns only on a later update. *)
Theorem C6_enemy_patrol_bounds (A : Assets) (x spd : Q) (dts : list Q) :
  let e := enemy_run A dts (Enemy.init x spd) in
  Enemy.left e = x - 120 /\
  Enemy.right e = x + 120 /\
  Enemy.left e <= Enemy.world_x e <= Enemy.right e /\
  (Enemy.dir e = 1 \/ Enemy.dir e = -1)%Z /\
  (forall G g, reachable A G g ->
     forall o en, In o (Game.entities g) -> ent o = EEnemy en ->
       Enemy.left en <= Enemy.world_x en <= Enemy.right en /\
       Enemy.right en == Enemy.left en + 240) /\
  forall dt,
    let moved := Enemy.world_x e
                 + inject_Z (Enemy.dir e) * Enemy.speed e * (dt / REF_FRAME_MS) in
    let e' := Enemy.update A dt e in
    Enemy.left e <= Enemy.world_x e' <= Enemy.right e /\
    (moved < Enemy.left e ->
     Enemy.world_x e' = Enemy.left e /\ Enemy.dir e' = 1%Z /\
     (0 <= spd -> 0 <= dt -> Enemy.dir e = (-1)%Z)) /\
    (Enemy.right e < moved ->
     Enemy.world_x e' = Enemy.right e /\ Enemy.dir e' = (-1)%Z /\
     (0 <= spd -> 0 <= dt -> Enemy.dir e = 1%Z)) /\
    (Enemy.left e <= moved <= Enemy.right e ->
     Enemy.world_x e' = moved /\ Enemy.dir e' = Enemy.dir e).
Proof.
  intros e.
  pose proof (enemy_run_patrol A x spd dts _ (enemy_init_patrol x spd)) as Hp.
  fold e in Hp. destruct Hp as (Hl & Hr & Hs & Hb & Hd).
  split; [exact Hl |]. split; [exact Hr |]. split; [exact Hb |]. split; [exact Hd |].
  split.
  { intros G g Hreach o en Hin Hen.
    pose proof (reachable_on_patrol A G g Hreach) as Hall.
    rewrite Forall_forall in Hall. specialize (Hall o Hin). rewrite Hen in Hall.
    destruct Hall as (x0 & spd0 & Hl0 & Hr0 & _ & Hb0 & _).
    split; [exact Hb0 | rewrite Hl0, Hr0; ring]. }
  intros dt moved e'.
  destruct (enemy_update_patrol A x spd dt e) as (Hl' & Hr' & _ & Hb' & _);
    [unfold patrol_ok; auto |].
  fold e' in Hl', Hr', Hb'.
  destruct (enemy_update_spec A dt e) as (_ & _ & _ & H1 & H2 & H3).
  fold moved in H1, H2, H3. fold e' in H1, H2, H3.
  assert (Ht : 0 <= dt -> 0 <= dt / REF_FRAME_MS).
  { intros Hdt. apply Qle_shift_div_l; unfold REF_FRAME_MS; lra. }
  split; [rewrite Hl, Hr, <- Hl', <- Hr'; exact Hb' |].
  split; [| split].
  - intros Hlt. destruct (H1 Hlt) as [Hx Hdir]. repeat split; auto.
    intros Hspd Hdt. destruct Hd as [Hd | Hd]; [exfalso | exact Hd].
    subst moved. rewrite Hd, Hs in Hlt. specialize (Ht Hdt).
    assert (0 <= spd * (dt / REF_FRAME_MS)) by (apply Qmult_le_0_compat; auto).
    change (inject_Z 1) with 1 in Hlt. lra.
  - intros Hgt. destruct (H2 ltac:(lra) Hgt) as [Hx Hdir]. repeat split; auto.
    intros Hspd Hdt. destruct Hd as [Hd | Hd]; [exact Hd | exfalso].
    subst moved. rewrite Hd, Hs in Hgt. specialize (Ht Hdt).
    assert (0 <= spd * (dt / REF_FRAME_MS)) by (apply Qmult_le_0_compat; auto).
    change (inject_Z (-1)) with (-1) in Hgt. lra.
  - exact H3.
Qed.

(** An enemy at speed 1.667 moves one unit to the left in each update of
    10 ms, as long as it has not reached its left bound. *)
Lemma enemy_walk_left (A : Assets) (k : nat) :
  (k <= 120)%nat ->
  let e := enemy_run A (repeat 10 k) (Enemy.init 1000 1.667) in
  Enemy.world_x e == 1000 - inject_Z (Z.of_nat k) /\
  Enemy.dir e = (-1)%Z /\ Enemy.left e = 1000 - 120 /\
  Enemy.right e = 1000 + 120 /\ Enemy.speed e = 1.667.
Proof.
  induction k as [| k IH]; intros Hk e.
  - subst e. cbn. repeat split; reflexivity.
  - assert (Hrun : e = Enemy.update A 10
                         (enemy_run A (repeat 10 k) (Enemy.init 1000 1.667))).
    { subst e. unfold enemy_run. rewrite <- (app_nil_l (repeat 10 (S k))).
      change (S k) with (1 + k)%nat. rewrite Nat.add_comm, repeat_app.
      cbn [app]. now rewrite fold_left_app. }
    destruct (IH ltac:(lia)) as (Hx & Hd & Hl & Hr & Hs).
    revert Hrun Hx Hd Hl Hr Hs.
    generalize (enemy_run A (repeat 10 k) (Enemy.init 1000 1.667)).
    intros e0 Hrun Hx Hd Hl Hr Hs.
    destruct (enemy_update_spec A 10 e0) as (Hl' & Hr' & Hs' & _ & _ & H3).
    rewrite <- Hrun in Hl', Hr', Hs', H3. cbv zeta in H3.
    assert (Hk1 : inject_Z (Z.of_nat k) + 1 <= 120).
    { change 1 with (inject_Z 1). change 120 with (inject_Z 120).
      rewrite <- inject_Z_plus, <- Zle_Qle. lia. }
    assert (Hk0 : 0 <= inject_Z (Z.of_nat k)).
    { change 0 with (inject_Z 0). rewrite <- Zle_Qle. lia. }
    assert (Em : Enemy.world_x e0
                 + inject_Z (Enemy.dir e0) * Enemy.speed e0 * (10 / REF_FRAME_MS)
                 == 1000 - inject_Z (Z.of_nat k) - 1).
    { rewrite Hx, Hd, Hs. unfold REF_FRAME_MS. field. }
    destruct H3 as [Hx' Hd']; [rewrite Em, Hl, Hr; split; lra |].
    rewrite Hl', Hr', Hs', Hd', Hx', Em, Nat2Z.inj_succ.
    unfold Z.succ. rewrite inject_Z_plus. change (inject_Z 1) with 1.
    split; [ring | auto].
Qed.

(** C6 as stated fails on a move that ends exactly on a bound.  An enemy
    created at 1000 with speed 1.667 (a value [random.uniform(1.5, 2.5)]
    can return) heads left; after 120 updates of 10 ms it stands on its
    left bound, 880, still heading left: the direction was not reversed
    on reaching the bound.  It turns on the next update. *)
Lemma C6_counterexample :
  let e0 := Enemy.init 1000 1.667 in
  let e := enemy_run all_assets (repeat 10 120) e0 in
  let e' := Enemy.update all_assets 10 e in
  Enemy.dir e0 = (-1)%Z /\
  Enemy.world_x e == Enemy.left e /\
  Enemy.dir e = (-1)%Z /\
  ~ Enemy.dir e = (- Enemy.dir e0)%Z /\
  Enemy.world_x e' == Enemy.left e /\
  Enemy.dir e' = 1%Z.
Proof.
  intros e0 e e'.
  destruct (enemy_walk_left all_assets 120 (Nat.le_refl _)) as (Hx & Hd & Hl & Hr & Hs).
  fold e0 in Hx, Hd, Hl, Hr, Hs. fold e in Hx, Hd, Hl, Hr, Hs.
  destruct (enemy_update_spec all_assets 10 e) as (_ & _ & _ & H1 & _).
  fold e' in H1. cbv zeta in H1.
  revert Hx Hd Hl Hr Hs H1. subst e'. generalize e. clear e.
  intros e Hx Hd Hl Hr Hs H1.
  split; [reflexivity |].
  assert (Hxl : Enemy.world_x e == Enemy.left e).
  { rewrite Hx, Hl. reflexivity. }
  split; [exact Hxl |]. split; [exact Hd |].
  split; [rewrite Hd; discriminate |].
  destruct H1 as [Hx' Hd'].
  { rewrite Hd, Hs, Hxl. unfold REF_FRAME_MS.
    assert (E : inject_Z (-1) * 1.667 * (10 / 16.67) == -1) by reflexivity.
    rewrite E. lra. }
  split; [rewrite Hx'; reflexivity | exact Hd'].
Qed.

(** ** C7: gravity and the subdivision of time *)

Lemma apply_gravity_air (dt : Q) (p : Player.t) :
  Player.y (Player.apply_gravity dt p) < GROUND_Y ->
  Player.vel_y (Player.apply_gravity dt p)
  = Player.vel_y p + GRAVITY * (dt / REF_FRAME_MS) /\
  Player.y (Player.apply_gravity dt p)
  = Player.y p + (Player.vel_y p + GRAVITY * (dt / REF_FRAME_MS)) * (dt / REF_FRAME_MS).
Proof.
  unfold Player.apply_gravity.
  cbn [Player.y Player.vel_y Player.set_y Player.set_vel_y Player.state].
  case_Qgeb (Player.y p + (Player.vel_y p + GRAVITY * (dt / REF_FRAME_MS))
                          * (dt / REF_FRAME_MS)) GROUND_Y.
  - intros H. exfalso. destruct (PState_eqb _ _); cbn in H; lra.
  - intros _. split; reflexivity.
Qed.

(** C7, as the code has it.  [apply_gravity] scales by [dt / 16.67], but
    one step of [dt] and two steps of [dt / 2] do not agree.  While the
    player stays in the air through all of them, and for every [dt] above
    zero, the single step ends lower (a larger [y]) than the two half
    steps; with [t = dt / 16.67] the gap lies between [0.17 * t^2] and
    [0.18 * t^2], and it is more than 0.0006 for every [dt] of a
    millisecond or more.  The bounds are inequalities with room to spare,
    not equalities: the code computes in binary floating point. *)
Theorem C7_gravity_subdivision (p : Player.t) (dt : Q) :
  let t := dt / REF_FRAME_MS in
  let one := Player.apply_gravity dt p in
  let half := Player.apply_gravity (dt / 2) p in
  let two := Player.apply_gravity (dt / 2) half in
  0 < dt ->
  Player.y one < GROUND_Y ->
  Player.y half < GROUND_Y ->
  Player.y two < GROUND_Y ->
  Player.y two < Player.y one /\
  0.17 * (t * t) < Player.y one - Player.y two /\
  Player.y one - Player.y two < 0.18 * (t * t) /\
  (1 <= dt -> 0.0006 < Player.y one - Player.y two).
Proof.
  intros t one half two Hdt H1 Hh H2.
  destruct (apply_gravity_air dt p H1) as [Hv1 Hy1].
  destruct (apply_gravity_air (dt / 2) p Hh) as [Hvh Hyh].
  destruct (apply_gravity_air (dt / 2) half H2) as [Hv2 Hy2].
  fold one in Hv1, Hy1. fold half in Hvh, Hyh. fold two in Hv2, Hy2.
  assert (E : Player.y one - Player.y two == (7 # 40) * (t * t)).
  { rewrite Hy1, Hy2, Hvh, Hyh. subst t. unfold REF_FRAME_MS, GRAVITY. field. }
  assert (Et : t == dt * (100 # 1667)) by (subst t; unfold REF_FRAME_MS; field).
  assert (Ht : 0 < t) by (rewrite Et; lra).
  assert (Htt : 0 < t * t) by (apply Qmult_lt_0_compat; exact Ht).
  assert (Hlow : 1 <= dt -> (100 # 1667) * (100 # 1667) <= t * t).
  { intros H. assert (Hc : (100 # 1667) <= t) by (rewrite Et; lra).
    apply Qmult_le_compat_nonneg; split; (lra || exact Hc). }
  revert Htt E Hlow. generalize (t * t). generalize (Player.y one), (Player.y two).
  intros y1 y2 tt Htt E Hlow.
  repeat split; lra.
Qed.

(** The claim at the top of a jump, for one reference frame of time: the
    single step ends lower than the two half steps. *)
Lemma C7_witness :
  let one := Player.apply_gravity 16.67 airborne_player in
  let half := Player.apply_gravity (16.67 / 2) airborne_player in
  let two := Player.apply_gravity (16.67 / 2) half in
  (0 < 16.67 /\
   Player.y one < GROUND_Y /\ Player.y half < GROUND_Y /\ Player.y two < GROUND_Y) /\
  Player.y two < Player.y one /\
  0.0006 < Player.y one - Player.y two.
Proof.
  intros one half two.
  assert (H0 : 0 < 16.67) by reflexivity.
  assert (H1 : Player.y one < GROUND_Y) by (vm_compute; reflexivity).
  assert (Hh : Player.y half < GROUND_Y) by (vm_compute; reflexivity).
  assert (H2 : Player.y two < GROUND_Y) by (vm_compute; reflexivity).
  split; [auto |].
  destruct (C7_gravity_subdivision airborne_player 16.67 H0 H1 Hh H2)
    as (Hlt & _ & _ & Hgap).
  split; [exact Hlt |]. apply Hgap. discriminate.
Defined.

(** C7 as stated fails: at the top of a jump, one step of 16.67 ms takes
    the player to [y = 300.7], two steps of 8.335 ms to [y = 300.525]. *)
Lemma C7_counterexample :
  let one := Player.apply_gravity 16.67 airborne_player in
  let two := Player.apply_gravity (16.67 / 2)
               (Player.apply_gravity (16.67 / 2) airborne_player) in
  Player.on_ground airborne_player = false /\
  Player.y one == 300.7 /\
  Player.y two == 300.525 /\
  ~ Player.y one == Player.y two.
Proof.
  intros one two.
  split; [reflexivity |].
  split; [apply Qeq_bool_iff; vm_compute; reflexivity |].
  split; [apply Qeq_bool_iff; vm_compute; reflexivity |].
  intros H. apply Qeq_bool_iff in H. vm_compute in H. discriminate.
Qed.

(** ** C8: the initial world *)

Lemma seed_chain_fresh (news : list Obj) :
  forall (x : Z) (o : Obj),
  seed_chain x news -> In o news ->
  exists k : Z, (x <= k)%Z /\ fresh_entity (inject_Z k) (ent o).
Proof.
  induction news as [| a news IH]; intros x o Hch Hin; [contradiction |].
  destruct Hch as (_ & Hfr & d & Hd & Hrest). destruct Hin as [Hin | Hin].
  - subst. exists x. split; [lia | exact Hfr].
  - destruct (IH (x + d)%Z o Hrest Hin) as (k & Hk & Hf).
    exists k. split; [lia | exact Hf].
Qed.






(** ** C9: the first frame *)

Lemma filter_none {X : Type} (f : X -> bool) (l : list X) :
  (forall x, In x l -> f x = false) -> filter f l = [].
Proof.
  induction l as [| a l IH]; intros H; simpl; auto.
  rewrite (H a) by now left. apply IH. intros x Hx. apply H. now right.
Qed.

Lemma filter_length_le {X : Type} (f : X -> bool) (l : list X) :
  (List.length (filter f l) <= List.length l)%nat.
Proof.
  induction l as [| a l IH]; simpl; auto. destruct (f a); simpl; lia.
Qed.

(** An updated entity is no more than 120 behind where it was created. *)
Lemma entity_update_lower (A : Assets) (dt x : Q) (e : Entity) :
  fresh_entity x e -> x - 120 <= entity_world_x (entity_update A dt e).
Proof.
  intros [H | [H | (s & _ & H)]]; subst; simpl entity_update;
    cbn [entity_world_x]; try lra.
  destruct (enemy_update_patrol A x s dt _ (enemy_init_patrol x s))
    as (Hl & _ & _ & Hb & _).
  rewrite Hl in Hb. apply Hb.
Qed.

Section FirstFrame.
Variable A : Assets.
Variable G : Pygame.
Variable s : Settings.
Variable r : Random.t.
Variable dt : Q.
Variable g0 : Game.t.
Hypothesis Hnew : g0 = Game.init s r.

Lemma first_frame_player_x :
  Player.world_x (Game.player (Game.collisions A G (Game.advance A dt g0)))
  = 100 + Game.base_speed g0 * (dt / REF_FRAME_MS).
Proof.
  destruct (init_inv s r) as (_ & Hok & Hs & _).
  destruct (init_fields s r) as (Hp & _ & _ & Hsp & _ & _ & Hpl).
  rewrite <- Hnew in Hok, Hs, Hp, Hsp, Hpl.
  destruct (advance_fields A dt g0) as (Hp1 & _ & _ & _ & _ & _ & _ & _ & _ & Hpl1).
  destruct (update_keeps A dt (Game.speed g0) (Game.player g0)) as [Ha Hh].
  destruct (collisions_player A G (Game.advance A dt g0)) as (_ & _ & Hx).
  - rewrite Hp1. unfold health_ok in *. now rewrite Ha, Hh.
  - now rewrite Hpl1.
  - rewrite Hx, Hp1, update_world_x, Hsp, Hp. reflexivity.
Qed.

Lemma advance_entities (g : Game.t) :
  Game.entities (Game.advance A dt g)
  = map (fun o => mkObj (oid o) (entity_update A dt (ent o))) (Game.entities g).
Proof. reflexivity. Qed.

Lemma first_frame_entities :
  let g2 := Game.collisions A G (Game.advance A dt g0) in
  NoDup (map oid (Game.entities g2)) /\
  (List.length (Game.entities g2) <= 5)%nat /\
  (forall o, In o (Game.entities g2) -> 480 <= obj_world_x o).
Proof.
  intros g2.
  destruct (init_inv s r) as ((Hnd & _) & _).
  destruct (init_entities s r) as (news & He & Hlen & _ & _ & Hch).
  rewrite <- Hnew in Hnd, He.
  destruct (advance_fields A dt g0) as (_ & _ & Hid1 & Hlen1 & _).
  assert (Hnd1 : NoDup (map oid (Game.entities (Game.advance A dt g0))))
    by (now rewrite Hid1).
  pose proof (collisions_entities A G _ Hnd1) as He2. fold g2 in He2.
  rewrite He2. split; [now apply NoDup_map_filter |]. split.
  - eapply Nat.le_trans; [apply filter_length_le |]. rewrite Hlen1, He. lia.
  - intros o Hin. apply filter_In in Hin as [Hin _].
    rewrite advance_entities, He in Hin.
    apply in_map_iff in Hin as (o0 & Ho & Hin0).
    destruct (seed_chain_fresh news 600 o0 Hch Hin0) as (k & Hk & Hf).
    subst o. unfold obj_world_x. cbn [ent].
    pose proof (entity_update_lower A dt _ _ Hf) as Hlow.
    assert (H : inject_Z 600 <= inject_Z k) by (rewrite <- Zle_Qle; lia).
    change (inject_Z 600) with 600 in H. lra.
Qed.

Lemma first_frame_score :
  let g3 := Game.remove_passed (Game.collisions A G (Game.advance A dt g0)) in
  (0 <= Game.score g3 <= 5)%Z /\
  (0 <= dt <= 2000 -> Game.score g3 = 0%Z).
Proof.
  intros g3. destruct first_frame_entities as (Hnd & Hlen & Hlow).
  destruct (init_fields s r) as (_ & _ & _ & _ & Hsc & _). rewrite <- Hnew in Hsc.
  destruct (advance_fields A dt g0) as (_ & _ & _ & _ & _ & _ & Hsc1 & _).
  destruct (collisions_fields A G (Game.advance A dt g0)) as (_ & _ & _ & Hsc2 & _).
  set (g2 := Game.collisions A G (Game.advance A dt g0)) in *.
  assert (H0 : Game.score g2 = 0%Z) by congruence.
  split.
  - pose proof (remove_passed_score g2) as H. fold g3 in H. lia.
  - intros Hdt. destruct (remove_passed_spec g2 Hnd) as (_ & H). fold g3 in H.
    rewrite H, H0, filter_none; [reflexivity |].
    intros o Hin. apply andb_false_intro1. apply Qltb_ge.
    unfold g2. rewrite first_frame_player_x. specialize (Hlow o Hin).
    pose proof (base_speed_range s r) as Hb. rewrite <- Hnew in Hb.
    assert (Ht : 0 <= dt / REF_FRAME_MS /\ dt / REF_FRAME_MS <= 120).
    { unfold REF_FRAME_MS. split.
      - apply Qle_shift_div_l; lra.
      - apply Qle_shift_div_r; lra. }
    assert (Game.base_speed g0 * (dt / REF_FRAME_MS) <= 5 * 120) by nra.
    lra.
Qed.

(** The first frame of a new game. *)
Lemma first_frame :
  let g3 := Game.remove_passed (Game.collisions A G (Game.advance A dt g0)) in
  exists g',
    Game.update A G dt g0 = Some g' /\
    Game.base_speed g' = Game.base_speed g0 /\
    Game.speed g' = Game.base_speed g0 + SPEED_INCREASE_STEP /\
    Game.last_milestone g' = 0%Z /\
    Game.score g' = Game.score g3 /\
    Player.world_x (Game.player g') = 100 + Game.base_speed g0 * (dt / REF_FRAME_MS).
Proof.
  intros g3.
  destruct (init_fields s r) as (Hp & _ & _ & Hsp & _ & Hlm & _).
  rewrite <- Hnew in Hp, Hsp, Hlm.
  assert (Ha : Player.alive (Game.player g0) = true) by (now rewrite Hp).
  destruct (update_alive_speed A G dt g0 Ha)
    as (g' & Hup & Hsp3 & Hlm3 & Hb & Hsc & Hsp' & Hlm').
  fold g3 in Hsp3, Hlm3, Hsc, Hsp', Hlm'.
  destruct first_frame_score as (Hsc3 & _). fold g3 in Hsc3.
  destruct (speed_increase_spec g3) as [_ Hnew'].
  assert (Hm : (Game.score g3 / SCORE_STEP = 0)%Z)
    by (apply Z.div_small; unfold SCORE_STEP; lia).
  rewrite Hm, Hlm3, Hlm, Hsp3, Hsp in Hnew'.
  destruct (Hnew' ltac:(lia)) as (H1 & H2 & _).
  pose proof (base_speed_range s r) as Hbr. rewrite <- Hnew in Hbr.
  exists g'. split; [exact Hup |]. split; [exact Hb |].
  split; [rewrite Hsp'; apply H2; unfold SPEED_INCREASE_STEP; lra |].
  split; [rewrite Hlm'; exact H1 |]. split; [exact Hsc |].
  rewrite <- first_frame_player_x.
  rewrite update_alive in Hup by exact Ha. fold g3 in Hup.
  destruct (spawn_if_needed_spec (Game.speed_increase g3))
    as (g5 & news & Hrun & _ & _ & _ & _ & _ & Hs).
  rewrite Hrun in Hup. inversion Hup; subst g5.
  destruct Hs as (Hp5 & _). rewrite Hp5.
  destruct (speed_increase_fields g3) as (Hp4 & _). rewrite Hp4.
  destruct (remove_passed_fields (Game.collisions A G (Game.advance A dt g0)))
    as (Hp3 & _). fold g3 in Hp3. now rewrite Hp3.
Qed.

End FirstFrame.

(** C9, as the code has it.  The first frame of a new game, whatever its
    elapsed time, ends with the speed at the base speed plus one step of
    0.5 and with milestone 0 recorded: the score of that frame is at most
    5 (and 0 when the frame lasts no more than two seconds), so its
    milestone 0 exceeds the initial -1.  In that frame the player advances
    by the bare base speed, [base_speed * (dt / 16.67)], because the ramp
    runs after the player's update; over all later inputs the speed is at
    least the base speed plus one step. *)
Theorem C9_first_frame (A : Assets) (G : Pygame) (s : Settings) (r : Random.t) (dt : Q) :
  let g0 := Game.init s r in
  Game.speed g0 = Game.base_speed g0 /\
  Game.score g0 = 0%Z /\
  Game.last_milestone g0 = (-1)%Z /\
  exists g1,
    Game.update A G dt g0 = Some g1 /\
    Game.speed g1 = Game.base_speed g0 + SPEED_INCREASE_STEP /\
    Game.last_milestone g1 = 0%Z /\
    (0 <= Game.score g1 <= 5)%Z /\
    (0 <= dt <= 2000 -> Game.score g1 = 0%Z) /\
    Player.world_x (Game.player g1)
    = Player.world_x (Game.player g0) + Game.base_speed g0 * (dt / REF_FRAME_MS) /\
    forall inputs, exists g2,
      Game.run A G inputs g1 = Some g2 /\
      Game.base_speed g0 + SPEED_INCREASE_STEP <= Game.speed g2.
Proof.
  intros g0. assert (Hnew : g0 = Game.init s r) by reflexivity.
  clearbody g0.
  destruct (init_fields s r) as (Hp & _ & _ & Hsp & Hsc & Hlm & _).
  rewrite <- Hnew in Hp, Hsp, Hsc, Hlm.
  split; [exact Hsp |]. split; [exact Hsc |]. split; [exact Hlm |].
  destruct (first_frame A G s r dt g0 Hnew) as (g1 & Hup & Hb & Hsp1 & Hlm1 & Hsc1 & Hx).
  destruct (first_frame_score A G s r dt g0 Hnew) as (Hr1 & Hr2).
  exists g1. split; [exact Hup |]. split; [exact Hsp1 |]. split; [exact Hlm1 |].
  split; [rewrite Hsc1; exact Hr1 |].
  split; [intros Hdt; rewrite Hsc1; now apply Hr2 |].
  split; [rewrite Hx, Hp; reflexivity |].
  intros inputs.
  pose proof (base_speed_range s r) as Hbr. rewrite <- Hnew in Hbr.
  destruct (run_speed A G inputs g1) as (g2 & Hrun & Hle & _).
  - rewrite Hsp1. unfold SPEED_INCREASE_STEP. lra.
  - exists g2. split; [exact Hrun |]. now rewrite <- Hsp1.
Qed.

(** C9 as stated says the speed of play is never the bare base speed.  In
    the first frame of a new game, 16.67 ms long, the player moves from
    100 to 104: by the base speed 4, not by 4.5. *)
Lemma C9_counterexample :
  exists g1,
    Game.update all_assets pygame_sprites 16.67 new_game = Some g1 /\
    Game.base_speed new_game == 4 /\
    Player.world_x (Game.player g1) - Player.world_x (Game.player new_game)
    == Game.base_speed new_game * (16.67 / REF_FRAME_MS) /\
    ~ (Game.base_speed new_game + SPEED_INCREASE_STEP) * (16.67 / REF_FRAME_MS)
      <= Player.world_x (Game.player g1) - Player.world_x (Game.player new_game).
Proof.
  eexists. split; [vm_compute; reflexivity |].
  split; [apply Qeq_bool_iff; vm_compute; reflexivity |].
  split; [apply Qeq_bool_iff; vm_compute; reflexivity |].
  intros H. apply Qle_bool_iff in H. vm_compute in H. discriminate.
Qed.

(** ** C10: unit damage never reaches [die] *)

(** C10.  On a player whose health is in range, no sequence of
    [take_damage()] calls plays the death sound, whatever is loaded: when
    such a call ends the player's life, health was exactly 1 and the call
    took the silent branch.  The death sound of [take_damage(amt)] needs
    [amt >= 2] on a player with two points of health at least.  In the
    simulation, which only passes the default amount, no session ever
    plays the death sound. *)
Theorem C10_unit_damage_never_reaches_die (A : Assets) (p : Player.t) :
  health_ok p ->
  (forall n, ~ In SfxDeath (snd (take_damage_n A n p))) /\
  (Player.alive p = true ->
   Player.alive (fst (Player.take_damage A 1 p)) = false ->
   Player.health p = 1%Z /\ Player.take_damage A 1 p = (silent_death p, [])) /\
  (forall amt, In SfxDeath (snd (Player.take_damage A amt p)) ->
               (2 <= amt)%Z /\ (2 <= Player.health p)%Z) /\
  (forall G g, reachable A G g -> ~ In SfxDeath (Game.played g)).
Proof.
  intros Hok.
  split; [intros n; now apply take_damage_n_no_death |].
  split.
  { intros Ha Hd. destruct Hok as [Hr Hal].
    assert (0 < Player.health p)%Z by (now apply Hal).
    destruct (Z.eq_dec (Player.health p) 1) as [H1 | H1].
    - split; [exact H1 | now apply take_damage_at_one].
    - rewrite take_damage_above_one in Hd by (auto; lia).
      cbn in Hd. congruence. }
  split.
  { intros amt Hin.
    destruct (take_damage_death_sound A amt p) as (H1 & H2 & _); auto.
    intros Ha. now apply Hok. }
  intros G g Hr. apply (reachable_inv A G g Hr).
Qed.

(** The claim on a new player: three calls, two hit sounds, no death
    sound. *)
Lemma C10_witness :
  health_ok (Player.init 100) /\
  ~ In SfxDeath (snd (take_damage_n all_assets 3 (Player.init 100))) /\
  snd (take_damage_n all_assets 3 (Player.init 100)) = [SfxHit; SfxHit].
Proof.
  split; [apply init_health_ok |].
  split; [| reflexivity].
  exact (proj1 (C10_unit_damage_never_reaches_die all_assets (Player.init 100)
                  (init_health_ok 100)) 3%nat).
Defined.

(** * Further properties of the code *)

(** ** The player of a session is a new player after some calls *)

Lemma player_calls_app (A : Assets) (c1 c2 : list PlayerCall) (p : Player.t) :
  fst (player_calls A (c1 ++ c2) p)
  = fst (player_calls A c2 (fst (player_calls A c1 p))).
Proof.
  revert p. induction c1 as [| c c1 IH]; intros p; cbn [app player_calls fst]; auto.
  destruct (player_call A c p) as [p1 s1].
  specialize (IH p1).
  destruct (player_calls A (c1 ++ c2) p1) as [p2 s2].
  destruct (player_calls A c1 p1) as [p3 s3]. cbn [fst] in *. exact IH.
Qed.

Lemma player_calls_one (A : Assets) (c : PlayerCall) (p : Player.t) :
  fst (player_calls A [c] p) = fst (player_call A c p).
Proof.
  cbn [player_calls]. now destruct (player_call A c p).
Qed.

Lemma collide_fold_calls (A : Assets) (G : Pygame) (p_rect : Rect G) (cam : Q)
    (l : list Obj) :
  forall (p : Player.t) (ents : list Obj) (snd0 : list Sfx),
  exists cs,
    fst (fst (fold_left (Game.collide A G p_rect cam) l (p, ents, snd0)))
    = fst (player_calls A cs p).
Proof.
  induction l as [| e l IH]; intros p ents snd0; cbn [fold_left].
  - now exists [].
  - assert (Hstep : exists c1 ents1 snd1,
               Game.collide A G p_rect cam (p, ents, snd0) e
               = (fst (player_calls A c1 p), ents1, snd1)).
    { unfold Game.collide. destruct (colliderect G p_rect _);
        [| now exists [], ents, snd0].
      destruct (ent e).
      - now exists [], ents, snd0.
      - exists [CallTakeDamage]. rewrite player_calls_one. cbn [player_call].
        destruct (Player.take_damage A 1 p) as [p1 s1]. now eexists _, _.
      - exists [CallHeal]. rewrite player_calls_one. cbn [player_call].
        destruct (Player.heal A 1 p) as [p1 s1]. now eexists _, _. }
    destruct Hstep as (c1 & ents1 & snd1 & Hstep). rewrite Hstep.
    destruct (IH (fst (player_calls A c1 p)) ents1 snd1) as (c2 & Hc2).
    exists (c1 ++ c2). now rewrite player_calls_app.
Qed.

Lemma collisions_player_calls (A : Assets) (G : Pygame) (g : Game.t) :
  exists cs,
    Game.player (Game.collisions A G g) = fst (player_calls A cs (Game.player g)).
Proof.
  destruct (collide_fold_calls A G (player_rect G (Game.player g) (Game.camera_x g))
              (Game.camera_x g) (Game.entities g) (Game.player g) (Game.entities g) [])
    as (cs & H).
  exists cs. rewrite <- H. unfold Game.collisions.
  now destruct (fold_left _ _ _) as [[p ents] snd0].
Qed.

(** The player of every state of a session is the new player after some
    of the calls the program makes. *)
Lemma reachable_player_calls (A : Assets) (G : Pygame) (g : Game.t) :
  reachable A G g ->
  exists cs, Game.player g = fst (player_calls A cs (Player.init 100)).
Proof.
  intros (s & r & inputs & Hrun).
  eapply (run_invariant A G
            (fun g => exists cs, Game.player g = fst (player_calls A cs (Player.init 100))));
    [| | exact Hrun].
  - intros i g0 g1 (cs & Hcs) Hstep. destruct i as [| dt]; cbn [Game.step] in Hstep.
    + inversion Hstep; subst. unfold Game.on_jump_pressed.
      destruct (Player.alive (Game.player g0)); [| now exists cs].
      exists (cs ++ [CallJump]).
      rewrite player_calls_app, player_calls_one, <- Hcs. cbn [player_call].
      now destruct (Player.jump A (Game.player g0)).
    + destruct (Player.alive (Game.player g0)) eqn:Ha;
        [| rewrite update_dead in Hstep by exact Ha; inversion Hstep; subst; now exists cs].
      rewrite update_alive in Hstep by exact Ha.
      match type of Hstep with Game.spawn_if_needed ?g4 = _ =>
        destruct (spawn_if_needed_spec g4) as (g5 & news & Hsp & _ & _ & _ & _ & _ & Hs)
      end.
      rewrite Hsp in Hstep. inversion Hstep; subst g5.
      destruct Hs as (Hp5 & _). rewrite Hp5.
      match goal with |- context [Game.speed_increase ?g3] =>
        destruct (speed_increase_fields g3) as (Hp4 & _); rewrite Hp4
      end.
      match goal with |- context [Game.remove_passed ?g2] =>
        destruct (remove_passed_fields g2) as (Hp3 & _); rewrite Hp3
      end.
      destruct (collisions_player_calls A G (Game.advance A dt g0)) as (c2 & Hc2).
      destruct (advance_fields A dt g0) as (Hp1 & _).
      exists (cs ++ [CallUpdate dt (Game.speed g0)] ++ c2).
      rewrite Hc2, Hp1, !player_calls_app, player_calls_one, <- Hcs. reflexivity.
  - exists []. destruct (init_fields s r) as (Hp & _). now rewrite Hp.
Qed.

(** ** The player's physics and states *)

Section PlayerPhysics.
Variable A : Assets.

Lemma update_animation_physics (dt : Q) (p : Player.t) :
  Player.y (Player.update_animation A dt p) = Player.y p /\
  Player.vel_y (Player.update_animation A dt p) = Player.vel_y p /\
  Player.state (Player.update_animation A dt p) = Player.state p.
Proof.
  unfold Player.update_animation.
  destruct (Player.state p) eqn:Hs; cbn; auto;
    destruct (Qgeb _ _); cbn; auto.
Qed.

(** What [update] does to height, velocity and state is what
    [apply_gravity] does, then the promotion to [Run] on the ground. *)
Lemma update_physics (dt s : Q) (p : Player.t) :
  let p1 := Player.apply_gravity dt p in
  Player.y (Player.update A dt s p) = Player.y p1 /\
  Player.vel_y (Player.update A dt s p) = Player.vel_y p1 /\
  Player.state (Player.update A dt s p)
  = if Player.on_ground p1
       && negb (PState_eqb (Player.state p1) Dead || PState_eqb (Player.state p1) Jump)
    then Run else Player.state p1.
Proof.
  intros p1. unfold Player.update. fold p1.
  cbn [Player.y Player.vel_y Player.state Player.set_world_x].
  match goal with |- context [Player.update_animation A dt ?q] =>
    destruct (update_animation_physics dt q) as (Hy & Hv & Hs); rewrite Hy, Hv, Hs
  end.
  destruct (_ && _); cbn; auto.
Qed.

(** [apply_gravity] either lands the player or leaves him in the air. *)
Lemma apply_gravity_cases (dt : Q) (p : Player.t) :
  let v := Player.vel_y p + GRAVITY * (dt / REF_FRAME_MS) in
  let h := Player.y p + v * (dt / REF_FRAME_MS) in
  let p1 := Player.apply_gravity dt p in
  (GROUND_Y <= h /\ Player.y p1 = GROUND_Y /\ Player.vel_y p1 = 0 /\
   Player.on_ground p1 = true /\
   Player.state p1 = (if PState_eqb (Player.state p) Jump then Run else Player.state p))
  \/
  (h < GROUND_Y /\ Player.y p1 = h /\ Player.vel_y p1 = v /\
   Player.on_ground p1 = false /\ Player.state p1 = Player.state p).
Proof.
  intros v h p1. subst p1. unfold Player.apply_gravity, Player.on_ground.
  cbn [Player.y Player.vel_y Player.set_y Player.set_vel_y Player.state].
  fold v. fold h. case_Qgeb h GROUND_Y.
  - left. split; [exact Hcmp |].
    destruct (PState_eqb (Player.state p) Jump); cbn; repeat split; auto;
      apply Qgeb_ge, Qle_refl.
  - right. cbn. repeat split; auto. now apply Qgeb_lt.
Qed.

Lemma apply_gravity_le_ground (dt : Q) (p : Player.t) :
  Player.y (Player.apply_gravity dt p) <= GROUND_Y.
Proof.
  destruct (apply_gravity_cases dt p) as [(_ & Hy & _) | (Hh & Hy & _)];
    rewrite Hy; [apply Qle_refl | now apply Qlt_le_weak].
Qed.

Lemma take_damage_physics (amt : Z) (p : Player.t) :
  Player.y (fst (Player.take_damage A amt p)) = Player.y p /\
  Player.vel_y (fst (Player.take_damage A amt p)) = Player.vel_y p.
Proof.
  unfold Player.take_damage, Player.die.
  destruct (negb _); auto. destruct (_ =? _)%Z; auto.
  cbn. destruct (_ <=? _)%Z; cbn; auto.
Qed.

Lemma heal_physics (amt : Z) (p : Player.t) :
  Player.y (fst (Player.heal A amt p)) = Player.y p /\
  Player.vel_y (fst (Player.heal A amt p)) = Player.vel_y p.
Proof.
  unfold Player.heal. destruct (negb _); auto.
Qed.

Lemma jump_y (p : Player.t) :
  Player.y (fst (Player.jump A p)) = Player.y p.
Proof.
  unfold Player.jump. destruct (negb _); auto. destruct (Player.on_ground p); auto.
Qed.

Lemma player_call_le_ground (c : PlayerCall) (p : Player.t) :
  Player.y p <= GROUND_Y -> Player.y (fst (player_call A c p)) <= GROUND_Y.
Proof.
  intros H. destruct c; cbn [player_call fst].
  - now rewrite jump_y.
  - now rewrite (proj1 (take_damage_physics 1 p)).
  - now rewrite (proj1 (heal_physics 1 p)).
  - rewrite (proj1 (update_physics dt game_speed p)). apply apply_gravity_le_ground.
Qed.

(** A property of the new player that every call keeps holds after any
    calls. *)
Lemma player_calls_invariant (P : Player.t -> Prop) :
  (forall c p, P p -> P (fst (player_call A c p))) ->
  forall cs p, P p -> P (fst (player_calls A cs p)).
Proof.
  intros Hstep. induction cs as [| c cs IH]; intros p HP; cbn [player_calls]; auto.
  pose proof (Hstep c p HP) as H1.
  destruct (player_call A c p) as [p1 s1]. cbn [fst] in H1.
  specialize (IH p1 H1). now destruct (player_calls A cs p1).
Qed.

End PlayerPhysics.

(** X1.  The player is never below the ground: [y] never exceeds [GROUND_Y],
    whatever the calls and the elapsed times, in every state of every
    session. *)
Theorem player_never_below_ground (A : Assets) :
  (forall dt p, Player.y (Player.apply_gravity dt p) <= GROUND_Y) /\
  (forall x cs, Player.y (fst (player_calls A cs (Player.init x))) <= GROUND_Y) /\
  (forall G g, reachable A G g -> Player.y (Game.player g) <= GROUND_Y).
Proof.
  assert (H : forall x cs, Player.y (fst (player_calls A cs (Player.init x))) <= GROUND_Y).
  { intros x cs. apply (player_calls_invariant A (fun p => Player.y p <= GROUND_Y)).
    - intros c p. apply player_call_le_ground.
    - apply Qle_refl. }
  split; [apply apply_gravity_le_ground |]. split; [exact H |].
  intros G g Hr. destruct (reachable_player_calls A G g Hr) as (cs & Hcs).
  rewrite Hcs. apply H.
Qed.

(** ** Jumping *)

Lemma jump_on_ground (A : Assets) (p : Player.t) :
  Player.alive p = true -> Player.on_ground p = true ->
  Player.jump A p
  = (Player.set_state Jump
       (Player.set_world_x (Player.world_x p + 10)
          (Player.set_vel_y (JUMP_FORCE * 1.10) p)),
     play (player_jump_sfx A) SfxJump).
Proof.
  intros Ha Hg. unfold Player.jump. now rewrite Ha, Hg.
Qed.

Lemma jump_in_air (A : Assets) (p : Player.t) :
  Player.on_ground p = false -> Player.jump A p = (p, []).
Proof.
  intros Hg. unfold Player.jump. rewrite Hg. now destruct (negb _).
Qed.

(** X2.  No double jump once a frame has passed.  A living player on the ground
    who jumps is, after the next update of between 0 and 366 ms, in the
    air and in state [Jump], and from there [jump] changes nothing and
    plays nothing. *)
Theorem jump_then_no_double_jump (A : Assets) (p : Player.t) (dt s : Q) :
  Player.alive p = true ->
  Player.on_ground p = true ->
  Player.y p <= GROUND_Y ->
  0 < dt -> dt < 366 ->
  let p1 := fst (Player.jump A p) in
  let p2 := Player.update A dt s p1 in
  Player.state p1 = Jump /\
  Player.vel_y p1 = JUMP_FORCE * 1.10 /\
  Player.y p2 < GROUND_Y /\
  Player.on_ground p2 = false /\
  Player.state p2 = Jump /\
  Player.jump A p2 = (p2, []).
Proof.
  intros Ha Hg Hy Hdt0 Hdt1 p1 p2.
  assert (Hp1 : p1 = Player.set_state Jump
                       (Player.set_world_x (Player.world_x p + 10)
                          (Player.set_vel_y (JUMP_FORCE * 1.10) p)))
    by (subst p1; now rewrite jump_on_ground).
  assert (Hs1 : Player.state p1 = Jump) by (now rewrite Hp1).
  assert (Hv1 : Player.vel_y p1 = JUMP_FORCE * 1.10) by (now rewrite Hp1).
  assert (Hy1 : Player.y p1 = Player.y p) by (now rewrite Hp1).
  assert (Ht : 0 < dt / REF_FRAME_MS /\ dt / REF_FRAME_MS < 22).
  { unfold REF_FRAME_MS. split.
    - apply Qlt_shift_div_l; lra.
    - apply Qlt_shift_div_r; lra. }
  destruct (update_physics A dt s p1) as (Hy2 & Hv2 & Hs2). fold p2 in Hy2, Hv2, Hs2.
  destruct (apply_gravity_cases dt p1) as [(Hh & _) | (Hh & Hya & Hva & Hga & Hsa)].
  - exfalso. rewrite Hv1, Hy1 in Hh. unfold JUMP_FORCE, GRAVITY in Hh.
    apply Qgeb_ge in Hg. nra.
  - rewrite Hga in Hs2. cbn [andb] in Hs2. rewrite Hsa, Hs1 in Hs2.
    assert (Hlt : Player.y p2 < GROUND_Y) by (rewrite Hy2, Hya; exact Hh).
    assert (Hg2 : Player.on_ground p2 = false) by (now apply Qgeb_lt).
    repeat split; auto. now apply jump_in_air.
Qed.

(** The claim on a new player and one reference frame. *)
Lemma jump_then_no_double_jump_witness :
  let p1 := fst (Player.jump all_assets (Player.init 100)) in
  let p2 := Player.update all_assets 16.67 4 p1 in
  Player.on_ground (Player.init 100) = true /\
  Player.on_ground p2 = false /\
  Player.jump all_assets p2 = (p2, []).
Proof.
  intros p1 p2.
  assert (Hg : Player.on_ground (Player.init 100) = true) by (vm_compute; reflexivity).
  assert (Hy : Player.y (Player.init 100) <= GROUND_Y) by (apply Qle_bool_iff; vm_compute; reflexivity).
  assert (H0 : 0 < 16.67) by (vm_compute; reflexivity).
  assert (H1 : 16.67 < 366) by (vm_compute; reflexivity).
  destruct (jump_then_no_double_jump all_assets (Player.init 100) 16.67 4
              eq_refl Hg Hy H0 H1) as (_ & _ & _ & Hg2 & _ & Hj).
  split; [exact Hg | split; [exact Hg2 | exact Hj]].
Defined.

(** X3.  [jump] does not lift the player: he is still on the ground after it,
    so a second jump before the next update takes effect again.  Two jump
    keys in one turn of the main loop move a living player on the ground
    20 forward and play the jump sound twice: with the sound loaded the
    sounds played grow by exactly two jump sounds, without it by nothing. *)
Theorem jump_twice_before_update (A : Assets) (g : Game.t) :
  Player.alive (Game.player g) = true ->
  Player.on_ground (Game.player g) = true ->
  let g1 := Game.on_jump_pressed A g in
  let g2 := Game.on_jump_pressed A g1 in
  Player.on_ground (Game.player g1) = true /\
  Player.world_x (Game.player g1) = Player.world_x (Game.player g) + 10 /\
  Player.world_x (Game.player g2) = Player.world_x (Game.player g) + 10 + 10 /\
  Player.vel_y (Game.player g2) = JUMP_FORCE * 1.10 /\
  Game.played g2
  = Game.played g ++ (if player_jump_sfx A then [SfxJump; SfxJump] else []).
Proof.
  intros Ha Hg g1 g2.
  assert (H1 : g1 = Game.set_played (Game.played g ++ play (player_jump_sfx A) SfxJump)
                      (Game.set_player
                         (Player.set_state Jump
                            (Player.set_world_x (Player.world_x (Game.player g) + 10)
                               (Player.set_vel_y (JUMP_FORCE * 1.10) (Game.player g)))) g)).
  { subst g1. unfold Game.on_jump_pressed. rewrite Ha.
    now rewrite jump_on_ground by assumption. }
  assert (Hg1 : Player.on_ground (Game.player g1) = true) by (rewrite H1; exact Hg).
  assert (Ha1 : Player.alive (Game.player g1) = true) by (rewrite H1; exact Ha).
  assert (H2 : g2 = Game.set_played (Game.played g1 ++ play (player_jump_sfx A) SfxJump)
                      (Game.set_player
                         (Player.set_state Jump
                            (Player.set_world_x (Player.world_x (Game.player g1) + 10)
                               (Player.set_vel_y (JUMP_FORCE * 1.10) (Game.player g1)))) g1)).
  { subst g2. unfold Game.on_jump_pressed. rewrite Ha1.
    now rewrite jump_on_ground by assumption. }
  split; [exact Hg1 |]. rewrite H2, H1. repeat split; try reflexivity.
  cbn [Game.played Game.set_played Game.set_player]. rewrite <- app_assoc.
  unfold play. now destruct (player_jump_sfx A).
Qed.

(** The claim on a new game with every sound loaded: 20 forward and two
    jump sounds. *)
Lemma jump_twice_before_update_witness :
  Player.alive (Game.player new_game) = true /\
  Player.on_ground (Game.player new_game) = true /\
  Player.world_x
    (Game.player (Game.on_jump_pressed all_assets
                    (Game.on_jump_pressed all_assets new_game)))
  = Player.world_x (Game.player new_game) + 10 + 10 /\
  Game.played (Game.on_jump_pressed all_assets
                 (Game.on_jump_pressed all_assets new_game))
  = [SfxJump; SfxJump].
Proof.
  assert (Ha : Player.alive (Game.player new_game) = true) by (vm_compute; reflexivity).
  assert (Hg : Player.on_ground (Game.player new_game) = true) by (vm_compute; reflexivity).
  split; [exact Ha | split; [exact Hg |]].
  destruct (jump_twice_before_update all_assets new_game Ha Hg)
    as (_ & _ & Hx & _ & Hs).
  split; [exact Hx |].
  assert (E : Game.played new_game
              ++ (if player_jump_sfx all_assets then [SfxJump; SfxJump] else [])
              = [SfxJump; SfxJump]) by (vm_compute; reflexivity).
  exact (eq_trans Hs E).
Defined.

(** ** Death is final *)

Lemma player_call_dead_ok (A : Assets) (c : PlayerCall) (p : Player.t) :
  dead_ok p -> dead_ok (fst (player_call A c p)).
Proof.
  unfold dead_ok. intros H. destruct c; cbn [player_call fst].
  - unfold Player.jump. destruct (Player.alive p) eqn:Ha; cbn; rewrite ?Ha; auto.
    destruct (Player.on_ground p); cbn; rewrite ?Ha; auto.
    split; discriminate.
  - unfold Player.take_damage, Player.die.
    destruct (Player.alive p) eqn:Ha; cbn; rewrite ?Ha; auto.
    destruct (_ =? _)%Z; cbn; [tauto |].
    destruct (_ <=? _)%Z; cbn; rewrite ?Ha; [tauto | auto].
  - unfold Player.heal. destruct (Player.alive p) eqn:Ha; cbn; rewrite ?Ha; auto.
  - destruct (update_keeps A dt game_speed p) as [Ha _]. rewrite Ha.
    destruct (update_physics A dt game_speed p) as (_ & _ & Hs). rewrite Hs.
    destruct (apply_gravity_cases dt p) as [(_ & _ & _ & _ & Hst) | (_ & _ & _ & _ & Hst)];
      rewrite Hst; destruct (Player.state p) eqn:Hp; cbn;
      destruct (Player.on_ground _); cbn; rewrite <- H;
      split; auto; discriminate.
Qed.

Lemma run_dead (A : Assets) (G : Pygame) (inputs : list Game.Input) (g : Game.t) :
  Player.alive (Game.player g) = false -> Game.run A G inputs g = Some g.
Proof.
  intros Hd. induction inputs as [| i inputs IH]; cbn [Game.run]; auto.
  assert (Hstep : Game.step A G i g = Some g).
  { destruct i; cbn [Game.step].
    - unfold Game.on_jump_pressed. now rewrite Hd.
    - now apply update_dead. }
  now rewrite Hstep.
Qed.

(** X4.  Death is final.  After any calls on a new player the state is [Dead]
    exactly when [alive] is false, in every state of every session too.
    A session whose player is dead stays as it is under all inputs: no
    frame and no jump key changes the game.  The freeze is [Game.update]'s:
    [Player.update] alone still moves a dead player forward. *)
Theorem death_is_final (A : Assets) :
  (forall x cs, dead_ok (fst (player_calls A cs (Player.init x)))) /\
  (forall G g, reachable A G g -> dead_ok (Game.player g)) /\
  (forall G g inputs, Player.alive (Game.player g) = false ->
                      Game.run A G inputs g = Some g) /\
  (forall p dt s, Player.alive p = false ->
     Player.alive (Player.update A dt s p) = false /\
     Player.world_x (Player.update A dt s p)
     = Player.world_x p + s * (dt / REF_FRAME_MS)).
Proof.
  assert (H : forall x cs, dead_ok (fst (player_calls A cs (Player.init x)))).
  { intros x cs. apply (player_calls_invariant A dead_ok).
    - intros c p. apply player_call_dead_ok.
    - unfold dead_ok. cbn. split; discriminate. }
  split; [exact H |]. split.
  { intros G g Hr. destruct (reachable_player_calls A G g Hr) as (cs & Hcs).
    rewrite Hcs. apply H. }
  split; [intros G g inputs Hd; now apply run_dead |].
  intros p dt s Hd. split; [| apply update_world_x].
  destruct (update_keeps A dt s p) as [Ha _]. congruence.
Qed.

(** ** The player's animation frame *)

Lemma or_fallback_pos (n : nat) : (0 < or_fallback n)%Z.
Proof. destruct n; cbn; lia. Qed.

(** Projections of updated players. *)
Ltac player_fields :=
  cbn [Player.world_x Player.y Player.vel_y Player.state Player.frame
       Player.frame_timer Player.alive Player.health Player.image
       Player.set_world_x Player.set_y Player.set_vel_y Player.set_state
       Player.set_frame Player.set_frame_timer Player.set_alive
       Player.set_health Player.set_image].

Lemma apply_gravity_sprite (dt : Q) (p : Player.t) :
  Player.frame (Player.apply_gravity dt p) = Player.frame p /\
  Player.frame_timer (Player.apply_gravity dt p) = Player.frame_timer p /\
  Player.image (Player.apply_gravity dt p) = Player.image p.
Proof.
  unfold Player.apply_gravity.
  destruct (Qgeb _ _); [destruct (PState_eqb _ _) |]; cbn; auto.
Qed.

(** The frame and the image [update_animation] leaves, by state. *)
Lemma update_animation_sprite (A : Assets) (dt : Q) (p : Player.t) :
  let p' := Player.update_animation A dt p in
  match Player.state p with
  | Dead => Player.frame p' = Player.frame p /\ Player.image p' = SprDead
  | Jump => Player.frame p' = Player.frame p /\ Player.image p' = SprJump
  | Run =>
    (Player.frame p' = Player.frame p \/
     Player.frame p' = ((Player.frame p + 1) mod or_fallback (player_run_frames A))%Z) /\
    Player.image p' = SprRun (Player.frame p')
  | Idle =>
    (Player.frame p' = Player.frame p \/
     Player.frame p' = ((Player.frame p + 1) mod or_fallback (player_idle_frames A))%Z) /\
    Player.image p' = SprIdle (Player.frame p')
  end.
Proof.
  intros p'. subst p'. unfold Player.update_animation.
  destruct (Player.state p); cbn; auto; destruct (Qgeb _ _); cbn; auto.
Qed.

Lemma player_call_sprite_ok (A : Assets) (c : PlayerCall) (p : Player.t) :
  player_sprite_ok A p -> player_sprite_ok A (fst (player_call A c p)).
Proof.
  intros (Hf & Hi & Hidle). pose proof (or_fallback_pos (player_run_frames A)) as Hn.
  unfold player_sprite_ok. destruct c; cbn [player_call fst].
  - unfold Player.jump. destruct (negb _); cbn [fst]; auto.
    destruct (Player.on_ground p); cbn [fst]; auto.
    player_fields. split; [exact Hf | split; [exact Hi | discriminate]].
  - unfold Player.take_damage, Player.die.
    destruct (Player.alive p) eqn:Ha; cbn [negb fst]; auto.
    destruct (_ =? _)%Z; cbn [fst].
    + player_fields. split; [lia | split; [exact Hi | discriminate]].
    + player_fields. rewrite Ha. cbn [negb].
      destruct (_ <=? _)%Z; cbn [fst]; player_fields; auto.
      split; [exact Hf | split; [exact Hi | discriminate]].
  - unfold Player.heal. destruct (negb _); cbn [fst]; player_fields; auto.
  - destruct (update_physics A dt game_speed p) as (Hy & Hv & Hs).
    destruct (apply_gravity_sprite dt p) as (Hfr & _ & Him).
    (* the state the animation sees is the state the update ends in *)
    assert (Hstate : Player.state (Player.update A dt game_speed p) <> Idle).
    { rewrite Hs.
      destruct (apply_gravity_cases dt p)
        as [(_ & _ & _ & Hg & Hst) | (Hh & _ & _ & Hg & Hst)];
        rewrite Hg, Hst; cbn [andb].
      - destruct (Player.state p); cbn; discriminate.
      - destruct (Player.state p) eqn:Hp; try discriminate.
        exfalso. destruct (Hidle eq_refl) as [Hy0 Hv0].
        rewrite Hy0, Hv0 in Hh. unfold GRAVITY in Hh.
        assert (0 <= (dt / REF_FRAME_MS) * (dt / REF_FRAME_MS)) by nra.
        nra. }
    assert (Hsprite :
      let q := if Player.on_ground (Player.apply_gravity dt p)
                  && negb (PState_eqb (Player.state (Player.apply_gravity dt p)) Dead
                           || PState_eqb (Player.state (Player.apply_gravity dt p)) Jump)
               then Player.set_state Run (Player.apply_gravity dt p)
               else Player.apply_gravity dt p in
      Player.state q = Player.state (Player.update A dt game_speed p) /\
      Player.frame q = Player.frame p /\
      Player.frame (Player.update A dt game_speed p)
      = Player.frame (Player.update_animation A dt q) /\
      Player.image (Player.update A dt game_speed p)
      = Player.image (Player.update_animation A dt q)).
    { intros q. rewrite Hs. subst q. unfold Player.update.
      cbn [Player.frame Player.image Player.set_world_x].
      destruct (_ && _); cbn [Player.state Player.set_state Player.frame];
        rewrite ?Hfr; repeat split; auto. }
    cbv zeta in Hsprite. destruct Hsprite as (Hq & Hfq & Hfu & Hiu).
    match type of Hq with Player.state ?q = _ =>
      pose proof (update_animation_sprite A dt q) as Han; cbv zeta in Han;
      rewrite Hq, Hfq, <- Hfu, <- Hiu in Han
    end.
    destruct (Player.state (Player.update A dt game_speed p)) eqn:Hst;
      [contradiction | | |].
    + assert (Hm : (0 <= (Player.frame p + 1) mod or_fallback (player_run_frames A)
                      < or_fallback (player_run_frames A))%Z)
        by (apply Z.mod_pos_bound; lia).
      destruct Han as ([Hfa | Hfa] & Hia); rewrite Hia, Hfa;
        (split; [lia | split; [lia | intros; discriminate]]).
    + destruct Han as (Hfa & Hia). rewrite Hia, Hfa.
      split; [exact Hf | split; [exact I | intros; discriminate]].
    + destruct Han as (Hfa & Hia). rewrite Hia, Hfa.
      split; [exact Hf | split; [exact I | intros; discriminate]].
Qed.

Lemma init_sprite_ok (A : Assets) (x : Q) : player_sprite_ok A (Player.init x).
Proof.
  pose proof (or_fallback_pos (player_run_frames A)).
  unfold player_sprite_ok. cbn. repeat split; auto; lia.
Qed.

(** X5.  The player's animation never runs out of frames.  After any calls on a
    new player, and in every state of every session, [frame] is an index
    of the run list ([run_frames or [fallback]]), and [image] is the first
    idle frame, a run frame of such an index, the jump frame or the dead
    frame; [update_animation] is never reached in state [Idle], since the
    first update already promotes the player to [Run]. *)
Theorem player_frame_in_range (A : Assets) :
  (forall x cs, player_sprite_ok A (fst (player_calls A cs (Player.init x)))) /\
  (forall G g, reachable A G g -> player_sprite_ok A (Game.player g)) /\
  (forall x cs dt s,
      Player.state (Player.update A dt s (fst (player_calls A cs (Player.init x))))
      <> Idle).
Proof.
  assert (H : forall x cs, player_sprite_ok A (fst (player_calls A cs (Player.init x)))).
  { intros x cs. apply (player_calls_invariant A (player_sprite_ok A)).
    - intros c p. apply player_call_sprite_ok.
    - apply init_sprite_ok. }
  split; [exact H |]. split.
  { intros G g Hr. destruct (reachable_player_calls A G g Hr) as (cs & Hcs).
    rewrite Hcs. apply H. }
  intros x cs dt s Hidle.
  pose proof (H x (cs ++ [CallUpdate dt s])) as (_ & _ & Hi).
  rewrite player_calls_app, player_calls_one in Hi. cbn [player_call fst] in Hi.
  destruct (Hi Hidle) as [Hy Hv].
  set (p := fst (player_calls A cs (Player.init x))) in *.
  destruct (update_physics A dt s p) as (_ & _ & Hs). rewrite Hs in Hidle.
  destruct (H x cs) as (_ & _ & Hp). fold p in Hp.
  destruct (apply_gravity_cases dt p)
    as [(_ & _ & _ & Hg & Hst) | (Hh & _ & _ & Hg & Hst)];
    rewrite Hg, Hst in Hidle; cbn [andb] in Hidle.
  - destruct (Player.state p); cbn in Hidle; discriminate.
  - destruct (Player.state p) eqn:Hsp; try discriminate.
    destruct (Hp eq_refl) as [Hy0 Hv0].
    rewrite Hy0, Hv0 in Hh. unfold GRAVITY in Hh.
    assert (0 <= (dt / REF_FRAME_MS) * (dt / REF_FRAME_MS)) by nra.
    nra.
Qed.

(** ** Every jump ends *)

Section Landing.
Variable A : Assets.
Variables dt s : Q.

Lemma player_frames_S (n : nat) (p : Player.t) :
  player_frames A (S n) dt s p = Player.update A dt s (player_frames A n dt s p).
Proof.
  revert p. induction n as [| n IH]; intros p; [reflexivity |].
  change (player_frames A (S (S n)) dt s p)
    with (player_frames A (S n) dt s (Player.update A dt s p)).
  now rewrite IH.
Qed.

(** An update that ends on the ground has landed the player. *)
Lemma update_landed (p : Player.t) :
  Player.on_ground (Player.update A dt s p) = true ->
  Player.y (Player.update A dt s p) = GROUND_Y /\
  Player.vel_y (Player.update A dt s p) = 0 /\
  Player.state (Player.update A dt s p) <> Jump.
Proof.
  intros Hg. destruct (update_physics A dt s p) as (Hy & Hv & Hs).
  destruct (apply_gravity_cases dt p)
    as [(_ & Hy1 & Hv1 & Hg1 & Hst) | (Hh & Hy1 & _)].
  - rewrite Hy, Hv, Hs, Hy1, Hv1, Hg1, Hst. repeat split; auto.
    destruct (Player.state p); cbn; discriminate.
  - exfalso. unfold Player.on_ground in Hg. rewrite Hy, Hy1 in Hg.
    apply Qgeb_ge in Hg. lra.
Qed.

(** An update that ends in the air has integrated one step. *)
Lemma update_in_air (p : Player.t) :
  Player.on_ground (Player.update A dt s p) = false ->
  Player.vel_y (Player.update A dt s p)
  = Player.vel_y p + GRAVITY * (dt / REF_FRAME_MS) /\
  Player.y (Player.update A dt s p)
  = Player.y p + (Player.vel_y p + GRAVITY * (dt / REF_FRAME_MS)) * (dt / REF_FRAME_MS).
Proof.
  intros Hg. destruct (update_physics A dt s p) as (Hy & Hv & _).
  destruct (apply_gravity_cases dt p)
    as [(_ & Hy1 & _) | (_ & Hy1 & Hv1 & _)].
  - exfalso. unfold Player.on_ground in Hg. rewrite Hy, Hy1 in Hg.
    apply Qgeb_lt in Hg. lra.
  - now rewrite Hy, Hv, Hy1, Hv1.
Qed.

(** Through [n] frames the player has touched the ground, or he has
    followed the closed form of the fall. *)
Lemma frames_fall (n : nat) :
  forall p,
  (exists k, (1 <= k <= n)%nat /\ Player.on_ground (player_frames A k dt s p) = true)
  \/
  (let m := inject_Z (Z.of_nat n) in
   let t := dt / REF_FRAME_MS in
   Player.vel_y (player_frames A n dt s p) == Player.vel_y p + m * (GRAVITY * t) /\
   Player.y (player_frames A n dt s p)
   == Player.y p + m * Player.vel_y p * t + GRAVITY * t * t * m * (m + 1) / 2).
Proof.
  induction n as [| n IH]; intros p.
  - right. cbn [player_frames Z.of_nat]. change (inject_Z 0) with 0.
    generalize (dt / REF_FRAME_MS). intros t. split; field.
  - destruct (Player.on_ground (Player.update A dt s p)) eqn:Hg.
    + left. exists 1%nat. split; [lia | exact Hg].
    + destruct (update_in_air p Hg) as [Hv Hy].
      destruct (IH (Player.update A dt s p)) as [(k & Hk & Hgk) | [Hvn Hyn]].
      * left. exists (S k). split; [lia | exact Hgk].
      * right. cbv zeta in *. cbn [player_frames].
        rewrite Hvn, Hyn, Hv, Hy, Nat2Z.inj_succ. unfold Z.succ.
        rewrite inject_Z_plus. change (inject_Z 1) with 1.
        generalize (dt / REF_FRAME_MS). intros t. split; field.
Qed.

End Landing.

(** X6.  Every jump ends.  With frames of any fixed elapsed time above zero, a
    player in any state of height and velocity is on the ground after some
    number of updates, with [y = GROUND_Y], no vertical velocity, and a
    state that is not [Jump]. *)
Theorem player_lands_eventually (A : Assets) (dt s : Q) (p : Player.t) :
  0 < dt ->
  exists n,
    (1 <= n)%nat /\
    let q := player_frames A n dt s p in
    Player.on_ground q = true /\
    Player.y q = GROUND_Y /\
    Player.vel_y q = 0 /\
    Player.state q <> Jump.
Proof.
  intros Hdt.
  assert (Ht : 0 < dt / REF_FRAME_MS)
    by (unfold REF_FRAME_MS; apply Qlt_shift_div_l; lra).
  set (t := dt / REF_FRAME_MS) in *.
  set (c := GRAVITY * t).
  assert (Hc : 0 < c) by (unfold c, GRAVITY; lra).
  set (a := Qceiling (- (2) * Player.vel_y p / c)).
  set (b := Qceiling (2 * (GROUND_Y - Player.y p) / (c * t))).
  set (N := Z.to_nat (1 + Z.max 0 a + Z.max 0 b)).
  assert (Hland : exists k, (1 <= k)%nat /\
                            Player.on_ground (player_frames A k dt s p) = true).
  { destruct (frames_fall A dt s N p) as [(k & Hk & Hg) | [Hv Hy]].
    - exists k. split; [lia | exact Hg].
    - exists N. split; [unfold N; lia |].
      fold t in Hv, Hy. cbv zeta in Hy.
      set (m := inject_Z (Z.of_nat N)) in *.
      assert (HN : Z.of_nat N = (1 + Z.max 0 a + Z.max 0 b)%Z) by (unfold N; lia).
      assert (Hm1 : 1 <= m).
      { unfold m. rewrite HN. change 1 with (inject_Z 1). rewrite <- Zle_Qle. lia. }
      assert (Hma : - (2) * Player.vel_y p / c <= m).
      { eapply Qle_trans; [apply Qle_ceiling |]. fold a. unfold m. rewrite HN.
        rewrite <- Zle_Qle. lia. }
      assert (Hmb : 2 * (GROUND_Y - Player.y p) / (c * t) <= m).
      { eapply Qle_trans; [apply Qle_ceiling |]. fold b. unfold m. rewrite HN.
        rewrite <- Zle_Qle. lia. }
      assert (Hct : 0 < c * t) by nra.
      assert (Ha' : - (2) * Player.vel_y p <= m * c).
      { apply (Qmult_le_r _ _ c Hc) in Hma.
        assert (E : - (2) * Player.vel_y p / c * c == - (2) * Player.vel_y p)
          by (field; lra).
        rewrite E in Hma. exact Hma. }
      assert (Hb' : 2 * (GROUND_Y - Player.y p) <= m * (c * t)).
      { apply (Qmult_le_r _ _ (c * t) Hct) in Hmb.
        assert (E : 2 * (GROUND_Y - Player.y p) / (c * t) * (c * t)
                    == 2 * (GROUND_Y - Player.y p))
          by (field; lra).
        rewrite E in Hmb. exact Hmb. }
      unfold Player.on_ground. apply Qgeb_ge. rewrite Hy.
      assert (Hp : 0 <= (2 * Player.vel_y p + m * c) * (m * t)).
      { apply Qmult_le_0_compat; [lra |].
        apply Qmult_le_0_compat; lra. }
      assert (E : Player.y p + m * Player.vel_y p * t
                  + GRAVITY * t * t * m * (m + 1) / 2
                  == GROUND_Y
                     + (2 * Player.vel_y p + m * c) * (m * t) * (1 # 2)
                     + (m * (c * t) - 2 * (GROUND_Y - Player.y p)) * (1 # 2))
        by (unfold c; field).
      rewrite E. lra. }
  destruct Hland as (k & Hk & Hg). exists k. split; [exact Hk |].
  destruct k as [| k]; [lia |].
  cbv zeta. rewrite player_frames_S in *.
  destruct (update_landed A dt s _ Hg) as (Hy & Hv & Hs). auto.
Qed.

(** The claim at the top of a jump, with reference frames. *)
Lemma player_lands_eventually_witness :
  0 < 16.67 /\
  exists n, Player.on_ground (player_frames all_assets n 16.67 4 airborne_player) = true.
Proof.
  assert (H0 : 0 < 16.67) by (vm_compute; reflexivity).
  split; [exact H0 |].
  destruct (player_lands_eventually all_assets 16.67 4 airborne_player H0)
    as (n & _ & Hg & _).
  exists n. exact Hg.
Defined.

(** ** Properties of every entity of a session *)

Lemma seed_chain_all_fresh (news : list Obj) :
  forall x, seed_chain x news ->
  Forall (fun o => exists y, fresh_entity y (ent o)) news.
Proof.
  induction news as [| a news IH]; intros x Hch; constructor.
  - destruct Hch as (_ & Hf & _). eauto.
  - destruct Hch as (_ & _ & d & _ & Hrest). eapply IH; eassumption.
Qed.

Lemma spawn_chain_all_fresh (news : list Obj) :
  forall h f, spawn_chain h f news ->
  Forall (fun o => exists y, fresh_entity y (ent o)) news.
Proof.
  induction news as [| a news IH]; intros h f Hch; constructor.
  - destruct Hch as (_ & (d & _ & _ & Hf) & _). eauto.
  - destruct Hch as (_ & _ & Hrest). eapply IH; eassumption.
Qed.

(** What holds of every entity as it is created, and is kept by every
    entity update, holds of every entity of every state of a session. *)
Lemma reachable_entities_invariant (A : Assets) (G : Pygame) (P : Entity -> Prop) :
  (forall x e, fresh_entity x e -> P e) ->
  (forall dt e, P e -> P (entity_update A dt e)) ->
  forall g, reachable A G g -> Forall (fun o => P (ent o)) (Game.entities g).
Proof.
  intros Hnew Hupd g Hr. pose proof Hr as (s & r & inputs & Hrun).
  assert (Hfresh : forall l, Forall (fun o => exists y, fresh_entity y (ent o)) l ->
                             Forall (fun o => P (ent o)) l).
  { intros l Hl. eapply Forall_impl; [| exact Hl]. intros o (y & Hy). eauto. }
  assert (H : session_inv g /\ Forall (fun o => P (ent o)) (Game.entities g));
    [| apply H].
  eapply (run_invariant A G
            (fun g => session_inv g /\ Forall (fun o => P (ent o)) (Game.entities g)));
    [| | exact Hrun].
  - intros i g0 g1 [Hinv Hp] Hstep.
    split; [eapply step_inv; eassumption |].
    destruct i as [| dt]; cbn [Game.step] in Hstep.
    + inversion Hstep; subst. unfold Game.on_jump_pressed.
      destruct (Player.alive _); [destruct (Player.jump _ _) |]; exact Hp.
    + destruct (Player.alive (Game.player g0)) eqn:Ha;
        [| rewrite update_dead in Hstep by exact Ha; now inversion Hstep; subst].
      rewrite update_alive in Hstep by exact Ha.
      destruct Hinv as ((Hnd & _) & _).
      destruct (advance_fields A dt g0) as (_ & _ & Hid1 & _).
      assert (Hnd1 : NoDup (map oid (Game.entities (Game.advance A dt g0))))
        by (now rewrite Hid1).
      pose proof (collisions_entities A G _ Hnd1) as He2.
      set (g2 := Game.collisions A G (Game.advance A dt g0)) in *.
      assert (Hnd2 : NoDup (map oid (Game.entities g2)))
        by (rewrite He2; now apply NoDup_map_filter).
      destruct (remove_passed_spec g2 Hnd2) as (He3 & _).
      destruct (speed_increase_fields (Game.remove_passed g2)) as (_ & _ & He4 & _).
      destruct (spawn_if_needed_spec (Game.speed_increase (Game.remove_passed g2)))
        as (g5 & news & Hsp & He5 & _ & _ & Hch & _).
      rewrite Hsp in Hstep. inversion Hstep; subst g5.
      rewrite He5, He4, He3, He2. apply Forall_app. split.
      * apply Forall_filter_keeps, Forall_filter_keeps.
        rewrite advance_entities.
        apply Forall_forall. intros o Ho. apply in_map_iff in Ho as (o0 & Ho & Hin).
        subst o. cbn [ent]. apply Hupd.
        revert o0 Hin. apply Forall_forall. exact Hp.
      * apply Hfresh. eapply spawn_chain_all_fresh; eassumption.
  - split; [apply init_inv |].
    destruct (init_entities s r) as (news & He & _ & _ & _ & Hch).
    rewrite He. apply Hfresh. eapply seed_chain_all_fresh; eassumption.
Qed.

(** ** The enemy's animation frame *)

Lemma enemy_update_sprite (A : Assets) (dt : Q) (e : Entity) :
  enemy_sprite_ok A e -> enemy_sprite_ok A (entity_update A dt e).
Proof.
  destruct e as [x | en | x]; cbn [entity_update enemy_sprite_ok]; auto.
  intros [Hf _]. pose proof (or_fallback_pos (enemy_run_frames A)) as Hn.
  unfold Enemy.update.
  destruct (if Qltb _ _ then _ else _) as [x2 d2].
  destruct (Qgeb _ _); cbn [Enemy.frame Enemy.image];
    (split; [| reflexivity]); [apply Z.mod_pos_bound; lia | exact Hf].
Qed.

Lemma fresh_sprite_ok (A : Assets) (x : Q) (e : Entity) :
  fresh_entity x e -> enemy_sprite_ok A e.
Proof.
  pose proof (or_fallback_pos (enemy_run_frames A)) as Hn.
  intros [H | [H | (s & _ & H)]]; subst; cbn; auto. split; [lia | reflexivity].
Qed.

(** X7.  The enemy's animation never runs out of frames.  After any updates of
    a new enemy, and for every enemy of every state of a session, [frame]
    is an index of [enemy_run_frames or [fallback]] and [image] is the
    frame of that index. *)
Theorem enemy_frame_in_range (A : Assets) :
  (forall x spd dts,
      enemy_sprite_ok A (EEnemy (enemy_run A dts (Enemy.init x spd)))) /\
  (forall G g, reachable A G g ->
      Forall (fun o => enemy_sprite_ok A (ent o)) (Game.entities g)).
Proof.
  split.
  - intros x spd dts.
    assert (H : forall e, enemy_sprite_ok A (EEnemy e) ->
                          enemy_sprite_ok A (EEnemy (enemy_run A dts e))).
    { unfold enemy_run. induction dts as [| dt dts IH]; intros e He; cbn [fold_left]; auto.
      apply IH. exact (enemy_update_sprite A dt (EEnemy e) He). }
    apply H. pose proof (or_fallback_pos (enemy_run_frames A)) as Hn.
    cbn. split; [lia | reflexivity].
  - intros G g Hr.
    apply (reachable_entities_invariant A G (enemy_sprite_ok A)); auto.
    + intros x e. apply fresh_sprite_ok.
    + intros dt e. apply enemy_update_sprite.
Qed.

(** ** Contact with a potion, and the collision pass as a whole *)




Section CollisionPass.
Variable A : Assets.
Variable G : Pygame.
Variable p_rect : Rect G.
Variable cam : Q.

Lemma collide_health (p : Player.t) (ents : list Obj) (snd0 : list Sfx) (e : Obj) :
  health_ok p ->
  let p1 := fst (fst (Game.collide A G p_rect cam (p, ents, snd0) e)) in
  health_ok p1 /\
  (Player.health p - Z.of_nat (List.length (touched_enemies G p_rect cam [e]))
   <= Player.health p1
   <= Player.health p + Z.of_nat (List.length (touched_potions G p_rect cam [e])))%Z.
Proof.
  intros Hok p1. subst p1.
  unfold Game.collide, touched_enemies, touched_potions, touched.
  cbn [filter].
  destruct (colliderect G p_rect _); cbn [andb fst List.length];
    [| split; [exact Hok | lia]].
  destruct (ent e) eqn:He; cbn [is_enemy andb fst List.length].
  - split; [exact Hok | lia].
  - pose proof (take_damage_health_ok A p Hok) as H1.
    assert (H2 : (Player.health p - 1 <= Player.health (fst (Player.take_damage A 1 p))
                  <= Player.health p)%Z).
    { destruct Hok as [Hr Hal]. unfold Player.take_damage, Player.die.
      destruct (Player.alive p) eqn:Ha; cbn [negb fst]; [| lia].
      destruct (_ =? _)%Z eqn:E1; cbn [fst]; player_fields.
      - apply Z.eqb_eq in E1. lia.
      - rewrite Ha. cbn [negb]. destruct (_ <=? _)%Z; cbn [fst]; player_fields; lia. }
    destruct (Player.take_damage A 1 p) as [q s1]. cbn [fst] in *.
    split; [exact H1 | lia].
  - pose proof (heal_health_ok A p Hok) as H1.
    assert (H2 : (Player.health p <= Player.health (fst (Player.heal A 1 p))
                  <= Player.health p + 1)%Z).
    { destruct Hok as [Hr Hal]. unfold Player.heal, PLAYER_MAX_HEALTH in *.
      destruct (Player.alive p); cbn [negb fst Player.health Player.set_health]; lia. }
    destruct (Player.heal A 1 p) as [q s1]. cbn [fst] in *.
    split; [exact H1 | lia].
Qed.

Lemma collide_fold_health (l : list Obj) :
  forall (p : Player.t) (ents : list Obj) (snd0 : list Sfx),
  health_ok p ->
  let p' := fst (fst (fold_left (Game.collide A G p_rect cam) l (p, ents, snd0))) in
  (Player.health p - Z.of_nat (List.length (touched_enemies G p_rect cam l))
   <= Player.health p'
   <= Player.health p + Z.of_nat (List.length (touched_potions G p_rect cam l)))%Z.
Proof.
  induction l as [| e l IH]; intros p ents snd0 Hok; cbn [fold_left].
  - cbn. lia.
  - destruct (collide_health p ents snd0 e Hok) as [Hok1 Hb].
    destruct (Game.collide A G p_rect cam (p, ents, snd0) e) as [[p1 ents1] snd1].
    cbn [fst] in Hok1, Hb. specialize (IH p1 ents1 snd1 Hok1). cbv zeta in IH.
    cbv zeta.
    assert (He : forall f : Obj -> bool,
               List.length (filter f (e :: l))
               = (List.length (filter f [e]) + List.length (filter f l))%nat).
    { intros f. cbn [filter]. destruct (f e); cbn [List.length]; lia. }
    unfold touched_enemies, touched_potions in *.
    rewrite !He. lia.
Qed.

End CollisionPass.

(** X9.  The collision pass as a whole.  In a frame of a session, the pass
    removes from the active set exactly the enemies and potions whose
    rectangles meet the player's and keeps everything else in its order:
    no box is ever removed by it.  It leaves camera, speed, score and
    milestone alone. *)
Theorem collision_pass_removes_touched (A : Assets) (G : Pygame) (g : Game.t) (dt : Q) :
  reachable A G g ->
  let g1 := Game.advance A dt g in
  let cam := Game.camera_x g1 in
  let p_rect := player_rect G (Game.player g1) cam in
  Game.entities (Game.collisions A G g1)
  = filter (fun o => negb (colliderect G p_rect (entity_rect G (ent o) cam)
                           && match ent o with EBox _ => false | _ => true end))
           (Game.entities g1) /\
  (forall o x, In o (Game.entities g1) -> ent o = EBox x ->
               In o (Game.entities (Game.collisions A G g1))) /\
  Game.camera_x (Game.collisions A G g1) = Game.camera_x g1 /\
  Game.speed (Game.collisions A G g1) = Game.speed g1 /\
  Game.score (Game.collisions A G g1) = Game.score g1 /\
  Game.last_milestone (Game.collisions A G g1) = Game.last_milestone g1.
Proof.
  intros Hr g1 cam p_rect.
  pose proof (reachable_inv A G g Hr) as ((Hnd & _) & _).
  destruct (advance_fields A dt g) as (_ & _ & Hid1 & _). fold g1 in Hid1.
  assert (Hnd1 : NoDup (map oid (Game.entities g1))) by (now rewrite Hid1).
  pose proof (collisions_entities A G g1 Hnd1) as He. fold cam p_rect in He.
  destruct (collisions_fields A G g1) as (Hc & Hsp & _ & Hsc & Hlm & _).
  split; [exact He |]. split; [| auto].
  intros o x Hin Hbox. rewrite He. apply filter_In. split; [exact Hin |].
  unfold touched. rewrite Hbox. now rewrite andb_false_r.
Qed.

(** The claim on the first frame of a new game. *)
Lemma collision_pass_removes_touched_witness :
  reachable all_assets pygame_sprites new_game /\
  Game.score (Game.collisions all_assets pygame_sprites
                (Game.advance all_assets 16.67 new_game))
  = Game.score (Game.advance all_assets 16.67 new_game).
Proof.
  assert (Hr : reachable all_assets pygame_sprites new_game)
    by apply reachable_init.
  split; [exact Hr |].
  exact (proj1 (proj2 (proj2 (proj2 (proj2
           (collision_pass_removes_touched all_assets pygame_sprites new_game 16.67 Hr)))))).
Defined.

(** X10.  A frame never takes more health than enemies touch the player, and
    never gives more than potions do: after the collision pass of a frame
    of a session, health is at least what it was minus the number of
    enemies met, at most what it was plus the number of potions met, and
    still within [0, PLAYER_MAX_HEALTH]. *)
Theorem collision_pass_health (A : Assets) (G : Pygame) (g : Game.t) (dt : Q) :
  reachable A G g ->
  let g1 := Game.advance A dt g in
  let cam := Game.camera_x g1 in
  let p_rect := player_rect G (Game.player g1) cam in
  let h := Player.health (Game.player g) in
  let h' := Player.health (Game.player (Game.collisions A G g1)) in
  (h - Z.of_nat (List.length (touched_enemies G p_rect cam (Game.entities g1)))
   <= h'
   <= h + Z.of_nat (List.length (touched_potions G p_rect cam (Game.entities g1))))%Z /\
  (0 <= h' <= PLAYER_MAX_HEALTH)%Z.
Proof.
  intros Hr g1 cam p_rect h h'.
  pose proof (reachable_inv A G g Hr) as (_ & Hok & Hs & _).
  destruct (advance_fields A dt g) as (Hp1 & _ & _ & _ & _ & _ & _ & _ & _ & Hpl1).
  fold g1 in Hp1, Hpl1.
  destruct (update_keeps A dt (Game.speed g) (Game.player g)) as [Ha Hh].
  assert (Hok1 : health_ok (Game.player g1))
    by (rewrite Hp1; unfold health_ok in *; now rewrite Ha, Hh).
  assert (Hh1 : Player.health (Game.player g1) = h) by (rewrite Hp1; exact Hh).
  pose proof (collide_fold_health A G p_rect cam (Game.entities g1) (Game.player g1)
                (Game.entities g1) [] Hok1) as Hb.
  cbv zeta in Hb. rewrite Hh1 in Hb.
  destruct (collisions_player A G g1 Hok1) as (Hok2 & _); [now rewrite Hpl1 |].
  assert (Hp2 : Game.player (Game.collisions A G g1)
                = fst (fst (fold_left (Game.collide A G p_rect cam) (Game.entities g1)
                                      (Game.player g1, Game.entities g1, [])))).
  { unfold Game.collisions. fold cam. fold p_rect.
    now destruct (fold_left _ _ _) as [[q ents] snd0]. }
  subst h'. rewrite Hp2 in *. split; [exact Hb | apply Hok2].
Qed.

(** The claim on the first frame of a new game. *)
Lemma collision_pass_health_witness :
  reachable all_assets pygame_sprites new_game /\
  (0 <= Player.health
          (Game.player (Game.collisions all_assets pygame_sprites
                          (Game.advance all_assets 16.67 new_game)))
     <= PLAYER_MAX_HEALTH)%Z.
Proof.
  assert (Hr : reachable all_assets pygame_sprites new_game)
    by apply reachable_init.
  split; [exact Hr |].
  exact (proj2 (collision_pass_health all_assets pygame_sprites new_game 16.67 Hr)).
Defined.

(** ** Difficulty, base speed and potion weight *)

Lemma init_potion_weight (s : Settings) (r : Random.t) :
  Game.potion_weight (Game.init s r)
  = POTION_BASE_WEIGHT *
    (if String.eqb (get_difficulty s) "Normal" then 1.0
     else if String.eqb (get_difficulty s) "Easy" then 0.8 else 0.6).
Proof.
  unfold Game.init, Game._seed_initial_world.
  match goal with |- context [Game.seed_loop 5 600 ?g0] =>
    generalize (Game.seed_loop 5 600 g0)
  end.
  intros gs. reflexivity.
Qed.

Lemma clamp_range (v a b : Q) : a <= b -> a <= clamp v a b <= b.
Proof.
  intros Hab. unfold clamp. case_Qltb v b; [case_Qltb a v | case_Qltb a b]; split; lra.
Qed.

(** X11.  The difficulty of the settings decides speed and potions.  The base
    speed of a new game is 3.4 on "Easy", 4 on "Normal" and 5 on "Hard";
    the potion weight is 0.05 on "Normal", 0.04 on "Easy" and 0.03 on
    anything else, so potions are rarer on "Easy" than on "Normal".
    A missing difficulty is "Normal"; an unknown name runs at the speed of
    "Normal" with the potions of "Hard".  The weight is always inside
    [0.02, 0.15], where the spawner's clamp leaves it as it is (up to
    equality of rationals). *)
Theorem difficulty_speed_and_potions (s : Settings) (r : Random.t) :
  let g := Game.init s r in
  let d := get_difficulty s in
  (difficulty s = None -> d = "Normal"%string) /\
  (d = "Easy"%string ->
     Game.base_speed g == 3.4 /\ Game.potion_weight g == 0.04) /\
  (d = "Normal"%string ->
     Game.base_speed g == 4 /\ Game.potion_weight g == 0.05) /\
  (d = "Hard"%string ->
     Game.base_speed g == 5 /\ Game.potion_weight g == 0.03) /\
  (d <> "Easy"%string -> d <> "Normal"%string -> d <> "Hard"%string ->
     Game.base_speed g == 4 /\ Game.potion_weight g == 0.03) /\
  0.02 <= Game.potion_weight g <= 0.15 /\
  clamp (Game.potion_weight g) 0.02 0.15 == Game.potion_weight g.
Proof.
  intros g d.
  destruct (init_fields s r) as (_ & _ & Hb & _). fold g in Hb. fold d in Hb.
  pose proof (init_potion_weight s r) as Hw. fold g in Hw. fold d in Hw.
  rewrite Hb, Hw. unfold DIFFICULTY_MOD, PLAYER_START_SPEED_BASE, POTION_BASE_WEIGHT.
  split; [intros Hn; subst d; unfold get_difficulty; now rewrite Hn |].
  split; [intros E; rewrite E; cbn [String.eqb]; split; reflexivity |].
  split; [intros E; rewrite E; split; reflexivity |].
  split; [intros E; rewrite E; split; reflexivity |].
  split.
  { intros H1 H2 H3.
    apply String.eqb_neq in H1, H2, H3. rewrite H1, H2, H3. split; reflexivity. }
  assert (Hrange : 0.02 <= 0.05 * (if String.eqb d "Normal" then 1.0
                                   else if String.eqb d "Easy" then 0.8 else 0.6)
                   <= 0.15).
  { destruct (String.eqb d "Normal"); [| destruct (String.eqb d "Easy")]; split; lra. }
  split; [exact Hrange |].
  unfold clamp.
  match goal with |- (if Qltb ?a ?m then _ else _) == ?w =>
    case_Qltb w 0.15
  end.
  - match goal with |- (if Qltb ?a ?m then _ else _) == _ => case_Qltb a m end;
      [reflexivity | lra].
  - replace (Qltb 0.02 0.15) with true by reflexivity. lra.
Qed.

(** ** What the spawner adds *)

Lemma spawn_chain_positions (news : list Obj) :
  forall h f, spawn_chain h f news ->
  Forall (fun o => f < obj_world_x o /\ obj_world_x o < h + 1100) news /\
  f + 600 * inject_Z (Z.of_nat (List.length news)) <= chain_end f news /\
  (news <> [] -> chain_end f news < h + 1100).
Proof.
  induction news as [| o news IH]; intros h f Hch.
  - split; [constructor |]. split; [| intros H; now contradiction H].
    unfold chain_end. cbn [List.length fold_left].
    change (inject_Z (Z.of_nat 0)) with 0. lra.
  - destruct Hch as (Hf & (d & Hd & Hx & _) & Hrest).
    destruct (IH h (obj_world_x o) Hrest) as (Hall & Hlen & Hend).
    unfold MIN_SPAWN_DIST, MAX_SPAWN_DIST in Hd.
    assert (H600 : inject_Z 600 <= inject_Z d) by (rewrite <- Zle_Qle; lia).
    assert (H1100 : inject_Z d <= inject_Z 1100) by (rewrite <- Zle_Qle; lia).
    change (inject_Z 600) with 600 in H600. change (inject_Z 1100) with 1100 in H1100.
    assert (Hxo : f < obj_world_x o /\ obj_world_x o < h + 1100) by (rewrite Hx; lra).
    split.
    { constructor; [exact Hxo |].
      eapply Forall_impl; [| exact Hall]. cbn beta. intros a [Ha1 Ha2]. lra. }
    assert (Hce : chain_end f (o :: news) = chain_end (obj_world_x o) news) by reflexivity.
    assert (Hx' : obj_world_x o == f + inject_Z d) by (rewrite Hx; reflexivity).
    rewrite Hce. split.
    + cbn [List.length]. rewrite Nat2Z.inj_succ. unfold Z.succ.
      rewrite inject_Z_plus. change (inject_Z 1) with 1. lra.
    + intros _. destruct news as [| o' news'].
      * unfold chain_end. cbn [fold_left]. lra.
      * apply Hend. discriminate.
Qed.

(** X12.  What one spawn pass adds.  On any game [spawn_if_needed] returns; it
    adds nothing when the furthest of entities and player has reached
    [camera_x + WIDTH + MIN_SPAWN_DIST]; every entity it adds lies strictly
    beyond that furthest one and less than [MAX_SPAWN_DIST] beyond the
    mark; and since they are at least [MIN_SPAWN_DIST] apart, their number
    times 600 stays below the gap plus 1100. *)
Theorem spawn_pass_bounds (g : Game.t) :
  let mark := Game.camera_x g + WIDTH + inject_Z MIN_SPAWN_DIST in
  exists g' news,
    Game.spawn_if_needed g = Some g' /\
    Game.entities g' = Game.entities g ++ news /\
    Game.player g' = Game.player g /\
    Game.score g' = Game.score g /\
    (mark <= Game.furthest g -> news = []) /\
    Forall (fun o => Game.furthest g < obj_world_x o /\ obj_world_x o < mark + 1100)
           news /\
    (news <> [] ->
     Game.furthest g + 600 * inject_Z (Z.of_nat (List.length news)) < mark + 1100).
Proof.
  intros mark.
  destruct (spawn_if_needed_spec g) as (g' & news & Hrun & He & _ & _ & Hch & _ & Hs).
  change (Game.spawn_horizon g) with mark in Hch.
  destruct (spawn_chain_positions news mark (Game.furthest g) Hch) as (Hall & Hlen & Hend).
  destruct Hs as (Hp & _ & _ & _ & _ & Hsc & _).
  exists g', news. repeat split; auto.
  - intros Hm. destruct news as [| o news]; [reflexivity |].
    destruct Hch as (Hf & _). lra.
  - intros Hne. specialize (Hend Hne). lra.
Qed.

(** ** The frame as a whole *)

(** What a frame of a session with the player alive leaves. *)
Lemma update_alive_frame (A : Assets) (G : Pygame) (g : Game.t) (dt : Q) :
  reachable A G g ->
  Player.alive (Game.player g) = true ->
  let g2 := Game.collisions A G (Game.advance A dt g) in
  let px := Player.world_x (Game.player g2) in
  exists g' news,
    Game.update A G dt g = Some g' /\
    Game.player g' = Game.player g2 /\
    px = Player.world_x (Game.player g) + Game.speed g * (dt / REF_FRAME_MS) /\
    Game.camera_x g' = px - WIDTH * 0.35 /\
    Game.entities g'
    = filter (fun o => negb (behind px o)) (Game.entities g2) ++ news /\
    Forall (fun o => px < obj_world_x o) news.
Proof.
  intros Hr Ha g2 px.
  pose proof (reachable_inv A G g Hr) as ((Hnd & _) & Hok & Hs & _).
  rewrite update_alive by exact Ha. fold g2.
  destruct (advance_fields A dt g) as (Hp1 & Hc1 & Hid1 & _ & _ & _ & _ & _ & _ & Hpl1).
  destruct (update_keeps A dt (Game.speed g) (Game.player g)) as [Hal Hh].
  assert (Hok1 : health_ok (Game.player (Game.advance A dt g)))
    by (rewrite Hp1; unfold health_ok in *; now rewrite Hal, Hh).
  destruct (collisions_player A G (Game.advance A dt g) Hok1) as (_ & _ & Hx2);
    [now rewrite Hpl1 |]. fold g2 in Hx2. fold px in Hx2.
  assert (Hnd1 : NoDup (map oid (Game.entities (Game.advance A dt g))))
    by (now rewrite Hid1).
  pose proof (collisions_entities A G _ Hnd1) as He2. fold g2 in He2.
  assert (Hnd2 : NoDup (map oid (Game.entities g2)))
    by (rewrite He2; now apply NoDup_map_filter).
  destruct (collisions_fields A G (Game.advance A dt g)) as (Hc2 & _). fold g2 in Hc2.
  destruct (remove_passed_fields g2) as (Hp3 & Hc3 & _).
  destruct (remove_passed_spec g2 Hnd2) as (He3 & _). fold px in He3.
  destruct (speed_increase_fields (Game.remove_passed g2)) as (Hp4 & Hc4 & He4 & _).
  set (g4 := Game.speed_increase (Game.remove_passed g2)) in *.
  destruct (spawn_if_needed_spec g4) as (g' & news & Hrun & He5 & _ & _ & Hch & _ & Hss).
  destruct (spawn_chain_positions news _ _ Hch) as (Hall & _).
  destruct Hss as (Hp5 & Hc5 & _).
  exists g', news. split; [exact Hrun |].
  split; [congruence |].
  split; [rewrite Hx2, Hp1; apply update_world_x |].
  split; [rewrite Hc5, Hc4, Hc3, Hc2, Hc1, Hx2; reflexivity |].
  split; [rewrite He5, He4, He3; reflexivity |].
  eapply Forall_impl; [| exact Hall]. cbn beta. intros o [Ho _].
  pose proof (furthest_ge_player g4) as Hfp. rewrite Hp4, Hp3 in Hfp. fold px in Hfp.
  lra.
Qed.

(** X13.  The camera follows the player.  After every frame of a session with
    the player alive, [camera_x] is the player's [world_x] less 35 % of
    the width: the player is drawn at screen x 336. *)
Theorem camera_follows_player (A : Assets) (G : Pygame) (g : Game.t) (dt : Q) :
  reachable A G g ->
  Player.alive (Game.player g) = true ->
  exists g',
    Game.update A G dt g = Some g' /\
    Player.world_x (Game.player g')
    = Player.world_x (Game.player g) + Game.speed g * (dt / REF_FRAME_MS) /\
    Game.camera_x g' = Player.world_x (Game.player g') - WIDTH * 0.35 /\
    world_to_screen_x (Player.world_x (Game.player g')) (Game.camera_x g') == 336.
Proof.
  intros Hr Ha.
  destruct (update_alive_frame A G g dt Hr Ha) as (g' & news & Hup & Hp & Hx & Hc & _).
  exists g'. split; [exact Hup |]. rewrite Hp. split; [exact Hx |].
  split; [exact Hc |]. unfold world_to_screen_x. rewrite Hc. unfold WIDTH. ring.
Qed.

(** The claim on the first frame of a new game. *)
Lemma camera_follows_player_witness :
  reachable all_assets pygame_sprites new_game /\
  Player.alive (Game.player new_game) = true /\
  exists g',
    Game.update all_assets pygame_sprites 16.67 new_game = Some g' /\
    world_to_screen_x (Player.world_x (Game.player g')) (Game.camera_x g') == 336.
Proof.
  assert (Hr : reachable all_assets pygame_sprites new_game)
    by apply reachable_init.
  assert (Ha : Player.alive (Game.player new_game) = true)
    by (vm_compute; reflexivity).
  split; [exact Hr | split; [exact Ha |]].
  destruct (camera_follows_player all_assets pygame_sprites new_game 16.67 Hr Ha)
    as (g' & Hup & _ & _ & Hs).
  exists g'. split; [exact Hup | exact Hs].
Defined.

(** X14.  No entity is left behind.  After every frame of a session with the
    player alive, every entity of the active set is at most 220 behind the
    player; what was further back was culled in that frame, and what was
    spawned in it lies ahead of the player. *)
Theorem no_entity_left_behind (A : Assets) (G : Pygame) (g : Game.t) (dt : Q) :
  reachable A G g ->
  Player.alive (Game.player g) = true ->
  exists g',
    Game.update A G dt g = Some g' /\
    Forall (fun o => Player.world_x (Game.player g') - 220 <= obj_world_x o)
           (Game.entities g').
Proof.
  intros Hr Ha.
  destruct (update_alive_frame A G g dt Hr Ha)
    as (g' & news & Hup & Hp & _ & _ & He & Hnews).
  exists g'. split; [exact Hup |]. rewrite Hp, He. apply Forall_app. split.
  - apply Forall_forall. intros o Ho. apply filter_In in Ho as [_ Hb].
    apply negb_true_iff in Hb. unfold behind in Hb. now apply Qltb_ge in Hb.
  - eapply Forall_impl; [| exact Hnews]. cbn beta. intros o Ho. lra.
Qed.

(** The claim on the first frame of a new game. *)
Lemma no_entity_left_behind_witness :
  reachable all_assets pygame_sprites new_game /\
  Player.alive (Game.player new_game) = true /\
  exists g',
    Game.update all_assets pygame_sprites 16.67 new_game = Some g' /\
    Forall (fun o => Player.world_x (Game.player g') - 220 <= obj_world_x o)
           (Game.entities g').
Proof.
  assert (Hr : reachable all_assets pygame_sprites new_game)
    by apply reachable_init.
  assert (Ha : Player.alive (Game.player new_game) = true)
    by (vm_compute; reflexivity).
  split; [exact Hr | split; [exact Ha |]].
  exact (no_entity_left_behind all_assets pygame_sprites new_game 16.67 Hr Ha).
Defined.

(** ** Milestones and score *)

Section Milestones.

Variable A : Assets.
Variable G : Pygame.

Lemma on_jump_pressed_milestone (g : Game.t) :
  milestone_inv g -> milestone_inv (Game.on_jump_pressed A g).
Proof.
  unfold milestone_inv, fresh_session, milestone_ok, Game.on_jump_pressed.
  destruct (Player.alive (Game.player g)); [| tauto].
  destruct (Player.jump A (Game.player g)) as [p snd0].
  cbn [Game.score Game.base_speed Game.speed Game.last_milestone
       Game.set_played Game.set_player]. tauto.
Qed.

Lemma update_milestone (dt : Q) (g g' : Game.t) :
  milestone_inv g -> Game.update A G dt g = Some g' ->
  milestone_inv g' /\
  (Player.alive (Game.player g) = true -> milestone_ok g').
Proof.
  intros (Hsc & Hb & Hm) Hup.
  destruct (Player.alive (Game.player g)) eqn:Ha;
    [| rewrite update_dead in Hup by exact Ha; inversion Hup; subst;
       split; [now repeat split | discriminate]].
  destruct (update_alive_speed A G dt g Ha)
    as (g1 & Hup' & Hsp3 & Hlm3 & Hb' & Hsc' & Hsp' & Hlm').
  rewrite Hup' in Hup. inversion Hup; subst g1. clear Hup Hup'.
  set (g2 := Game.collisions A G (Game.advance A dt g)) in *.
  assert (Hsc3 : (Game.score g <= Game.score (Game.remove_passed g2))%Z).
  { pose proof (remove_passed_score g2) as [H _].
    destruct (collisions_fields A G (Game.advance A dt g)) as (_ & _ & _ & H2 & _).
    destruct (advance_fields A dt g) as (_ & _ & _ & _ & _ & _ & H1 & _).
    fold g2 in H2. rewrite H2, H1 in H. exact H. }
  assert (Hb3 : Game.base_speed (Game.remove_passed g2) = Game.base_speed g).
  { destruct (remove_passed_fields g2) as (_ & _ & _ & H3 & _).
    destruct (collisions_fields A G (Game.advance A dt g)) as (_ & _ & H2 & _).
    destruct (advance_fields A dt g) as (_ & _ & _ & _ & _ & H1 & _).
    fold g2 in H2. congruence. }
  revert Hsp3 Hlm3 Hsc' Hsp' Hlm' Hsc3 Hb3.
  generalize (Game.remove_passed g2). clear g2. intros g3 Hsp3 Hlm3 Hsc' Hsp' Hlm' Hsc3 Hb3.
  pose proof (speed_increase_spec g3) as [Hsame Hup].
  cbv zeta in Hsame, Hup. rewrite <- Hsc' in Hsame, Hup.
  rewrite Hlm3, Hsp3 in Hup. rewrite Hlm3 in Hsame.
  rewrite <- Hsp', <- Hlm' in Hup.
  assert (Hdiv : (Game.score g / SCORE_STEP <= Game.score g' / SCORE_STEP)%Z).
  { apply Z.div_le_mono; [unfold SCORE_STEP; lia | lia]. }
  assert (Hpos : (0 <= Game.score g' / SCORE_STEP)%Z).
  { apply Z.div_pos; [lia | unfold SCORE_STEP; lia]. }
  assert (Hok : milestone_ok g').
  { unfold milestone_ok, fresh_session in *. rewrite Hb'.
    unfold SPEED_INCREASE_STEP in *.
    destruct Hm as [(Hl & Hs0 & Hs) | (Hl & Hlo & Hhi)].
    - destruct Hup as (Hl' & Hadd & _); [lia |].
      rewrite Hs in Hadd. specialize (Hadd ltac:(lra)).
      split; [exact Hl' |]. rewrite Hadd, Hl'. split; [lra |].
      assert (H1 : inject_Z 1 <= inject_Z (Game.score g' / SCORE_STEP + 1))
        by (rewrite <- Zle_Qle; lia).
      change (inject_Z 1) with 1 in H1. lra.
    - destruct (Z_le_gt_dec (Game.score g' / SCORE_STEP) (Game.last_milestone g))
        as [Hle | Hgt].
      + specialize (Hsame Hle). rewrite Hsame in Hsp', Hlm'.
        rewrite Hsp', Hsp3, Hlm', Hlm3. split; [lia |]. split; assumption.
      + destruct Hup as (Hl' & Hadd & Hcap); [lia |].
        split; [exact Hl' |].
        assert (H1 : inject_Z (Game.last_milestone g + 1) + inject_Z 1
                     <= inject_Z (Game.last_milestone g' + 1))
          by (rewrite <- inject_Z_plus, <- Zle_Qle; lia).
        change (inject_Z 1) with 1 in H1.
        destruct (Qlt_le_dec 18 (Game.speed g + 0.5)) as [Hc | Hc].
        * rewrite (Hcap Hc). split; lra.
        * rewrite (Hadd Hc). split; lra. }
  split; [| intros _; exact Hok].
  split; [lia |]. split; [now rewrite Hb' |]. now right.
Qed.

Lemma reachable_milestone (g : Game.t) : reachable A G g -> milestone_inv g.
Proof.
  intros (s & r & inputs & Hrun).
  eapply (run_invariant A G milestone_inv); [| | exact Hrun].
  - intros [| dt] g0 g1 H0 H1; cbn [Game.step] in H1.
    + inversion H1; subst. now apply on_jump_pressed_milestone.
    + exact (proj1 (update_milestone dt g0 g1 H0 H1)).
  - destruct (init_fields s r) as (_ & _ & _ & Hsp & Hsc & Hlm & _).
    pose proof (base_speed_range s r) as [_ Hb].
    split; [lia |]. split; [exact Hb |]. left. now repeat split.
Qed.

End Milestones.

(** X15.  The recorded milestone tracks the score.  A state of a session either
    has seen no frame with the player alive yet (milestone -1, score 0,
    speed the base speed), or its [last_milestone] is [score // SCORE_STEP]
    and its speed lies between the base speed plus one step and the base
    speed plus one step for each milestone from 0 to the recorded one; and
    every frame with the player alive leaves a state of the second kind. *)
Theorem milestone_tracks_score (A : Assets) (G : Pygame) (g : Game.t) :
  reachable A G g ->
  (fresh_session g \/ milestone_ok g) /\
  forall dt, Player.alive (Game.player g) = true ->
             exists g', Game.update A G dt g = Some g' /\ milestone_ok g'.
Proof.
  intros Hr. pose proof (reachable_milestone A G g Hr) as Hinv.
  split; [apply Hinv |]. intros dt Ha.
  destruct (update_total A G dt g) as [g' Hup]. exists g'. split; [exact Hup |].
  exact (proj2 (update_milestone A G dt g g' Hinv Hup) Ha).
Qed.

(** The claim on a new game. *)
Lemma milestone_tracks_score_witness :
  reachable all_assets pygame_sprites new_game /\
  (fresh_session new_game \/ milestone_ok new_game).
Proof.
  assert (Hr : reachable all_assets pygame_sprites new_game)
    by apply reachable_init.
  split; [exact Hr |].
  exact (proj1 (milestone_tracks_score all_assets pygame_sprites new_game Hr)).
Defined.

(** ** How many entities a session holds *)

Lemma spaced_filter (f : Obj -> bool) (l : list Obj) :
  spaced l -> spaced (filter f l).
Proof.
  induction l as [| o l IH]; cbn [filter spaced]; [auto |].
  intros [Ho Hl]. destruct (f o); cbn [spaced]; [| auto].
  split; [now apply Forall_filter_keeps | auto].
Qed.

Lemma spaced_map (f : Obj -> Obj) (l : list Obj) :
  (forall o, anchor (ent (f o)) = anchor (ent o)) ->
  spaced l -> spaced (map f l).
Proof.
  intros Hf. induction l as [| o l IH]; cbn [map spaced]; [auto |].
  intros [Ho Hl]. split; [| auto].
  rewrite Forall_map. eapply Forall_impl; [| exact Ho].
  cbn beta. intros a Ha. now rewrite !Hf.
Qed.

Lemma spaced_app (l1 l2 : list Obj) :
  spaced l1 -> spaced l2 ->
  (forall a b, In a l1 -> In b l2 -> anchor (ent a) + 300 <= anchor (ent b)) ->
  spaced (l1 ++ l2).
Proof.
  induction l1 as [| o l1 IH]; cbn [app spaced]; [auto |].
  intros [Ho Hl] H2 Hc. split.
  - apply Forall_app. split; [exact Ho |].
    apply Forall_forall. intros b Hb. apply Hc; [now left | exact Hb].
  - apply IH; auto. intros a b Ha Hb. apply Hc; [now right | exact Hb].
Qed.

Lemma anchor_update (A : Assets) (dt : Q) (e : Entity) :
  anchor (entity_update A dt e) = anchor e.
Proof.
  destruct e as [x | en | x]; cbn [entity_update anchor]; [reflexivity | | reflexivity].
  destruct (enemy_update_spec A dt en) as (Hl & _). cbv zeta in Hl. now rewrite Hl.
Qed.

Lemma fresh_anchor (x : Q) (e : Entity) : fresh_entity x e -> anchor e == x.
Proof.
  intros [H | [H | (sp & _ & H)]]; subst; cbn [anchor Enemy.left Enemy.init];
    [reflexivity | reflexivity | ring].
Qed.

Lemma near_anchor (e : Entity) :
  on_patrol e -> anchor e - 120 <= entity_world_x e <= anchor e + 120.
Proof.
  destruct e as [x | en | x]; cbn [on_patrol anchor entity_world_x];
    [intros _; lra | | intros _; lra].
  intros (x0 & sp & Hl & Hr & _ & Hb & _). rewrite Hl, Hr in Hb. rewrite Hl. lra.
Qed.

Lemma spawn_chain_spaced (news : list Obj) :
  forall h f, spawn_chain h f news ->
  Forall (fun o => f + 600 <= anchor (ent o)) news /\ spaced news.
Proof.
  induction news as [| o news IH]; intros h f Hch; [split; [constructor | exact I] |].
  destruct Hch as (_ & (d & Hd & Hx & Hfresh) & Hrest).
  destruct (IH h (obj_world_x o) Hrest) as [Hall Hsp].
  pose proof (fresh_anchor _ _ Hfresh) as Ha.
  unfold MIN_SPAWN_DIST, MAX_SPAWN_DIST in Hd.
  assert (H600 : inject_Z 600 <= inject_Z d) by (rewrite <- Zle_Qle; lia).
  change (inject_Z 600) with 600 in H600.
  assert (Hx' : obj_world_x o == f + inject_Z d) by (rewrite Hx; reflexivity).
  split.
  - constructor; [rewrite Ha; lra |].
    eapply Forall_impl; [| exact Hall]. cbn beta. intros b Hb. lra.
  - cbn [spaced]. split; [| exact Hsp].
    eapply Forall_impl; [| exact Hall]. cbn beta. intros b Hb. lra.
Qed.

Lemma seed_chain_spaced (news : list Obj) :
  forall x, seed_chain x news ->
  Forall (fun o => inject_Z x <= anchor (ent o)) news /\ spaced news.
Proof.
  induction news as [| o news IH]; intros x Hch; [split; [constructor | exact I] |].
  destruct Hch as (_ & Hfresh & d & Hd & Hrest).
  destruct (IH (x + d)%Z Hrest) as [Hall Hsp].
  pose proof (fresh_anchor _ _ Hfresh) as Ha.
  assert (H300 : inject_Z 300 <= inject_Z d) by (rewrite <- Zle_Qle; lia).
  change (inject_Z 300) with 300 in H300.
  split.
  - constructor; [rewrite Ha; lra |].
    eapply Forall_impl; [| exact Hall]. cbn beta. intros b Hb.
    rewrite inject_Z_plus in Hb. lra.
  - cbn [spaced]. split; [| exact Hsp].
    eapply Forall_impl; [| exact Hall]. cbn beta. intros b Hb.
    rewrite inject_Z_plus in Hb. lra.
Qed.

(** Spaced entities with their creation points in a window of width
    [hi - lo]: 300 apart, so at most one for every 300 of it. *)
Lemma spaced_length (l : list Obj) :
  forall lo hi, spaced l ->
  Forall (fun o => lo <= anchor (ent o) < hi) l -> l <> [] ->
  lo + 300 * inject_Z (Z.of_nat (List.length l)) < hi + 300.
Proof.
  induction l as [| o l IH]; intros lo hi Hsp Hall Hne; [now contradiction Hne |].
  destruct Hsp as [Ho Hsp]. inversion Hall as [| ? ? Hbo Hbl]; subst.
  cbn [List.length]. rewrite Nat2Z.inj_succ. unfold Z.succ.
  rewrite inject_Z_plus. change (inject_Z 1) with 1.
  destruct l as [| o1 l1].
  - cbn [List.length]. change (inject_Z (Z.of_nat 0)) with 0. lra.
  - assert (Hall' : Forall (fun o' => lo + 300 <= anchor (ent o') < hi) (o1 :: l1)).
    { apply Forall_forall. intros b Hb.
      rewrite Forall_forall in Ho, Hbl. specialize (Ho b Hb). specialize (Hbl b Hb).
      lra. }
    specialize (IH (lo + 300) hi Hsp Hall' ltac:(discriminate)). lra.
Qed.

Lemma length_bound (n : nat) (k : Z) (w : Q) :
  300 * inject_Z (Z.of_nat n) < w -> w <= 300 * inject_Z (k + 1) ->
  (Z.of_nat n <= k)%Z.
Proof.
  intros H1 H2. destruct (Z_le_gt_dec (Z.of_nat n) k) as [H | H]; [exact H |].
  assert (H3 : inject_Z (k + 1) <= inject_Z (Z.of_nat n)) by (rewrite <- Zle_Qle; lia).
  lra.
Qed.

Section Crowd.

Variable A : Assets.
Variable G : Pygame.

(** The parts of a frame with the player alive: what is kept of the
    active set, and the chain the spawner adds behind it. *)
Lemma frame_parts (g : Game.t) (dt : Q) :
  reachable A G g ->
  Player.alive (Game.player g) = true ->
  let g2 := Game.collisions A G (Game.advance A dt g) in
  let px := Player.world_x (Game.player g2) in
  let g4 := Game.speed_increase (Game.remove_passed g2) in
  exists g' news,
    Game.update A G dt g = Some g' /\
    Game.spawn_if_needed g4 = Some g' /\
    Game.entities g4
    = filter (fun o => negb (behind px o))
        (filter (fun o => negb (touched G (player_rect G (Game.player (Game.advance A dt g))
                                                        (Game.camera_x (Game.advance A dt g)))
                                         (Game.camera_x (Game.advance A dt g)) o))
           (map (fun o => mkObj (oid o) (entity_update A dt (ent o))) (Game.entities g))) /\
    Game.entities g' = Game.entities g4 ++ news /\
    Game.player g4 = Game.player g2 /\
    px = Player.world_x (Game.player g) + Game.speed g * (dt / REF_FRAME_MS) /\
    Game.camera_x g4 = px - WIDTH * 0.35 /\
    spawn_chain (Game.spawn_horizon g4) (Game.furthest g4) news /\
    Game.score g4
    = (Game.score g
       + Z.of_nat (List.length (filter (fun o => behind px o && passed px o)
                                       (Game.entities g2))))%Z /\
    (List.length (Game.entities g2) <= List.length (Game.entities g))%nat /\
    same_session g4 g'.
Proof.
  intros Hr Ha g2 px g4.
  pose proof (reachable_inv A G g Hr) as ((Hnd & _) & Hok & Hs & _).
  rewrite update_alive by exact Ha. fold g2. fold g4.
  destruct (advance_fields A dt g)
    as (Hp1 & Hc1 & Hid1 & Hlen1 & _ & _ & Hsc1 & _ & _ & Hpl1).
  destruct (update_keeps A dt (Game.speed g) (Game.player g)) as [Hal Hh].
  assert (Hok1 : health_ok (Game.player (Game.advance A dt g)))
    by (rewrite Hp1; unfold health_ok in *; now rewrite Hal, Hh).
  destruct (collisions_player A G (Game.advance A dt g) Hok1) as (_ & _ & Hx2);
    [now rewrite Hpl1 |]. fold g2 in Hx2. fold px in Hx2.
  assert (Hnd1 : NoDup (map oid (Game.entities (Game.advance A dt g))))
    by (now rewrite Hid1).
  pose proof (collisions_entities A G _ Hnd1) as He2. fold g2 in He2.
  assert (Hnd2 : NoDup (map oid (Game.entities g2)))
    by (rewrite He2; now apply NoDup_map_filter).
  destruct (collisions_fields A G (Game.advance A dt g)) as (Hc2 & _ & _ & Hsc2 & _).
  fold g2 in Hc2, Hsc2.
  destruct (remove_passed_fields g2) as (Hp3 & Hc3 & _).
  destruct (remove_passed_spec g2 Hnd2) as (He3 & Hsc3). fold px in He3, Hsc3.
  destruct (speed_increase_fields (Game.remove_passed g2))
    as (Hp4 & Hc4 & He4 & _ & Hsc4 & _).
  fold g4 in Hp4, Hc4, He4, Hsc4.
  destruct (spawn_if_needed_spec g4) as (g' & news & Hrun & He5 & _ & _ & Hch & _ & Hss).
  exists g', news. split; [exact Hrun |]. split; [exact Hrun |].
  split; [rewrite He4, He3, He2, advance_entities; reflexivity |].
  split; [exact He5 |].
  split; [congruence |].
  split; [rewrite Hx2, Hp1; apply update_world_x |].
  split; [rewrite Hc4, Hc3, Hc2, Hc1, Hx2; reflexivity |].
  split; [exact Hch |].
  split; [rewrite Hsc4, Hsc3, Hsc2, Hsc1; reflexivity |].
  split; [| exact Hss].
  rewrite He2. etransitivity; [apply filter_length_le |]. now rewrite Hlen1.
Qed.

Lemma update_crowd (g g' : Game.t) (dt : Q) :
  reachable A G g -> crowd_ok g ->
  Game.update A G dt g = Some g' -> crowd_ok g'.
Proof.
  intros Hr [Hsp Hlen] Hup.
  destruct (Player.alive (Game.player g)) eqn:Ha;
    [| rewrite update_dead in Hup by exact Ha; inversion Hup; subst; now split].
  assert (Hr' : reachable A G g')
    by (apply (reachable_step A G (Game.Tick dt) g g' Hr); exact Hup).
  pose proof (reachable_on_patrol A G g' Hr') as Hpat.
  destruct (frame_parts g dt Hr Ha)
    as (g1 & news & Hup' & _ & He4 & He' & Hp4 & _ & Hc4 & Hch & _ & _ & _).
  rewrite Hup' in Hup. inversion Hup; subst g1. clear Hup Hup'.
  set (px := Player.world_x (Game.player (Game.collisions A G (Game.advance A dt g)))) in *.
  set (g4 := Game.speed_increase
               (Game.remove_passed (Game.collisions A G (Game.advance A dt g)))) in *.
  assert (Hkept_sp : spaced (Game.entities g4)).
  { rewrite He4. apply spaced_filter, spaced_filter, spaced_map; [| exact Hsp].
    intros o. cbn [ent]. apply anchor_update. }
  assert (Hkept_len : (List.length (Game.entities g4) <= List.length (Game.entities g))%nat).
  { rewrite He4. etransitivity; [apply filter_length_le |].
    etransitivity; [apply filter_length_le |]. now rewrite length_map. }
  assert (Hkept_x : forall o, In o (Game.entities g4) ->
            px - 220 <= obj_world_x o <= Game.furthest g4 /\
            anchor (ent o) - 120 <= obj_world_x o <= anchor (ent o) + 120).
  { intros o Ho. split; [split |].
    - rewrite He4 in Ho. apply filter_In in Ho as [_ Hb].
      apply negb_true_iff in Hb. unfold behind in Hb. now apply Qltb_ge in Hb.
    - now apply furthest_ge_entity.
    - apply near_anchor. rewrite Forall_forall in Hpat. apply Hpat.
      rewrite He'. apply in_or_app. now left. }
  destruct (spawn_chain_spaced news _ _ Hch) as [Hnew_lo Hnew_sp].
  destruct (spawn_chain_positions news _ _ Hch) as (_ & Hnew_len & Hnew_end).
  pose proof (furthest_ge_player g4) as Hfp. rewrite Hp4 in Hfp. fold px in Hfp.
  unfold crowd_ok. rewrite He'. split.
  - apply spaced_app; [exact Hkept_sp | exact Hnew_sp |].
    intros a b Hin_a Hin_b. destruct (Hkept_x a Hin_a) as [[_ Hf] [Hn _]].
    rewrite Forall_forall in Hnew_lo. specialize (Hnew_lo b Hin_b). lra.
  - rewrite length_app. destruct news as [| o news].
    + cbn [List.length]. lia.
    + assert (Hf : Game.furthest g4 < Game.spawn_horizon g4) by apply Hch.
      specialize (Hnew_end ltac:(discriminate)).
      unfold Game.spawn_horizon in Hf, Hnew_end. rewrite Hc4 in Hf, Hnew_end.
      unfold WIDTH, MIN_SPAWN_DIST in Hf, Hnew_end.
      change (inject_Z 600) with 600 in Hf, Hnew_end.
      assert (Hn3 : (Z.of_nat (List.length (o :: news)) <= 3)%Z).
      { apply (length_bound _ 3 (300 * inject_Z (Z.of_nat (List.length (o :: news))) + 1)).
        - lra.
        - change (inject_Z (3 + 1)) with 4.
          revert Hnew_len Hnew_end. generalize (chain_end (Game.furthest g4) (o :: news)).
          generalize (inject_Z (Z.of_nat (List.length (o :: news)))). intros n c H1 H2.
          lra. }
      assert (Hk6 : (Z.of_nat (List.length (Game.entities g4)) <= 6)%Z).
      { destruct (Game.entities g4) as [| k0 kept] eqn:Ek; [cbn; lia |].
        assert (Hwin : Forall (fun o' => px - 340 <= anchor (ent o') < px + 1344)
                              (k0 :: kept)).
        { apply Forall_forall. intros a Hin_a.
          destruct (Hkept_x a Hin_a) as [[Hlo Hhi] [Hn1 Hn2]]. lra. }
        pose proof (spaced_length (k0 :: kept) _ _ Hkept_sp Hwin ltac:(discriminate)) as Hl.
        apply (length_bound _ 6 2100); [lra | change (inject_Z (6 + 1)) with 7; lra]. }
      lia.
Qed.

Lemma reachable_crowd (g : Game.t) : reachable A G g -> crowd_ok g.
Proof.
  intros Hr. pose proof Hr as (s & r & inputs & Hrun).
  assert (H : reachable A G g /\ crowd_ok g); [| apply H].
  eapply (run_invariant A G (fun g => reachable A G g /\ crowd_ok g));
    [| | exact Hrun].
  - intros i g0 g1 [Hr0 Hc0] Hstep.
    split; [eapply reachable_step; eassumption |].
    destruct i as [| dt]; cbn [Game.step] in Hstep.
    + inversion Hstep; subst. unfold Game.on_jump_pressed, crowd_ok in *.
      destruct (Player.alive _); [destruct (Player.jump _ _) |]; exact Hc0.
    + eapply update_crowd; eassumption.
  - split; [apply reachable_init |].
    destruct (init_entities s r) as (news & He & Hlen & _ & _ & Hch).
    unfold crowd_ok. rewrite He, Hlen.
    split; [apply (seed_chain_spaced news 600 Hch) | lia].
Qed.

End Crowd.

(** ** C4: the speed ramp *)

Section Ramp.

Variable A : Assets.
Variable G : Pygame.

(** A frame scores at most 9: one for each entity of the active set. *)
Lemma frame_gain (g : Game.t) (dt : Q) :
  reachable A G g ->
  Player.alive (Game.player g) = true ->
  let g3 := Game.remove_passed (Game.collisions A G (Game.advance A dt g)) in
  (Game.score g <= Game.score g3 <= Game.score g + 9)%Z.
Proof.
  intros Hr Ha g3.
  destruct (reachable_crowd A G g Hr) as [_ Hlen].
  destruct (frame_parts A G g dt Hr Ha)
    as (g' & news & _ & _ & _ & _ & _ & _ & _ & _ & Hsc & Hl2 & _).
  destruct (speed_increase_fields g3) as (_ & _ & _ & _ & Hsc4 & _).
  fold g3 in Hsc. rewrite Hsc4 in Hsc. rewrite Hsc.
  pose proof (filter_length_le
                (fun o => behind (Player.world_x
                                    (Game.player (Game.collisions A G (Game.advance A dt g)))) o
                          && passed (Player.world_x
                                       (Game.player (Game.collisions A G (Game.advance A dt g)))) o)
                (Game.entities (Game.collisions A G (Game.advance A dt g)))) as Hf.
  lia.
Qed.

(** So a frame takes the milestone at most one further. *)
Lemma frame_milestone (g : Game.t) (dt : Q) :
  reachable A G g ->
  Player.alive (Game.player g) = true ->
  let g3 := Game.remove_passed (Game.collisions A G (Game.advance A dt g)) in
  (Game.score g3 / SCORE_STEP <= Game.last_milestone g + 1)%Z.
Proof.
  intros Hr Ha g3. pose proof (frame_gain g dt Hr Ha) as Hg. cbv zeta in Hg. fold g3 in Hg.
  destruct (reachable_milestone A G g Hr) as (Hsc & _ & Hm).
  unfold SCORE_STEP.
  assert (Hd : (Game.score g3 / 10 <= (Game.score g + 1 * 10) / 10)%Z)
    by (apply Z.div_le_mono; lia).
  rewrite Z.div_add in Hd by lia.
  destruct Hm as [(Hl & Hs0 & _) | (Hl & _)].
  - rewrite Hs0 in Hg. rewrite Z.div_small by lia. lia.
  - unfold SCORE_STEP in Hl. lia.
Qed.

Lemma update_ramp (g g' : Game.t) (dt : Q) :
  reachable A G g -> ramp_ok g ->
  Game.update A G dt g = Some g' -> ramp_ok g'.
Proof.
  intros Hr Hramp Hup.
  destruct (Player.alive (Game.player g)) eqn:Ha;
    [| rewrite update_dead in Hup by exact Ha; now inversion Hup; subst].
  destruct (update_alive_speed A G dt g Ha)
    as (g1 & Hup' & Hsp3 & Hlm3 & Hb' & Hsc' & Hsp' & Hlm').
  rewrite Hup' in Hup. inversion Hup; subst g1. clear Hup Hup'.
  pose proof (frame_milestone g dt Hr Ha) as Hm1.
  revert Hsp3 Hlm3 Hsc' Hsp' Hlm' Hm1.
  generalize (Game.remove_passed (Game.collisions A G (Game.advance A dt g))).
  intros g3 Hsp3 Hlm3 Hsc' Hsp' Hlm' Hm1. cbv zeta in Hm1.
  destruct (speed_increase_spec g3) as [Hsame Hnew]. cbv zeta in Hsame, Hnew.
  rewrite Hlm3 in Hsame, Hnew. rewrite Hsp3 in Hnew.
  unfold ramp_ok in *. cbv zeta in *. rewrite Hb'.
  destruct (Z_le_gt_dec (Game.score g3 / SCORE_STEP) (Game.last_milestone g))
    as [Hle | Hgt].
  - rewrite Hsp', Hlm', (Hsame Hle), Hsp3, Hlm3. exact Hramp.
  - destruct (Hnew ltac:(lia)) as (Hl' & Hadd & Hcap).
    assert (El : Game.last_milestone g' = (Game.last_milestone g + 1)%Z)
      by (rewrite Hlm', Hl'; lia).
    rewrite El, Hsp'.
    assert (E1 : inject_Z (Game.last_milestone g + 1 + 1)
                 == inject_Z (Game.last_milestone g + 1) + 1)
      by (rewrite inject_Z_plus; reflexivity).
    rewrite E1. destruct Hramp as [Hr1 Hr2].
    unfold SPEED_INCREASE_STEP in *.
    revert Hr1 Hr2 Hadd Hcap.
    generalize (inject_Z (Game.last_milestone g + 1)) as n.
    generalize (Game.speed (Game.speed_increase g3)) as s'.
    generalize (Game.speed g) as s0, (Game.base_speed g) as b.
    intros s0 b s' n Hr1 Hr2 Hadd Hcap.
    destruct (Qlt_le_dec 18 (b + 0.5 * n)) as [Hc | Hc];
      [pose proof (Hr2 ltac:(lra)) as Hs | pose proof (Hr1 Hc) as Hs];
      (destruct (Qlt_le_dec 18 (s0 + 0.5)) as [Hd | Hd];
       [rewrite (Hcap Hd) | rewrite (Hadd Hd)]);
      split; intros; lra.
Qed.

Lemma reachable_ramp (g : Game.t) : reachable A G g -> ramp_ok g.
Proof.
  intros Hr. pose proof Hr as (s & r & inputs & Hrun).
  assert (H : reachable A G g /\ ramp_ok g); [| apply H].
  eapply (run_invariant A G (fun g => reachable A G g /\ ramp_ok g));
    [| | exact Hrun].
  - intros i g0 g1 [Hr0 Hc0] Hstep.
    split; [eapply reachable_step; eassumption |].
    destruct i as [| dt]; cbn [Game.step] in Hstep.
    + inversion Hstep; subst. unfold Game.on_jump_pressed, ramp_ok in *.
      destruct (Player.alive _); [destruct (Player.jump _ _) |]; exact Hc0.
    + eapply update_ramp; eassumption.
  - split; [apply reachable_init |].
    destruct (init_fields s r) as (_ & _ & _ & Hsp & _ & Hlm & _).
    pose proof (base_speed_range s r) as [_ Hb].
    unfold ramp_ok. cbv zeta. rewrite Hlm, Hsp.
    change (inject_Z (-1 + 1)) with 0. unfold SPEED_INCREASE_STEP.
    split; intros; lra.
Qed.

End Ramp.

(** C4, as the code has it.  In every state of a session the speed is at
    most 18, and it never decreases over any further inputs.  It is the
    base speed plus one step of 0.5 for each milestone from 0 to the
    recorded one, or 18 where that sum reaches 18 ([ramp_ok]).  In a frame
    with the player alive the score grows by at most 9, so the milestone
    of the frame, the score after the cull pass divided by [SCORE_STEP],
    is at most one beyond the recorded one: no frame of a session crosses
    two multiples of [SCORE_STEP].  If the milestone does not exceed the
    recorded one, milestone and speed stay; if it does, it is recorded and
    the speed grows by one step of 0.5, or to 18 when the step would pass
    18. *)
Theorem C4_speed_ramp (A : Assets) (G : Pygame) (g : Game.t) :
  reachable A G g ->
  Game.speed g <= 18 /\
  (forall inputs, exists g',
      Game.run A G inputs g = Some g' /\
      Game.speed g <= Game.speed g' /\ Game.speed g' <= 18) /\
  ramp_ok g /\
  (forall dt, Player.alive (Game.player g) = true ->
     let g3 := Game.remove_passed (Game.collisions A G (Game.advance A dt g)) in
     let milestone := (Game.score g3 / SCORE_STEP)%Z in
     exists g',
       Game.update A G dt g = Some g' /\
       Game.score g' = Game.score g3 /\
       (Game.score g <= Game.score g3 <= Game.score g + 9)%Z /\
       (milestone <= Game.last_milestone g + 1)%Z /\
       ((milestone <= Game.last_milestone g)%Z ->
        Game.last_milestone g' = Game.last_milestone g /\
        Game.speed g' = Game.speed g) /\
       ((Game.last_milestone g < milestone)%Z ->
        Game.last_milestone g' = milestone /\
        (Game.speed g + SPEED_INCREASE_STEP <= 18 ->
         Game.speed g' = Game.speed g + SPEED_INCREASE_STEP) /\
        (18 < Game.speed g + SPEED_INCREASE_STEP -> Game.speed g' = 18))).
Proof.
  intros Hr.
  pose proof (reachable_inv A G g Hr) as (_ & _ & _ & _ & Hsp & _).
  split; [exact Hsp |].
  split.
  { intros inputs. destruct (run_speed A G inputs g Hsp) as (g' & H1 & H2 & H3 & _).
    exists g'. auto. }
  split; [exact (reachable_ramp A G g Hr) |].
  intros dt Ha g3 milestone.
  pose proof (frame_gain A G g dt Hr Ha) as Hgain.
  pose proof (frame_milestone A G g dt Hr Ha) as Hmil.
  cbv zeta in Hgain, Hmil. fold g3 in Hgain, Hmil. fold milestone in Hmil.
  destruct (update_alive_speed A G dt g Ha)
    as (g' & Hup & Hsp3 & Hlm3 & _ & Hsc & Hsp' & Hlm').
  fold g3 in Hsp3, Hlm3, Hsc, Hsp', Hlm'.
  destruct (speed_increase_spec g3) as [Hsame Hnew]. fold milestone in Hsame, Hnew.
  rewrite Hlm3 in Hsame, Hnew. rewrite Hsp3 in Hnew.
  exists g'. split; [exact Hup |]. split; [exact Hsc |].
  split; [exact Hgain |]. split; [exact Hmil |].
  split.
  - intros Hm. rewrite Hlm', Hsp', (Hsame Hm). auto.
  - intros Hm. destruct (Hnew Hm) as (H1 & H2 & H3).
    rewrite Hlm', Hsp'. auto.
Qed.

(** The claim on the first frame of a new game: the speed goes from 4 to
    4.5. *)
Lemma C4_witness :
  reachable all_assets pygame_sprites new_game /\
  Game.speed new_game <= 18 /\
  exists g', Game.run all_assets pygame_sprites [Game.Tick 16.67] new_game = Some g' /\
             Game.speed new_game <= Game.speed g'.
Proof.
  assert (Hr : reachable all_assets pygame_sprites new_game)
    by apply reachable_init.
  split; [exact Hr |].
  destruct (C4_speed_ramp all_assets pygame_sprites new_game Hr) as (H18 & Hrun & _).
  split; [exact H18 |].
  destruct (Hrun [Game.Tick 16.67]) as (g' & Hg & Hle & _).
  exists g'. split; [exact Hg | exact Hle].
Defined.

(** *** A session that reaches the cap *)

Lemma zero_randint (a b : Z) (r : Random.t) :
  zero_source r -> (0 < b - a + 1)%Z ->
  fst (Random.randint a b r) = a /\ zero_source (snd (Random.randint a b r)).
Proof.
  intros Hz Hab. unfold Random.randint, Random.next. cbn [fst snd].
  rewrite Hz, Z.mod_0_l by lia. split; [lia | exact Hz].
Qed.

Lemma zero_choices3 {X : Type} (x1 x2 x3 : X) (w1 w2 w3 : Q) (r : Random.t) :
  zero_source r -> 0 < w1 ->
  fst (Random.choices3 x1 x2 x3 w1 w2 w3 r) = x1 /\
  zero_source (snd (Random.choices3 x1 x2 x3 w1 w2 w3 r)).
Proof.
  intros Hz Hw. unfold Random.choices3, Random.random, Random.next. cbn [fst snd].
  rewrite Hz. split; [| exact Hz].
  assert (E : inject_Z (0 mod 1000000) / 1000000 == 0) by reflexivity.
  assert (Hlt : Qltb (inject_Z (0 mod 1000000) / 1000000 * (w1 + w2 + w3)) w1 = true)
    by (apply Qltb_lt; rewrite E; lra).
  now rewrite Hlt.
Qed.

(** With a generator of zeros the spawner adds boxes 600 apart. *)
Lemma spawn_loop_zero (fuel : nat) :
  forall (f : Q) (g g' : Game.t),
  zero_source (Game.rng g) ->
  Game.spawn_loop fuel f g = Some g' ->
  exists news,
    Game.entities g' = Game.entities g ++ news /\
    zero_source (Game.rng g') /\
    zero_chain (Game.spawn_horizon g) f news.
Proof.
  induction fuel as [| k IH]; intros f g g' Hz Hrun; cbn [Game.spawn_loop] in Hrun;
    case_Qltb f (Game.spawn_horizon g); try discriminate.
  - inversion Hrun; subst. exists []. rewrite app_nil_r. now repeat split.
  - destruct (zero_randint MIN_SPAWN_DIST MAX_SPAWN_DIST (Game.rng g) Hz) as [Hd Hz1];
      [unfold MIN_SPAWN_DIST, MAX_SPAWN_DIST; lia |].
    destruct (Random.randint MIN_SPAWN_DIST MAX_SPAWN_DIST (Game.rng g)) as [d r1].
    cbn [fst snd] in Hd, Hz1. subst d.
    destruct (zero_choices3 TBox TEnemy TPotion 0.60 0.35
                (clamp (Game.potion_weight g) 0.02 0.15) r1 Hz1) as [Ht Hz2];
      [reflexivity |].
    destruct (Random.choices3 TBox TEnemy TPotion 0.60 0.35
                (clamp (Game.potion_weight g) 0.02 0.15) r1) as [typ r2].
    cbn [fst snd] in Ht, Hz2. subst typ.
    unfold MIN_SPAWN_DIST in Hrun.
    assert (Hz3 : zero_source
                    (Game.rng (Game.append_new TBox (f + inject_Z 600)
                                 (Game.set_rng r2 g)))) by exact Hz2.
    destruct (IH _ _ _ Hz3 Hrun) as (news & He & Hz' & Hch).
    exists (mkObj (Game.next_id g) (EBox (f + inject_Z 600)) :: news).
    split; [rewrite He; cbn; now rewrite <- app_assoc |].
    split; [exact Hz' |].
    cbn [zero_chain ent]. split; [exact Hcmp |]. split; [reflexivity | exact Hch].
  - inversion Hrun; subst. exists []. rewrite app_nil_r. now repeat split.
Qed.

(** From the player's position, with the horizon 1224 ahead, that makes
    three boxes. *)
Lemma zero_chain_three (px h f : Q) (news : list Obj) :
  h == px + 1224 -> f == px -> zero_chain h f news ->
  List.length news = 3%nat /\
  Forall (fun o => exists x, ent o = EBox x /\ x < px + 2600) news.
Proof.
  intros Hh Hf Hch.
  destruct news as [| o1 [| o2 [| o3 [| o4 rest]]]]; cbn [zero_chain] in Hch;
    change (inject_Z 600) with 600 in Hch.
  - exfalso. lra.
  - exfalso. destruct Hch as (_ & _ & H). lra.
  - exfalso. destruct Hch as (_ & _ & _ & _ & H). lra.
  - destruct Hch as (_ & E1 & _ & E2 & _ & E3 & _).
    split; [reflexivity |].
    repeat constructor; eexists; (split; [eassumption | lra]).
  - exfalso. destruct Hch as (_ & _ & _ & _ & _ & _ & H & _). lra.
Qed.

Section Cruise.

Variable A : Assets.
Variable G : Pygame.

Lemma collide_fold_boxes (p_rect : Rect G) (cam : Q) (l : list Obj) :
  Forall (fun o => exists x, ent o = EBox x) l ->
  forall st, fold_left (Game.collide A G p_rect cam) l st = st.
Proof.
  induction 1 as [| o l (x & Hx) _ IH]; intros st; cbn [fold_left]; [reflexivity |].
  assert (E : Game.collide A G p_rect cam st o = st).
  { unfold Game.collide. destruct st as [[p ents] snd0]. rewrite Hx.
    now destruct (colliderect G p_rect (entity_rect G (EBox x) cam)). }
  rewrite E. apply IH.
Qed.

Lemma collisions_boxes (g : Game.t) :
  Forall (fun o => exists x, ent o = EBox x) (Game.entities g) ->
  Game.player (Game.collisions A G g) = Game.player g /\
  Game.entities (Game.collisions A G g) = Game.entities g.
Proof.
  intros H. unfold Game.collisions. rewrite collide_fold_boxes by exact H.
  split; reflexivity.
Qed.

Lemma frame_rng (g : Game.t) (dt : Q) :
  Game.rng (Game.speed_increase
              (Game.remove_passed (Game.collisions A G (Game.advance A dt g))))
  = Game.rng g.
Proof.
  unfold Game.speed_increase.
  destruct (_ >? _)%Z; [destruct (Qgtb _ _) |];
    cbn [Game.rng Game.set_speed Game.set_last_milestone];
    unfold Game.remove_passed; destruct (fold_left _ _ _) as [sc ents];
    cbn [Game.rng Game.set_entities Game.set_score];
    unfold Game.collisions; destruct (fold_left _ _ _) as [[p ents'] snd0];
    reflexivity.
Qed.

Lemma map_update_boxes (dt : Q) (l : list Obj) :
  Forall (fun o => exists x, ent o = EBox x) l ->
  map (fun o => mkObj (oid o) (entity_update A dt (ent o))) l = l.
Proof.
  induction 1 as [| o l (x & Hx) _ IH]; cbn [map]; [reflexivity |].
  rewrite IH. f_equal. destruct o as [i e]. cbn [ent oid] in *. now subst e.
Qed.

(** One frame of 100 seconds of a cruising session: every entity is
    passed and scored, and three new boxes are spawned. *)
Lemma cruise_step (g : Game.t) :
  cruising A G g ->
  exists g',
    Game.update A G 100000 g = Some g' /\
    cruising A G g' /\
    Game.score g' = (Game.score g + Z.of_nat (List.length (Game.entities g)))%Z /\
    List.length (Game.entities g') = 3%nat.
Proof.
  intros (Hr & Ha & Hz & Hbox & Hb).
  assert (Hboxes : Forall (fun o => exists x, ent o = EBox x) (Game.entities g)).
  { eapply Forall_impl; [| exact Hbox]. cbn beta. intros o (x & Hx & _). now exists x. }
  pose proof (reachable_inv A G g Hr) as (_ & _ & _ & _ & Hsp18 & _).
  destruct (reachable_milestone A G g Hr) as (_ & _ & Hm).
  assert (Hsp : 4 <= Game.speed g).
  { destruct Hm as [(_ & _ & Hs) | (_ & Hs & _)];
      [rewrite Hs | unfold SPEED_INCREASE_STEP in Hs]; lra. }
  destruct (frame_parts A G g 100000 Hr Ha)
    as (g' & news & Hup & Hspawn & He4 & He' & Hp4 & Hpx & Hc4 & _ & Hsc4 & _ & Hss).
  pose proof (frame_rng g 100000) as Hrng.
  assert (Hadv : Game.entities (Game.advance A 100000 g) = Game.entities g)
    by (rewrite advance_entities; now apply map_update_boxes).
  destruct (collisions_boxes (Game.advance A 100000 g)) as [Hp2 He2];
    [now rewrite Hadv |].
  rewrite Hadv in He2. rewrite map_update_boxes in He4 by exact Hboxes.
  rewrite He2 in Hsc4.
  revert Hspawn He4 He' Hp4 Hpx Hc4 Hsc4 Hss Hrng.
  generalize (Game.speed_increase
                (Game.remove_passed (Game.collisions A G (Game.advance A 100000 g)))).
  intros g4.
  remember (Player.world_x (Game.player (Game.collisions A G (Game.advance A 100000 g))))
    as px eqn:Epx.
  intros Hspawn He4 He' Hp4 Hpx Hc4 Hsc4 Hss Hrng.
  (* the player has left everything behind *)
  assert (Ht : 5998 <= 100000 / REF_FRAME_MS)
    by (unfold REF_FRAME_MS; apply Qle_bool_iff; reflexivity).
  assert (Hmove : Player.world_x (Game.player g) + 23992 <= px).
  { rewrite Hpx.
    assert (4 * 5998 <= Game.speed g * (100000 / REF_FRAME_MS)).
    { apply Qmult_le_compat_nonneg; split; lra. }
    lra. }
  assert (Hall : forall o, In o (Game.entities g) ->
                 behind px o = true /\ passed px o = true).
  { intros o Ho. rewrite Forall_forall in Hbox. destruct (Hbox o Ho) as (x & Hx & Hlt).
    unfold behind, passed, Qgtb, obj_world_x. rewrite Hx. cbn [entity_world_x].
    split; apply Qltb_lt; lra. }
  assert (Hnone : Game.entities g4 = []).
  { rewrite He4. apply filter_none. intros o Ho.
    apply filter_In in Ho as [Ho _]. destruct (Hall o Ho) as [Hbh _]. now rewrite Hbh. }
  assert (Hcount : filter (fun o => behind px o && passed px o) (Game.entities g)
                   = Game.entities g).
  { apply filter_all. intros o Ho. destruct (Hall o Ho) as [H1 H2]. now rewrite H1, H2. }
  rewrite Hcount in Hsc4.
  (* the spawner *)
  unfold Game.spawn_if_needed in Hspawn.
  destruct (spawn_loop_zero _ _ _ _ ltac:(rewrite Hrng; exact Hz) Hspawn)
    as (news' & He'' & Hz' & Hch).
  rewrite Hnone in He', He''. cbn [app] in He', He''.
  assert (Hfur : Game.furthest g4 = Player.world_x (Game.player g4)).
  { unfold Game.furthest. rewrite Hnone. reflexivity. }
  assert (Hpx4 : Player.world_x (Game.player g4) = px) by (now rewrite Hp4, Epx).
  destruct (zero_chain_three px (Game.spawn_horizon g4) (Game.furthest g4) news') as [Hlen3 Hnew];
    [unfold Game.spawn_horizon, WIDTH, MIN_SPAWN_DIST; rewrite Hc4;
     change (inject_Z 600) with 600; unfold WIDTH; ring
    | rewrite Hfur, Hpx4; reflexivity | exact Hch |].
  destruct Hss as (Hp' & _ & _ & Hb' & _ & Hsc' & _).
  destruct (update_speed A G 100000 g g' Hsp18 Hup) as (_ & _ & Hbase).
  exists g'. split; [exact Hup |].
  split; [| split; [rewrite Hsc'; exact Hsc4 | now rewrite He'']].
  split; [apply (reachable_step A G (Game.Tick 100000) g g' Hr); exact Hup |].
  assert (Hpl : Game.player g' = Player.update A 100000 (Game.speed g) (Game.player g)).
  { rewrite Hp', Hp4, Hp2. apply advance_fields. }
  split; [rewrite Hpl; now rewrite (proj1 (update_keeps A 100000 (Game.speed g) (Game.player g))) |].
  split; [exact Hz' |].
  split; [rewrite He'', Hp', Hpx4; exact Hnew |].
  now rewrite Hbase.
Qed.

Lemma cruise_run (k : nat) :
  forall g,
  cruising A G g ->
  exists g',
    Game.run A G (long_frames (S k)) g = Some g' /\
    cruising A G g' /\
    List.length (Game.entities g') = 3%nat /\
    Game.score g'
    = (Game.score g + Z.of_nat (List.length (Game.entities g)) + 3 * Z.of_nat k)%Z.
Proof.
  induction k as [| k IH]; intros g Hc;
    destruct (cruise_step g Hc) as (g1 & Hup & Hc1 & Hsc1 & Hl1).
  - cbn [long_frames repeat Game.run Game.step]. rewrite Hup.
    exists g1. split; [reflexivity |]. split; [exact Hc1 |]. split; [exact Hl1 | lia].
  - destruct (IH g1 Hc1) as (g' & Hrun & Hc' & Hl' & Hsc').
    assert (E : Game.run A G (long_frames (S (S k))) g
                = Game.run A G (long_frames (S k)) g1).
    { change (long_frames (S (S k))) with (Game.Tick 100000 :: long_frames (S k)).
      cbn [Game.run Game.step]. now rewrite Hup. }
    exists g'. split; [now rewrite E |]. split; [exact Hc' |]. split; [exact Hl' |].
    rewrite Hsc', Hsc1, Hl1. lia.
Qed.

End Cruise.

Lemma new_game_cruising (A : Assets) (G : Pygame) :
  cruising A G new_game /\
  List.length (Game.entities new_game) = 5%nat /\
  Game.score new_game = 0%Z.
Proof.
  destruct (init_fields DEFAULT_SETTINGS zero_rng) as (Hp & _ & _ & _ & Hsc & _).
  destruct (init_entities DEFAULT_SETTINGS zero_rng) as (news & He & Hlen & _).
  fold new_game in Hp, Hsc, He.
  assert (Hz : zero_source (Game.rng new_game))
    by (intros n; vm_compute; reflexivity).
  assert (Hb : Game.base_speed new_game == 4)
    by (apply Qeq_bool_iff; vm_compute; reflexivity).
  assert (Hbox : forallb (fun o => match ent o with
                                   | EBox x => Qltb x 2700
                                   | _ => false
                                   end) (Game.entities new_game) = true)
    by (vm_compute; reflexivity).
  assert (Hr : reachable A G new_game) by apply reachable_init.
  revert Hp Hsc He Hz Hb Hbox Hr. generalize new_game.
  intros g Hp Hsc He Hz Hb Hbox Hr.
  split; [| split; [now rewrite He | exact Hsc]].
  split; [exact Hr |]. split; [now rewrite Hp |]. split; [exact Hz |].
  split; [| exact Hb].
  apply Forall_forall. intros o Ho. rewrite forallb_forall in Hbox.
  specialize (Hbox o Ho). destruct (ent o) as [x | en | x]; try discriminate.
  exists x. split; [reflexivity |]. apply Qltb_lt in Hbox.
  rewrite Hp. cbn [Player.world_x Player.init]. lra.
Qed.

(** A cruising session with a known score: its milestone and its speed. *)
Lemma cruising_at (A : Assets) (G : Pygame) (g : Game.t) (sc : Z) :
  cruising A G g -> Game.score g = sc -> (270 <= sc)%Z ->
  Game.last_milestone g = (sc / 10)%Z /\ Game.speed g == 18.
Proof.
  intros (Hr & _ & _ & _ & Hb) Hsc Hge.
  destruct (reachable_milestone A G g Hr) as (_ & _ & [(_ & H0 & _) | (Hl & _)]);
    [lia |].
  unfold SCORE_STEP in Hl. rewrite Hsc in Hl. split; [exact Hl |].
  destruct (reachable_ramp A G g Hr) as [_ Hcap]. apply Hcap.
  rewrite Hl, Hb. unfold SPEED_INCREASE_STEP.
  assert (H27 : (27 <= sc / 10)%Z)
    by (change 27%Z with (270 / 10)%Z; apply Z.div_le_mono; lia).
  assert (H28 : inject_Z 28 <= inject_Z (sc / 10 + 1)) by (rewrite <- Zle_Qle; lia).
  change (inject_Z 28) with 28 in H28. lra.
Qed.

(** C4 as stated fails at the cap.  Take the session of a new game on
    "Normal" whose generator only draws zeros (every seed and every spawn
    is a box at the least distance) and whose frames last 100 seconds
    each: every frame passes all the boxes there are and spawns three.
    After 92 frames the score is 278, the recorded milestone 27 and the
    speed 18.  Frame 93 takes the score to 281: milestone 28 exceeds the
    recorded 27 and is recorded, but the speed stays at 18 instead of
    growing by 0.5. *)
Lemma C4_counterexample :
  exists g g',
    Game.run all_assets pygame_sprites (repeat (Game.Tick 100000) 92) new_game
    = Some g /\
    Game.update all_assets pygame_sprites 100000 g = Some g' /\
    Player.alive (Game.player g) = true /\
    Game.score g = 278%Z /\
    Game.last_milestone g = 27%Z /\
    Game.speed g == 18 /\
    Game.score g' = 281%Z /\
    (Game.last_milestone g < Game.score g' / SCORE_STEP)%Z /\
    Game.last_milestone g' = 28%Z /\
    Game.speed g' == 18 /\
    ~ Game.speed g' == Game.speed g + SPEED_INCREASE_STEP.
Proof.
  destruct (new_game_cruising all_assets pygame_sprites) as (Hc0 & Hl0 & Hs0).
  destruct (cruise_run all_assets pygame_sprites 91 new_game Hc0)
    as (g & Hrun & Hc & Hl & Hsc).
  rewrite Hl0, Hs0 in Hsc.
  assert (Hsc278 : Game.score g = 278%Z) by (rewrite Hsc; reflexivity).
  clear Hsc Hc0 Hl0 Hs0.
  destruct (cruise_step all_assets pygame_sprites g Hc) as (g' & Hup & Hc' & Hsc' & _).
  rewrite Hl, Hsc278 in Hsc'.
  assert (Hsc281 : Game.score g' = 281%Z) by (rewrite Hsc'; reflexivity).
  clear Hsc'.
  destruct (cruising_at _ _ g 278 Hc Hsc278 ltac:(lia)) as [Hm Hs].
  destruct (cruising_at _ _ g' 281 Hc' Hsc281 ltac:(lia)) as [Hm' Hs'].
  change (278 / 10)%Z with 27%Z in Hm. change (281 / 10)%Z with 28%Z in Hm'.
  exists g, g'. split; [exact Hrun |]. split; [exact Hup |].
  split; [apply Hc |]. split; [exact Hsc278 |]. split; [exact Hm |].
  split; [exact Hs |]. split; [exact Hsc281 |].
  split; [rewrite Hm, Hsc281; reflexivity |].
  split; [exact Hm' |]. split; [exact Hs' |].
  rewrite Hs, Hs'. unfold SPEED_INCREASE_STEP. intros H. lra.
Qed.

(** ** The app: screens, games and the high score *)

Ltac app_fields :=
  cbn [App.state App.game App.high_score App.volume App.difficulty
       App.start_hovered App.settings_hovered App.quit_hovered App.settings
       App.sound_volume App.settings_file App.save_file App.rng
       App.set_state App.set_game App.set_high_score App.set_volume
       App.set_difficulty App.set_hovered App.set_settings App.set_sound_volume
       App.set_settings_file App.set_save_file App.set_rng] in *.

Lemma set_speed_same (g : Game.t) : Game.set_speed (Game.speed g) g = g.
Proof. now destruct g. Qed.

Lemma save_file_ok_append (h0 v : Z) (a : App.t) :
  save_file_ok h0 a -> (App.high_score a <= v)%Z ->
  save_file_ok h0
    (App.set_save_file (App.save_file a ++ [v]) (App.set_high_score v a)).
Proof.
  intros (Hle & _ & Hall) Hv. unfold save_file_ok. app_fields.
  split; [lia |]. split; [right; now exists (App.save_file a) |].
  apply Forall_app. split.
  - eapply Forall_impl; [| exact Hall]. cbn beta. intros w Hw. lia.
  - constructor; [lia | constructor].
Qed.

Section AppFacts.

Variable A : Assets.
Variable G : Pygame.
Variable h0 : Z.


Lemma record_high_score_spec (g : Game.t) (a : App.t) :
  let a' := App.record_high_score g a in
  App.state a' = App.state a /\ App.game a' = App.game a /\
  App.volume a' = App.volume a /\ App.sound_volume a' = App.sound_volume a /\
  App.difficulty a' = App.difficulty a /\
  App.high_score a' = Z.max (App.high_score a) (Game.score g) /\
  (save_file_ok h0 a -> save_file_ok h0 a').
Proof.
  unfold App.record_high_score.
  destruct (Game.score g >? App.high_score a)%Z eqn:Hc; app_fields.
  - apply Z.gtb_lt in Hc.
    do 5 (split; [reflexivity |]). split; [lia |].
    intros H. apply save_file_ok_append; [exact H | lia].
  - rewrite Z.gtb_ltb in Hc. apply Z.ltb_ge in Hc.
    do 5 (split; [reflexivity |]). split; [lia | auto].
Qed.

Lemma start_game_spec (a : App.t) :
  let a' := App.start_game a in
  App.state a' = App.Playing /\
  App.game a' = Some (Game.init (App.current_settings a) (App.generator a)) /\
  App.high_score a' = App.high_score a /\
  App.save_file a' = App.save_file a /\
  App.volume a' = App.volume a /\
  App.sound_volume a' = App.volume a /\
  App.difficulty a' = App.difficulty a /\
  App.settings a' = App.current_settings a /\
  App.settings_file a' = App.settings_file a ++ [App.current_settings a].
Proof.
  unfold App.start_game. cbv zeta.
  set (a3 := App.set_settings_file _ _).
  assert (Hs : App.settings a3 = App.current_settings a) by reflexivity.
  assert (Hg : App.generator a3 = App.generator a) by reflexivity.
  rewrite Hs, Hg.
  destruct (init_fields (App.current_settings a) (App.generator a))
    as (_ & _ & _ & Hsp & _).
  revert Hsp. generalize (Game.init (App.current_settings a) (App.generator a)).
  intros g Hsp. rewrite <- Hsp, set_speed_same.
  subst a3. app_fields. repeat split.
Qed.

Lemma start_game_keeps (a : App.t) :
  save_file_ok h0 a -> app_keeps A G h0 a (App.start_game a).
Proof.
  intros Hf.
  destruct (start_game_spec a) as (Hst & Hg & Hh & Hsf & Hv & Hsv & _).
  cbv zeta in *. unfold app_keeps, app_ok, save_file_ok in *.
  rewrite Hg, Hst, Hh, Hsf, Hv, Hsv.
  split; [| split; [exact Hf | lia]].
  split; [reflexivity |]. split; [reflexivity |].
  split; [apply reachable_init |].
  destruct (init_fields (App.current_settings a) (App.generator a)) as (Hp & _).
  rewrite Hp. cbn [Player.alive Player.init]. discriminate.
Qed.

Lemma end_game_keeps (a : App.t) :
  app_ok A G a -> save_file_ok h0 a -> app_keeps A G h0 a (App.end_game a).
Proof.
  intros (Hv & Hg) Hf. unfold App.end_game.
  destruct (App.game a) as [g |] eqn:Eg.
  - destruct (record_high_score_spec g a) as (_ & _ & Hv' & Hsv' & _ & Hh & Hf').
    cbv zeta in *. specialize (Hf' Hf). revert Hv' Hsv' Hh Hf'.
    generalize (App.record_high_score g a). intros a1 Hv' Hsv' Hh Hf'.
    unfold app_keeps, app_ok, save_file_ok in *. app_fields.
    split; [split; [congruence | discriminate] |]. split; [exact Hf' | lia].
  - unfold app_keeps, app_ok, save_file_ok in *. app_fields.
    split; [split; [exact Hv | discriminate] |]. split; [exact Hf | lia].
Qed.

Lemma save_settings_and_back_keeps (a : App.t) :
  App.game a = None -> save_file_ok h0 a ->
  app_keeps A G h0 a (App.save_settings_and_back a).
Proof.
  intros Hg Hf. unfold App.save_settings_and_back, app_keeps, app_ok, save_file_ok in *.
  app_fields. rewrite Hg.
  split; [split; [reflexivity | discriminate] |]. split; [exact Hf | lia].
Qed.

Lemma update_game_keeps (dt : Q) (a : App.t) :
  app_ok A G a -> save_file_ok h0 a ->
  exists a', App.update_game A G dt a = Some a' /\ app_keeps A G h0 a a'.
Proof.
  intros (Hv & Hg) Hf. unfold App.update_game.
  destruct (App.game a) as [g |] eqn:Eg.
  - destruct Hg as (Hst & Hr & Hd).
    destruct (update_total A G dt g) as [g' Hup]. rewrite Hup.
    assert (Hr' : reachable A G g')
      by (apply (reachable_step A G (Game.Tick dt) g g' Hr); exact Hup).
    destruct (Player.alive (Game.player g')) eqn:Ha; cbn [negb].
    + eexists. split; [reflexivity |].
      unfold app_keeps, app_ok, save_file_ok in *. app_fields.
      rewrite Ha. split; [| split; [exact Hf | lia]].
      split; [exact Hv |]. split; [exact Hst |]. split; [exact Hr' | discriminate].
    + eexists. split; [reflexivity |].
      destruct (record_high_score_spec g' (App.set_game (Some g') a))
        as (Hst' & Hg' & Hv' & Hsv' & _ & Hh & Hf').
      cbv zeta in *.
      assert (Hf0 : save_file_ok h0 (App.set_game (Some g') a)) by exact Hf.
      specialize (Hf' Hf0). revert Hst' Hg' Hv' Hsv' Hh Hf'.
      generalize (App.record_high_score g' (App.set_game (Some g') a)).
      intros a1 Hst' Hg' Hv' Hsv' Hh Hf'. app_fields.
      unfold app_keeps, app_ok. rewrite Hg', Hst', Hv', Hsv', Hh.
      split; [| split; [exact Hf' | lia]].
      split; [exact Hv |]. split; [exact Hst |]. split; [exact Hr' |]. intros _. lia.
  - eexists. split; [reflexivity |].
    unfold app_keeps, app_ok, save_file_ok in *. app_fields. rewrite Eg.
    split; [split; [exact Hv | discriminate] |]. split; [exact Hf | lia].
Qed.

Lemma app_keeps_refl (a : App.t) :
  app_ok A G a -> save_file_ok h0 a -> app_keeps A G h0 a a.
Proof. intros H1 H2. split; [exact H1 | split; [exact H2 | lia]]. Qed.

Lemma app_keeps_trans (a b c : App.t) :
  app_keeps A G h0 a b -> app_keeps A G h0 b c -> app_keeps A G h0 a c.
Proof. intros (_ & _ & H1) (H2 & H3 & H4). split; [exact H2 | split; [exact H3 | lia]]. Qed.

Lemma on_event_keeps (ev : App.Event) (running : bool) (a : App.t) :
  app_ok A G a -> save_file_ok h0 a ->
  app_keeps A G h0 a (snd (App.on_event A ev (running, a))).
Proof.
  intros Hok Hf. pose proof (app_keeps_refl a Hok Hf) as Hrefl.
  destruct ev as [| mx my | button mx my | key |]; cbn [App.on_event snd].
  - exact Hrefl.
  - destruct Hok as (Hv & Hg). unfold app_keeps, app_ok, save_file_ok in *.
    app_fields. split; [now split |]. split; [exact Hf | lia].
  - destruct (button =? 1)%Z; [| exact Hrefl].
    destruct (App.state a) eqn:Hst; try exact Hrefl.
    destruct (collidepoint App.btn_start mx my); cbn [snd];
      [now apply start_game_keeps |].
    destruct (collidepoint App.btn_settings mx my); cbn [snd].
    + destruct Hok as (Hv & Hg). unfold app_keeps, app_ok, save_file_ok in *.
      app_fields. destruct (App.game a); [destruct Hg as (Hg & _); congruence |].
      split; [split; [exact Hv | discriminate] |]. split; [exact Hf | lia].
    + destruct (collidepoint App.btn_quit mx my); exact Hrefl.
  - destruct (App.state a) eqn:Hst; try exact Hrefl.
    + destruct key; try exact Hrefl. cbn [snd].
      apply save_settings_and_back_keeps; [| exact Hf].
      destruct Hok as (_ & Hg). destruct (App.game a); [| reflexivity].
      destruct Hg as (Hg & _). congruence.
    + destruct key; try exact Hrefl; try (now apply start_game_keeps);
        try (now apply end_game_keeps);
        (destruct (App.game a) as [g |] eqn:Eg; [| exact Hrefl]; cbn [snd];
         destruct Hok as (Hv & Hg); unfold app_keeps, app_ok, save_file_ok in *;
         rewrite Eg in Hg; destruct Hg as (Hs & Hr & Hd); app_fields;
         (split; [| split; [exact Hf | lia]]);
         (split; [exact Hv |]); (split; [exact Hst |]);
         (split; [exact (reachable_step A G Game.KeyJump g _ Hr eq_refl) |]);
         intros Hdead; unfold Game.on_jump_pressed in *;
         destruct (Player.alive (Game.player g)) eqn:Ha;
         [| now apply Hd];
         pose proof (jump_keeps A (Game.player g)) as [Hja _];
         destruct (Player.jump A (Game.player g)) as [p snd0];
         cbn [Game.player Game.set_played Game.set_player fst] in *;
         congruence).
  - exact Hrefl.
Qed.

Lemma events_keep (evs : list App.Event) :
  forall running a, app_ok A G a -> save_file_ok h0 a ->
  app_keeps A G h0 a (snd (fold_left (fun st ev => App.on_event A ev st) evs (running, a))).
Proof.
  induction evs as [| ev evs IH]; intros running a Hok Hf; cbn [fold_left].
  - now apply app_keeps_refl.
  - pose proof (on_event_keeps ev running a Hok Hf) as H1.
    destruct (App.on_event A ev (running, a)) as [running1 a1]. cbn [snd] in H1.
    eapply app_keeps_trans; [exact H1 |]. apply IH; apply H1.
Qed.

End AppFacts.

Lemma collidepoint_inside (rx ry rw rh x y : Z) :
  collidepoint (rx, ry, rw, rh) x y = true <->
  (rx <= x < rx + rw /\ ry <= y < ry + rh)%Z.
Proof.
  unfold collidepoint. rewrite !andb_true_iff, !Z.leb_le, !Z.ltb_lt. lia.
Qed.

Lemma collidepoint_outside (rx ry rw rh x y : Z) :
  (y < ry \/ ry + rh <= y \/ x < rx \/ rx + rw <= x)%Z ->
  collidepoint (rx, ry, rw, rh) x y = false.
Proof.
  intros H. apply not_true_iff_false. rewrite collidepoint_inside. lia.
Qed.

(** The settings screen touches neither the game nor the high score, and
    leaves the app on its screen or on the menu. *)
Lemma draw_settings_fields (m : App.Mouse) (a : App.t) :
  let a' := App.draw_settings m a in
  App.game a' = App.game a /\ App.high_score a' = App.high_score a /\
  App.save_file a' = App.save_file a /\
  (App.state a' = App.state a \/ App.state a' = App.Menu) /\
  (App.sound_volume a = App.volume a -> App.sound_volume a' = App.volume a').
Proof.
  unfold App.draw_settings, App.save_settings_and_back. cbn [fold_left fst snd].
  destruct (App.mouse_left m); cbn [andb]; [| tauto].
  destruct (collidepoint App.slider_rect _ _);
    destruct (collidepoint (App.diff_rect 320) _ _);
    destruct (collidepoint (App.diff_rect 480) _ _);
    destruct (collidepoint (App.diff_rect 640) _ _);
    destruct (collidepoint App.back_rect _ _);
    app_fields; tauto.
Qed.

Section AppLoop.

Variable A : Assets.
Variable G : Pygame.
Variable h0 : Z.

Lemma draw_settings_keeps (m : App.Mouse) (a : App.t) :
  App.state a = App.SettingsScreen ->
  app_ok A G a -> save_file_ok h0 a -> app_keeps A G h0 a (App.draw_settings m a).
Proof.
  intros Hst (Hv & Hg) Hf.
  destruct (draw_settings_fields m a) as (Hg' & Hh & Hsf & Hst' & Hv').
  cbv zeta in *. revert Hg' Hh Hsf Hst' Hv'.
  generalize (App.draw_settings m a). intros a' Hg' Hh Hsf Hst' Hv'.
  unfold app_keeps, app_ok, save_file_ok in *. rewrite Hg', Hh, Hsf.
  split; [| split; [exact Hf | lia]]. split; [now apply Hv' |].
  destruct (App.game a); [destruct Hg as (Hg & _); congruence |].
  destruct Hst' as [E | E]; rewrite E; congruence.
Qed.

(** One turn of the loop always returns. *)
Lemma turn_keeps (f : App.Frame) (a : App.t) :
  app_ok A G a -> save_file_ok h0 a ->
  exists running a', App.turn A G f a = Some (running, a') /\ app_keeps A G h0 a a'.
Proof.
  intros Hok Hf. unfold App.turn.
  pose proof (events_keep A G h0 (App.events f) true a Hok Hf) as H1.
  destruct (fold_left _ (App.events f) (true, a)) as [running a1]. cbn [snd] in H1.
  destruct (App.state a1) eqn:Hst.
  - now exists running, a1.
  - exists running, (App.draw_settings (App.mouse f) a1). split; [reflexivity |].
    eapply app_keeps_trans; [exact H1 |].
    apply draw_settings_keeps; [exact Hst | apply H1 | apply H1].
  - destruct (update_game_keeps A G h0 (inject_Z (App.dt f)) a1) as (a2 & Hup & H2);
      [apply H1 | apply H1 |].
    rewrite Hup. exists running, a2. split; [reflexivity |].
    eapply app_keeps_trans; eassumption.
Qed.

Lemma exit_save_keeps (a : App.t) :
  app_ok A G a -> save_file_ok h0 a ->
  app_keeps A G h0 a (App.exit_save a) /\
  App.save_file (App.exit_save a) = App.save_file a ++ [App.high_score a] /\
  App.high_score (App.exit_save a) = App.high_score a.
Proof.
  intros Hok (Hle & _ & Hall). unfold App.exit_save, app_keeps, app_ok, save_file_ok in *.
  app_fields. split; [| split; reflexivity].
  split; [exact Hok |]. split; [| lia].
  split; [exact Hle |]. split; [right; now exists (App.save_file a) |].
  apply Forall_app. split; [exact Hall |]. constructor; [lia | constructor].
Qed.

(** The loop always returns, on every list of frames. *)
Lemma run_keeps (frames : list App.Frame) :
  forall a, app_ok A G a -> save_file_ok h0 a ->
  exists running a',
    App.run A G frames a = Some (running, a') /\ app_keeps A G h0 a a' /\
    (running = false ->
     exists l, App.save_file a' = l ++ [App.high_score a']).
Proof.
  induction frames as [| f frames IH]; intros a Hok Hf; cbn [App.run].
  - exists true, a. split; [reflexivity |].
    split; [now apply app_keeps_refl | discriminate].
  - destruct (turn_keeps f a Hok Hf) as (running & a1 & Hturn & H1).
    rewrite Hturn. destruct running.
    + destruct (IH a1) as (running & a2 & Hrun & H2 & Hx); [apply H1 | apply H1 |].
      exists running, a2. split; [exact Hrun |].
      split; [eapply app_keeps_trans; eassumption | exact Hx].
    + destruct (exit_save_keeps a1) as (H2 & Hsf & Hh); [apply H1 | apply H1 |].
      exists false, (App.exit_save a1). split; [reflexivity |].
      split; [eapply app_keeps_trans; eassumption |].
      intros _. exists (App.save_file a1). now rewrite Hsf, Hh.
Qed.

Lemma init_keeps (s : Settings) (save_high : option Z) (r : Random.t) :
  h0 = match save_high with Some h => h | None => 0%Z end ->
  app_ok A G (App.init s save_high r) /\ save_file_ok h0 (App.init s save_high r).
Proof.
  intros ->. unfold app_ok, save_file_ok, App.init. app_fields.
  split; [split; [reflexivity | discriminate] |].
  split; [lia |]. split; [now left | constructor].
Qed.

End AppLoop.

(** X16.  Every game of the app is a session.  On every list of frames the main
    loop returns, from the menu of a new app; the app then holds a game
    exactly when it is on the playing screen, and that game is a state of
    a session: a new [Game] followed by jump keys and frame updates.  The
    sounds are at the volume the settings screen shows. *)
Theorem app_games_are_sessions (A : Assets) (G : Pygame) (frames : list App.Frame)
    (s : Settings) (save_high : option Z) (r : Random.t) :
  exists running a,
    App.run A G frames (App.init s save_high r) = Some (running, a) /\
    (App.state a = App.Playing <-> App.game a <> None) /\
    (forall g, App.game a = Some g -> reachable A G g) /\
    App.sound_volume a = App.volume a.
Proof.
  destruct (init_keeps A G _ s save_high r eq_refl) as (Hok & Hf).
  destruct (run_keeps A G _ frames _ Hok Hf) as (running & a & Hrun & ((Hv & Hg) & _) & _).
  exists running, a. split; [exact Hrun |].
  destruct (App.game a) as [g |].
  - destruct Hg as (Hst & Hr & _). split; [split; [discriminate | now intros _] |].
    split; [| exact Hv]. intros g1 E. now inversion E; subst.
  - split; [split; [intros E; now contradiction Hg | intros E; now contradiction E] |].
    split; [discriminate | exact Hv].
Qed.

(** X17.  The high score keeps the best finished score.  On every list of
    frames, from a new app that loaded the high score [h0] (0 without a
    save file): the high score is at least [h0]; once the player of the
    held game is dead, the game's score is within the high score; the save
    file holds the high score as its last write, or was not written and
    the high score is still [h0]; every value written lies between [h0]
    and the high score; and a loop that was left has written the high
    score last. *)
Theorem high_score_keeps_the_best (A : Assets) (G : Pygame) (frames : list App.Frame)
    (s : Settings) (save_high : option Z) (r : Random.t) :
  let h0 := match save_high with Some h => h | None => 0%Z end in
  exists running a,
    App.run A G frames (App.init s save_high r) = Some (running, a) /\
    (h0 <= App.high_score a)%Z /\
    (forall g, App.game a = Some g -> Player.alive (Game.player g) = false ->
               (Game.score g <= App.high_score a)%Z) /\
    (App.save_file a = [] /\ App.high_score a = h0 \/
     exists l, App.save_file a = l ++ [App.high_score a]) /\
    Forall (fun v => (h0 <= v <= App.high_score a)%Z) (App.save_file a) /\
    (running = false -> exists l, App.save_file a = l ++ [App.high_score a]).
Proof.
  intros h0.
  destruct (init_keeps A G h0 s save_high r eq_refl) as (Hok & Hf).
  destruct (run_keeps A G h0 frames _ Hok Hf)
    as (running & a & Hrun & ((_ & Hg) & (Hle & Hlast & Hall) & _) & Hx).
  exists running, a. split; [exact Hrun |]. split; [exact Hle |].
  split; [| split; [exact Hlast | split; [exact Hall | exact Hx]]].
  intros g E Hd. rewrite E in Hg. now apply Hg.
Qed.

(** X18.  Restarting drops an unsaved score.  On the playing screen, with a game
    whose score is above the high score, the key R starts a new game with
    score 0 and leaves the high score and the save file as they were: the
    score of the game it replaces is lost.  The key Escape instead records
    that score as the high score, writes it to the save file and returns
    to the menu without a game. *)
Theorem restart_drops_unsaved_score (A : Assets) (a : App.t) (g : Game.t)
    (running : bool) :
  App.state a = App.Playing ->
  App.game a = Some g ->
  (App.high_score a < Game.score g)%Z ->
  (let a' := snd (App.on_event A (App.KEYDOWN App.K_r) (running, a)) in
   App.state a' = App.Playing /\
   App.high_score a' = App.high_score a /\
   App.save_file a' = App.save_file a /\
   exists g', App.game a' = Some g' /\ Game.score g' = 0%Z /\
              Player.alive (Game.player g') = true) /\
  (let a' := snd (App.on_event A (App.KEYDOWN App.K_ESCAPE) (running, a)) in
   App.state a' = App.Menu /\ App.game a' = None /\
   App.high_score a' = Game.score g /\
   App.save_file a' = App.save_file a ++ [Game.score g]).
Proof.
  intros Hst Hg Hlt. cbn [App.on_event]. rewrite Hst. cbn [snd]. split.
  - destruct (start_game_spec a) as (Hst' & Hg' & Hh & Hsf & _). cbv zeta in *.
    split; [exact Hst' |]. split; [exact Hh |]. split; [exact Hsf |].
    eexists. split; [exact Hg' |].
    destruct (init_fields (App.current_settings a) (App.generator a))
      as (Hp & _ & _ & _ & Hsc & _).
    split; [exact Hsc |]. rewrite Hp. reflexivity.
  - unfold App.end_game. rewrite Hg. unfold App.record_high_score.
    apply Z.gtb_lt in Hlt. rewrite Hlt. app_fields. repeat split.
Qed.

(** The claim on a game one point short of score 280, with no high score
    yet. *)
Lemma restart_drops_unsaved_score_witness :
  App.high_score
    (snd (App.on_event all_assets (App.KEYDOWN App.K_r) (true, playing_app)))
  = App.high_score playing_app /\
  App.high_score
    (snd (App.on_event all_assets (App.KEYDOWN App.K_ESCAPE) (true, playing_app)))
  = Game.score capped_game.
Proof.
  assert (H1 : App.state playing_app = App.Playing) by (vm_compute; reflexivity).
  assert (H2 : App.game playing_app = Some capped_game) by (vm_compute; reflexivity).
  assert (H3 : (App.high_score playing_app < Game.score capped_game)%Z)
    by (vm_compute; reflexivity).
  destruct (restart_drops_unsaved_score all_assets playing_app capped_game true
              H1 H2 H3) as ((_ & Hr & _) & (_ & _ & He & _)).
  split; [exact Hr | exact He].
Defined.

(** ** The volume slider *)

Lemma clamp_inside (v a b : Q) : a <= v -> v < b -> clamp v a b == v.
Proof.
  intros Ha Hb. unfold clamp.
  rewrite (proj2 (Qltb_lt v b) Hb).
  case_Qltb a v; [reflexivity | lra].
Qed.

(** X19.  The slider never reaches full volume.  With the left button held on
    the slider, [draw_settings] sets the volume to the mouse's offset into
    the slider over its width, 420: a value from 0 to 419/420, since
    [collidepoint] leaves the right edge out.  The clamp to [0, 1] changes
    nothing, the shown percentage is at most 99, the sounds are set to the
    new volume, and neither the difficulty nor the screen changes. *)
Theorem slider_never_full_volume (m : App.Mouse) (a : App.t) :
  App.mouse_left m = true ->
  collidepoint App.slider_rect (App.mouse_x m) (App.mouse_y m) = true ->
  let a' := App.draw_settings m a in
  App.volume a' == inject_Z (App.mouse_x m - 320) / 420 /\
  0 <= App.volume a' /\ App.volume a' <= 419 # 420 /\
  (py_int (App.volume a' * 100) <= 99)%Z /\
  App.sound_volume a' = App.volume a' /\
  App.difficulty a' = App.difficulty a /\
  App.state a' = App.state a.
Proof.
  intros Hl Hc. pose proof Hc as Hin. unfold App.slider_rect in Hin.
  apply collidepoint_inside in Hin. destruct Hin as [Hx Hy].
  unfold App.draw_settings. cbn [fold_left fst snd]. rewrite Hl, Hc. cbn [andb].
  unfold App.diff_rect, App.back_rect.
  rewrite !(collidepoint_outside _ 240 _ _ _ _) by lia.
  rewrite (collidepoint_outside _ (540 - 100) _ _ _ _) by lia.
  cbv zeta. app_fields.
  set (k := (App.mouse_x m - 320)%Z) in *.
  assert (Hk0 : inject_Z 0 <= inject_Z k) by (rewrite <- Zle_Qle; lia).
  assert (Hk1 : inject_Z k <= inject_Z 419) by (rewrite <- Zle_Qle; lia).
  change (inject_Z 0) with 0 in Hk0. change (inject_Z 419) with 419 in Hk1.
  change (inject_Z 420) with 420.
  assert (E : inject_Z k / 420 == inject_Z k * (1 # 420)) by reflexivity.
  assert (Hv : clamp (inject_Z k / 420) 0 1 == inject_Z k / 420)
    by (apply clamp_inside; rewrite E; lra).
  split; [exact Hv |].
  split; [rewrite Hv, E; lra |]. split; [rewrite Hv, E; lra |].
  split; [| now repeat split].
  unfold py_int.
  match goal with |- context [Qltb ?x 0] =>
    assert (Hx0 : 0 <= x) by (rewrite Hv, E; lra);
    assert (Hx1 : x < 100) by (rewrite Hv, E; lra);
    rewrite (proj2 (Qltb_ge x 0) Hx0);
    pose proof (Qfloor_le x) as Hfl
  end.
  assert (Hlt : inject_Z (Qfloor (clamp (inject_Z k / 420) 0 1 * 100)) < inject_Z 100).
  { change (inject_Z 100) with 100. eapply Qle_lt_trans; [exact Hfl | exact Hx1]. }
  rewrite <- Zlt_Qlt in Hlt. lia.
Qed.

(** The claim on the last pixel of the slider. *)
Lemma slider_never_full_volume_witness :
  App.volume (App.draw_settings slider_end playing_app) <= 419 # 420.
Proof.
  assert (H1 : App.mouse_left slider_end = true) by reflexivity.
  assert (H2 : collidepoint App.slider_rect (App.mouse_x slider_end)
                            (App.mouse_y slider_end) = true)
    by (vm_compute; reflexivity).
  exact (proj1 (proj2 (proj2 (slider_never_full_volume slider_end playing_app H1 H2)))).
Defined.
